(** * talos-mcp: the indexing-and-query subsystem

    A shallow embedding of [fetcher.go] (the Extractor) and [search.go]
    (IndexManager, TaxonomyStore and QueryEngine), with the properties of
    the specification proved or refuted against it.

    Go strings are byte strings: they are modelled by [string] (a list of
    8-bit characters), [len] by [String.length].  Go maps are [gmap]s. *)

From Stdlib Require Import Ascii String ZArith Lia List.
From stdpp Require Import gmap strings list fin_maps.

Set Warnings "-register-all".
Local Open Scope Z_scope.

(** ** The [strings] package of the Go standard library

    Only the functions the sources call.  Case mapping and white space are
    modelled on ASCII: a byte outside the ASCII range is left alone. *)
Module Strings.

Definition len (s : string) : Z := Z.of_nat (String.length s).

Definition lower_byte (c : ascii) : ascii :=
  let n := nat_of_ascii c in
  if ((65 <=? n) && (n <=? 90))%nat then ascii_of_nat (n + 32) else c.

Fixpoint ToLower (s : string) : string :=
  match s with
  | EmptyString => EmptyString
  | String c s' => String (lower_byte c) (ToLower s')
  end.

(** [strings.Split(s, sep)] for a separator of one byte; the sources only
    split on newline, slash and space.  An input with n separators gives
    n+1 pieces, so the empty string gives one empty piece. *)
Fixpoint Split (s : string) (sep : ascii) : list string :=
  match s with
  | EmptyString => [EmptyString]
  | String c s' =>
      if Ascii.eqb c sep then EmptyString :: Split s' sep
      else match Split s' sep with
           | [] => [String c EmptyString]
           | w :: ws => String c w :: ws
           end
  end.

Fixpoint Join (elems : list string) (sep : string) : string :=
  match elems with
  | [] => EmptyString
  | [e] => e
  | e :: rest => e +:+ sep +:+ Join rest sep
  end.

Fixpoint TrimLeftSpace (s : string) : string :=
  match s with
  | EmptyString => EmptyString
  | String c s' => if Ascii.is_space c then TrimLeftSpace s' else s
  end.

Fixpoint TrimRightSpace (s : string) : string :=
  match s with
  | EmptyString => EmptyString
  | String c s' =>
      match TrimRightSpace s' with
      | EmptyString => if Ascii.is_space c then EmptyString else String c EmptyString
      | t => String c t
      end
  end.

Definition TrimSpace (s : string) : string := TrimRightSpace (TrimLeftSpace s).

Definition HasPrefix (s prefix : string) : bool := String.prefix prefix s.

Fixpoint drop (n : nat) (s : string) : string :=
  match n, s with
  | O, _ => s
  | S n', String _ s' => drop n' s'
  | S _, EmptyString => EmptyString
  end.

Fixpoint take (n : nat) (s : string) : string :=
  match n, s with
  | S n', String c s' => String c (take n' s')
  | _, _ => EmptyString
  end.

(** The slice [s[:n]], for [0 <= n <= len(s)]. *)
Definition upto (n : Z) (s : string) : string := take (Z.to_nat n) s.

Definition TrimPrefix (s prefix : string) : string :=
  if HasPrefix s prefix then drop (String.length prefix) s else s.

Fixpoint Contains (s substr : string) : bool :=
  String.prefix substr s ||
  match s with
  | EmptyString => false
  | String _ s' => Contains s' substr
  end.

End Strings.

(** ** The [path/filepath] package, on a Unix system *)
Module Filepath.

Definition slash : ascii := "/"%char.

Fixpoint stripTrailingSlashes (s : string) : string :=
  match s with
  | EmptyString => EmptyString
  | String c s' =>
      match stripTrailingSlashes s' with
      | EmptyString => if Ascii.eqb c slash then EmptyString else String c EmptyString
      | t => String c t
      end
  end.

(** [filepath.Base]: the last element of the path, trailing slashes
    removed first; "." for the empty path, "/" for a path of slashes. *)
Definition Base (path : string) : string :=
  if decide (path = "") then "."
  else
    let last_elem := List.last (Strings.Split (stripTrailingSlashes path) slash) "" in
    if decide (last_elem = "") then "/" else last_elem.

(** One component of [Clean]; [stack] holds the kept components, the
    last one first. *)
Definition clean_step (rooted : bool) (stack : list string) (comp : string)
  : list string :=
  if decide (comp = "" ∨ comp = ".") then stack
  else if decide (comp = "..") then
    match stack with
    | top :: rest =>
        if decide (top = "..") then (if rooted then stack else ".." :: stack)
        else rest
    | [] => if rooted then [] else [".."]
    end
  else comp :: stack.

Definition Clean (path : string) : string :=
  if decide (path = "") then "."
  else
    let rooted := Strings.HasPrefix path "/" in
    let stack := fold_left (clean_step rooted) (Strings.Split path slash) [] in
    let body := Strings.Join (rev stack) "/" in
    if rooted then "/" +:+ body
    else if decide (body = "") then "." else body.

(** [filepath.Join]: leading empty elements are dropped, the rest is
    joined with slashes and cleaned. *)
Fixpoint Join (elem : list string) : string :=
  match elem with
  | [] => ""
  | e :: rest =>
      if decide (e = "") then Join rest
      else Clean (Strings.Join elem "/")
  end.

End Filepath.

(** ** models.go *)

Record Document := mkDocument {
  doc_ID : string;
  doc_Title : string;
  doc_Content : string;
  doc_Path : string;
  doc_Version : string;
  doc_Section : string;
  doc_Platform : string;
  doc_Tags : list string;
  doc_LastUpdated : Z;
  doc_Metadata : gmap string string
}.

Global Instance Document_eq_dec : EqDecision Document.
Proof. solve_decision. Defined.

(** [PageItem] is [interface{}]: the extractor switches on its dynamic
    type.  A JSON object decodes to [map[string]interface{}]; its "group"
    and "pages" entries are present here only when they have the dynamic
    type the type assertion asks for. *)
Inductive PageItem :=
| ItemString (p : string)
| ItemMap (group : option string) (pages : option (list PageItem))
| ItemPage (page : string)
| ItemNestedGroup (group : string) (pages : list PageItem)
| ItemOther.

Record Group := mkGroup { grp_Group : string; grp_Pages : list PageItem }.
Record Version := mkVersion { ver_Version : string; ver_Groups : list Group }.
Record Tab := mkTab { tab_Tab : string; tab_Icon : string; tab_Versions : list Version }.
Record NavigationTabs := mkNavigationTabs { nav_Tabs : list Tab }.
Record DocsNavigation := mkDocsNavigation {
  nav_Schema : string;
  nav_Theme : string;
  nav_Name : string;
  nav_Navigation : NavigationTabs
}.

(** ** fetcher.go: the Extractor *)
Module Fetcher.

(** What [os.Stat] answers for a path. *)
Inductive StatResult :=
| StatOk (modTime : Z)
| StatNotExist
| StatError.

(** The checkout, as the extractor reads it: [os.Stat] and [os.ReadFile]
    per path ([None]: the read fails).  The two are not tied together, so
    a file that exists but cannot be read is covered. *)
Record FileSystem := mkFileSystem {
  os_Stat : string → StatResult;
  os_ReadFile : string → option string
}.

(** The fields of [DocumentationFetcher] the extraction reads, the
    checkout it reads from, and the clock. *)
Record DocumentationFetcher := mkFetcher {
  localPath : string;
  disk : FileSystem;
  time_Now : Z
}.

Definition IsNotExist (r : StatResult) : bool :=
  match r with StatNotExist => true | _ => false end.

Definition newline : ascii := "010"%char.

Fixpoint firstHeading (lines : list string) : option string :=
  match lines with
  | [] => None
  | line :: rest =>
      let line := Strings.TrimSpace line in
      if Strings.HasPrefix line "# " then Some (Strings.TrimPrefix line "# ")
      else firstHeading rest
  end.

Definition extractTitle (content pagePath : string) : string :=
  match firstHeading (Strings.Split content newline) with
  | Some t => t
  | None => Filepath.Base pagePath
  end.

Definition platforms : list string :=
  ["aws"; "azure"; "gcp"; "digitalocean"; "hetzner"; "vultr"; "exoscale";
   "scaleway"; "upcloud"; "oracle"; "akamai"; "cloudstack"; "nocloud"; "openstack";
   "equinix-metal"; "proxmox"; "vmware"; "kvm"; "hyper-v"; "xen"; "docker"; "qemu";
   "virtualbox"; "banana"; "nanopi"; "jetson"; "orangepi"; "pine64"; "rock"; "rpi"].

Definition extractPlatformFromPath (pagePath : string) : string :=
  let lowerPath := Strings.ToLower pagePath in
  match List.find (fun platform => Strings.Contains lowerPath platform) platforms with
  | Some platform => platform
  | None => ""
  end.

Definition keywords : list string :=
  ["installation"; "configuration"; "networking"; "security"; "upgrade";
   "troubleshooting"; "api"; "cli"; "kernel"; "storage"; "monitoring"].

(** The last loop of [extractTags]: trims, drops empty tags and the ones
    already [seen], keeps the order. *)
Fixpoint uniqueTags (seen : gmap string bool) (tags : list string) : list string :=
  match tags with
  | [] => []
  | tag :: rest =>
      let tag := Strings.TrimSpace tag in
      if bool_decide (tag ≠ "") && negb (default false (seen !! tag))
      then tag :: uniqueTags (<[tag := true]> seen) rest
      else uniqueTags seen rest
  end.

Definition extractTags (content pagePath : string) : list string :=
  let pathTags := Strings.Split (Strings.ToLower pagePath) Filepath.slash in
  let lowerContent := Strings.ToLower content in
  let tags := pathTags ++ List.filter (fun keyword => Strings.Contains lowerContent keyword) keywords in
  uniqueTags ∅ tags.

Definition getFileModTime (df : DocumentationFetcher) (filePath : string) : Z :=
  match os_Stat (disk df) filePath with
  | StatOk t => t
  | _ => time_Now df
  end.

(** The file [extractDocument] settles on: the .mdx candidate, or the
    .md one when [os.Stat] says the .mdx file does not exist. *)
Definition candidate (df : DocumentationFetcher) (pagePath ext : string) : string :=
  Filepath.Join [localPath df; "public"; pagePath +:+ ext].

Definition resolvePath (df : DocumentationFetcher) (pagePath : string) : string :=
  let filePath := candidate df pagePath ".mdx" in
  if IsNotExist (os_Stat (disk df) filePath) then candidate df pagePath ".md"
  else filePath.

(** [extractDocument]; [None] is the nil document. *)
Definition extractDocument (df : DocumentationFetcher)
    (tab version groupName platform pagePath : string) : option Document :=
  let filePath := resolvePath df pagePath in
  match os_ReadFile (disk df) filePath with
  | None => None
  | Some content =>
      if (String.length content =? 0)%nat then None
      else
        let title := extractTitle content pagePath in
        let id := version +:+ "-" +:+ Strings.ToLower groupName +:+ "-"
                  +:+ Strings.ToLower (Filepath.Base pagePath) in
        let platform :=
          if decide (platform = "") then extractPlatformFromPath pagePath
          else platform in
        Some {| doc_ID := id;
                doc_Title := title;
                doc_Content := content;
                doc_Path := pagePath;
                doc_Version := version;
                doc_Section := groupName;
                doc_Platform := platform;
                doc_Tags := extractTags content pagePath;
                doc_LastUpdated := getFileModTime df filePath;
                doc_Metadata := <["file_path" := filePath]> (<["tab" := tab]> ∅) |}
  end.

(** One iteration of the loop of [extractDocumentsFromGroup]: the type
    switch on a page item.  A nested group recurses with its own name as
    the group and the platform inherited. *)
Fixpoint extractPageItem (df : DocumentationFetcher)
    (tab version groupName platform : string) (page : PageItem) {struct page}
  : list Document :=
  let fromPages nested :=
    (fix go (pages : list PageItem) : list Document :=
       match pages with
       | [] => []
       | p :: rest => extractPageItem df tab version nested platform p ++ go rest
       end) in
  match page with
  | ItemString p => option_list (extractDocument df tab version groupName platform p)
  | ItemMap (Some nestedGroup) (Some nestedPages) => fromPages nestedGroup nestedPages
  | ItemMap _ _ => []
  | ItemPage p => option_list (extractDocument df tab version groupName platform p)
  | ItemNestedGroup g pages => fromPages g pages
  | ItemOther => []
  end.

Definition extractDocumentsFromGroup (df : DocumentationFetcher)
    (tab version groupName platform : string) (pages : list PageItem)
  : list Document :=
  flat_map (extractPageItem df tab version groupName platform) pages.

Definition extractDocumentsFromVersion (df : DocumentationFetcher)
    (tab version : string) (groups : list Group) : list Document :=
  flat_map (fun group =>
              extractDocumentsFromGroup df tab version (grp_Group group) "" (grp_Pages group))
           groups.

(** [ExtractDocuments] returns the documents and a nil error, always. *)
Definition ExtractDocuments (df : DocumentationFetcher) (nav : DocsNavigation)
  : list Document * option string :=
  let documents :=
    flat_map (fun tab =>
                if decide (tab_Tab tab = "Talos") then
                  flat_map (fun version =>
                              extractDocumentsFromVersion df (tab_Tab tab)
                                (ver_Version version) (ver_Groups version))
                           (tab_Versions tab)
                else [])
             (nav_Tabs (nav_Navigation nav)) in
  (documents, None).

End Fetcher.

(** ** search.go: data *)

Record ContentTaxonomy := mkTaxonomy {
  tax_Versions : gmap string bool;
  tax_Sections : gmap string bool;
  tax_Platforms : gmap string bool;
  tax_Tags : gmap string bool
}.

Record SearchRequest := mkSearchRequest {
  req_Query : string;
  req_Version : string;
  req_Section : string;
  req_Platform : string;
  req_Tags : list string;
  req_Limit : Z
}.

(** A relevance score is only passed through; its carrier is immaterial. *)
Definition Score := Z.

Record SearchResult := mkSearchResult {
  res_Document : Document;
  res_Score : Score;
  res_Snippet : string;
  res_Context : string
}.

Record SearchResponse := mkSearchResponse {
  resp_Results : list SearchResult;
  resp_Total : Z;
  resp_Query : string;
  resp_Duration : Z
}.

(** Go error values.  What the operating system or bleve reports is kept
    abstract ([ErrEnv]); [Errorf] is [fmt.Errorf] with a wrapped cause. *)
Inductive error :=
| ErrEnv (origin : string)
| ErrorIndexPathDoesNotExist
| ErrorIndexPathExists
| ErrorIndexMetaMissing
| ErrorIndexClosed
| ErrorEmptyID
| ErrNotExist
| ErrNotEmpty
| Errorf (msg : string) (cause : error).

Inductive Result (A : Type) :=
| Ok (a : A)
| Err (e : error).
Arguments Ok {A} a.
Arguments Err {A} e.

(** [log.Printf(format, args...)]. *)
Inductive LogArg :=
| ArgInt (n : Z)
| ArgStr (s : string)
| ArgErr (e : error).

Record LogEvent := Logf { log_format : string; log_args : list LogArg }.

(** ** The search primitive and the index directory

    bleve is outside the repository.  An index is modelled by what the
    code stores in it and reads back: per document id, the fields
    [indexDocument] passes.  Ranking is a parameter of [Search]. *)

Record StoredDoc := mkStoredDoc {
  st_title : string;
  st_content : string;
  st_version : string;
  st_section : string;
  st_platform : string;
  st_tags : string;
  st_last_updated : Z
}.

Record Hit := mkHit { hit_ID : string; hit_Score : Score }.

(** The three sibling locations under [se.indexPath]. *)
Inductive Slot := Active | Staging | Backup.

Global Instance Slot_eq_dec : EqDecision Slot.
Proof. solve_decision. Defined.

(** What is at a location: nothing, an empty directory (after
    [os.MkdirAll]), or an index with its documents. *)
Inductive Location :=
| Absent
| EmptyDir
| IndexDir (data : gmap string StoredDoc).

Record Disk := mkDisk {
  at_active : Location;
  at_staging : Location;
  at_backup : Location
}.

Definition location (d : Disk) (s : Slot) : Location :=
  match s with
  | Active => at_active d
  | Staging => at_staging d
  | Backup => at_backup d
  end.

Definition place (s : Slot) (l : Location) (d : Disk) : Disk :=
  match s with
  | Active => mkDisk l (at_staging d) (at_backup d)
  | Staging => mkDisk (at_active d) l (at_backup d)
  | Backup => mkDisk (at_active d) (at_staging d) l
  end.

(** A [bleve.Index] value: the location it was opened or created at, and
    whether it is still open.  The code closes every handle before it
    moves the directory under it. *)
Record Handle := mkHandle { h_slot : Slot; h_open : bool }.

Record SearchEngine := mkSearchEngine {
  se_activeIndex : option Handle;
  se_stagingIndex : option Handle;
  se_indexPath : string;
  se_documents : gmap string Document;
  se_taxonomy : ContentTaxonomy;
  se_maxResults : Z;
  se_snippetLength : Z
}.

(** The engine together with the index directory it owns. *)
Record State := mkState { engine : SearchEngine; files : Disk }.

Definition with_engine (f : SearchEngine → SearchEngine) (st : State) : State :=
  mkState (f (engine st)) (files st).

Definition with_files (f : Disk → Disk) (st : State) : State :=
  mkState (engine st) (f (files st)).

Definition set_activeIndex (h : option Handle) (se : SearchEngine) : SearchEngine :=
  mkSearchEngine h (se_stagingIndex se) (se_indexPath se) (se_documents se)
    (se_taxonomy se) (se_maxResults se) (se_snippetLength se).

Definition set_stagingIndex (h : option Handle) (se : SearchEngine) : SearchEngine :=
  mkSearchEngine (se_activeIndex se) h (se_indexPath se) (se_documents se)
    (se_taxonomy se) (se_maxResults se) (se_snippetLength se).

Definition set_documents (m : gmap string Document) (se : SearchEngine) : SearchEngine :=
  mkSearchEngine (se_activeIndex se) (se_stagingIndex se) (se_indexPath se) m
    (se_taxonomy se) (se_maxResults se) (se_snippetLength se).

Definition set_taxonomy (t : ContentTaxonomy) (se : SearchEngine) : SearchEngine :=
  mkSearchEngine (se_activeIndex se) (se_stagingIndex se) (se_indexPath se)
    (se_documents se) t (se_maxResults se) (se_snippetLength se).

(** ** Programs

    A method of the engine is a program: a sequence of atomic operations
    on the state, log lines, and operations of [se.mu].  [run] is a call
    that runs alone; [Module Concurrent] interleaves programs. *)

Inductive MutexOp := Lock | Unlock | RLock | RUnlock.

Inductive Prog (A : Type) : Type :=
| Ret (a : A)
| Act {R : Type} (op : State → R * State) (k : R → Prog A)
| Printf (e : LogEvent) (k : Prog A)
| Sync (m : MutexOp) (k : Prog A).
Arguments Ret {A} a.
Arguments Act {A R} op k.
Arguments Printf {A} e k.
Arguments Sync {A} m k.

Fixpoint bind {A B : Type} (p : Prog A) (f : A → Prog B) : Prog B :=
  match p with
  | Ret a => f a
  | Act op k => Act op (fun r => bind (k r) f)
  | Printf e k => Printf e (bind k f)
  | Sync m k => Sync m (bind k f)
  end.

Global Instance Prog_ret : MRet Prog := @Ret.
Global Instance Prog_bind : MBind Prog := fun A B f p => bind p f.

Definition act {R : Type} (op : State → R * State) : Prog R := Act op Ret.
Definition logf (format : string) (args : list LogArg) : Prog unit :=
  Printf (Logf format args) (Ret tt).
Definition sync (m : MutexOp) : Prog unit := Sync m (Ret tt).

(** Reading and writing the engine's fields are atomic operations too. *)
Definition get {R : Type} (f : State → R) : Prog R := act (fun st => (f st, st)).
Definition modify (f : State → State) : Prog unit := act (fun st => (tt, f st)).

(** A call that runs alone on a free mutex: the operations of the mutex
    succeed at once and leave it free.  The result, the state reached and
    the lines logged. *)
Fixpoint run {A : Type} (p : Prog A) (st : State) : A * State * list LogEvent :=
  match p with
  | Ret a => (a, st, [])
  | Act op k => let '(r, st') := op st in run (k r) st'
  | Printf e k => let '(a, st', l) := run k st in (a, st', e :: l)
  | Sync _ k => run k st
  end.

Definition result_of {A : Type} (x : A * State * list LogEvent) : A := x.1.1.
Definition state_of {A : Type} (x : A * State * list LogEvent) : State := x.1.2.
Definition log_of {A : Type} (x : A * State * list LogEvent) : list LogEvent := x.2.

(** ** Operations of the operating system and of bleve

    Each takes the environment's verdict [ok] for this call: with
    [ok = false] the call fails for a reason outside the model (permissions,
    input and output); with [ok = true] it still fails when the state of the
    index directory says so. *)

Definition os_RemoveAll (ok : bool) (s : Slot) (st : State) : Result unit * State :=
  if ok then (Ok tt, with_files (place s Absent) st)
  else (Err (ErrEnv "RemoveAll"), st).

Definition os_MkdirAll (ok : bool) (s : Slot) (st : State) : Result unit * State :=
  if ok then
    match location (files st) s with
    | Absent => (Ok tt, with_files (place s EmptyDir) st)
    | _ => (Ok tt, st)
    end
  else (Err (ErrEnv "MkdirAll"), st).

(** [os.Rename] of a directory: the source must exist, and the target must
    not be a directory with entries. *)
Definition os_Rename (ok : bool) (src dst : Slot) (st : State) : Result unit * State :=
  if ok then
    match location (files st) src with
    | Absent => (Err ErrNotExist, st)
    | l =>
        match location (files st) dst with
        | IndexDir _ => (Err ErrNotEmpty, st)
        | _ => (Ok tt, with_files (fun d => place dst l (place src Absent d)) st)
        end
    end
  else (Err (ErrEnv "Rename"), st).

Definition bleve_New (ok : bool) (s : Slot) (st : State) : Result Handle * State :=
  if ok then
    match location (files st) s with
    | IndexDir _ => (Err ErrorIndexPathExists, st)
    | _ => (Ok (mkHandle s true), with_files (place s (IndexDir ∅)) st)
    end
  else (Err (ErrEnv "New"), st).

Definition bleve_Open (ok : bool) (s : Slot) (st : State) : Result Handle * State :=
  if ok then
    match location (files st) s with
    | Absent => (Err ErrorIndexPathDoesNotExist, st)
    | EmptyDir => (Err ErrorIndexMetaMissing, st)
    | IndexDir _ => (Ok (mkHandle s true), st)
    end
  else (Err (ErrEnv "Open"), st).

Definition Close (h : Handle) : Handle := mkHandle (h_slot h) false.

(** [index.Index(id, data)]: adds or replaces the document of that id. *)
Definition bleve_Index (ok : bool) (h : Handle) (id : string) (data : StoredDoc)
    (st : State) : Result unit * State :=
  if decide (id = "") then (Err ErrorEmptyID, st)
  else if negb (h_open h) then (Err ErrorIndexClosed, st)
  else if ok then
    match location (files st) (h_slot h) with
    | IndexDir m => (Ok tt, with_files (place (h_slot h) (IndexDir (<[id := data]> m))) st)
    | _ => (Err (ErrEnv "Index"), st)
    end
  else (Err (ErrEnv "Index"), st).

(** What an open handle reads. *)
Definition index_data (h : Handle) (st : State) : Result (gmap string StoredDoc) :=
  if negb (h_open h) then Err ErrorIndexClosed
  else match location (files st) (h_slot h) with
       | IndexDir m => Ok m
       | _ => Err (ErrEnv "index files")
       end.

(** [index.DocCount()]. *)
Definition DocCount (h : Handle) (st : State) : Result Z :=
  match index_data h st with
  | Ok m => Ok (Z.of_nat (size m))
  | Err e => Err e
  end.

(** ** search.go: IndexManager *)

(** The environment of one call of [IndexDocuments]: a verdict per call
    site, for [index.Index] per position in the document list, and the
    time the call takes. *)
Record Env := mkEnv {
  ok_clearStaging : bool;
  ok_mkdirStaging : bool;
  ok_newStaging : bool;
  ok_index : nat → bool;
  ok_removeBackup : bool;
  ok_renameActive : bool;
  ok_renameStaging : bool;
  ok_reopenActive : bool;
  ok_newStagingAfter : bool;
  env_elapsed : Z
}.

Definition closeActive (st : State) : State :=
  with_engine (fun se => set_activeIndex (Close <$> se_activeIndex se) se) st.

Definition closeStaging (st : State) : State :=
  with_engine (fun se => set_stagingIndex (Close <$> se_stagingIndex se) se) st.

Definition stored (doc : Document) : StoredDoc :=
  {| st_title := doc_Title doc;
     st_content := doc_Content doc;
     st_version := doc_Version doc;
     st_section := doc_Section doc;
     st_platform := doc_Platform doc;
     st_tags := Strings.Join (doc_Tags doc) " ";
     st_last_updated := doc_LastUpdated doc |}.

Definition indexDocument (ok : bool) (index : Handle) (doc : Document)
  : Prog (Result unit) :=
  act (bleve_Index ok index (doc_ID doc) (stored doc)).

Definition mark (key : string) (m : gmap string bool) : gmap string bool :=
  <[key := true]> m.

Definition updateTaxonomy (doc : Document) (t : ContentTaxonomy) : ContentTaxonomy :=
  {| tax_Versions :=
       if decide (doc_Version doc ≠ "") then mark (doc_Version doc) (tax_Versions t)
       else tax_Versions t;
     tax_Sections :=
       if decide (doc_Section doc ≠ "") then mark (doc_Section doc) (tax_Sections t)
       else tax_Sections t;
     tax_Platforms :=
       if decide (doc_Platform doc ≠ "") then mark (doc_Platform doc) (tax_Platforms t)
       else tax_Platforms t;
     tax_Tags := foldl (fun m tag => mark tag m) (tax_Tags t) (doc_Tags doc) |}.

(** [atomicSwap], steps (1) to (3) of the swap: close both handles, drop
    the old backup, move the active generation to the backup location.  A
    failure is logged and nothing else. *)
Definition swap_retire (env : Env) : Prog unit :=
  logf "  Closing indices..." [];;
  a ← get (fun st => se_activeIndex (engine st));
  (match a with Some _ => modify closeActive | None => Ret tt end);;
  s ← get (fun st => se_stagingIndex (engine st));
  (match s with Some _ => modify closeStaging | None => Ret tt end);;
  logf "  Backing up old index..." [];;
  r ← act (os_RemoveAll (ok_removeBackup env) Backup);
  (match r with
   | Err e => logf "Warning: failed to remove old backup index: %v" [ArgErr e]
   | Ok _ => Ret tt
   end);;
  r ← act (os_Rename (ok_renameActive env) Active Backup);
  match r with
  | Err e => logf "Warning: failed to backup active index: %v" [ArgErr e]
  | Ok _ => Ret tt
  end.

(** [atomicSwap], steps (4) to (6): move staging to the active location,
    reopen it, create the next staging index. *)
Definition swap_promote (env : Env) : Prog (Result unit) :=
  logf "  Swapping staging to active..." [];;
  r ← act (os_Rename (ok_renameStaging env) Staging Active);
  match r with
  | Err e => Ret (Err (Errorf "failed to move staging index to active" e))
  | Ok _ =>
      logf "  Reopening active index..." [];;
      r ← act (bleve_Open (ok_reopenActive env) Active);
      match r with
      | Err e => Ret (Err (Errorf "failed to reopen active index" e))
      | Ok activeIndex =>
          modify (with_engine (set_activeIndex (Some activeIndex)));;
          logf "  Creating new staging index..." [];;
          r ← act (bleve_New (ok_newStagingAfter env) Staging);
          match r with
          | Err e => Ret (Err (Errorf "failed to create new staging index" e))
          | Ok newStagingIndex =>
              modify (with_engine (set_stagingIndex (Some newStagingIndex)));;
              logf "  Swap complete!" [];;
              Ret (Ok tt)
          end
      end
  end.

Definition atomicSwap (env : Env) : Prog (Result unit) :=
  swap_retire env;;
  swap_promote env.

(** The loop of [IndexDocuments] from position [i] on, [indexed] documents
    done so far; [total] is [len(documents)]. *)
Fixpoint indexLoop (env : Env) (newStagingIndex : Handle) (total : Z)
    (documents : list Document) (i : nat) (indexed : Z) : Prog Z :=
  match documents with
  | [] => Ret indexed
  | doc :: rest =>
      r ← indexDocument (ok_index env i) newStagingIndex doc;
      match r with
      | Err e =>
          logf "Error indexing document %s: %v" [ArgStr (doc_ID doc); ArgErr e];;
          indexLoop env newStagingIndex total rest (S i) indexed
      | Ok _ =>
          modify (with_engine (fun se => set_taxonomy (updateTaxonomy doc (se_taxonomy se)) se));;
          modify (with_engine (fun se => set_documents (<[doc_ID doc := doc]> (se_documents se)) se));;
          (if decide ((Z.of_nat i + 1) `mod` 100 = 0)
           then logf "  Indexed %d/%d documents..." [ArgInt (Z.of_nat i + 1); ArgInt total]
           else Ret tt);;
          indexLoop env newStagingIndex total rest (S i) (indexed + 1)
      end
  end.

(** [IndexDocuments] between taking the lock and the deferred unlock. *)
Definition IndexDocuments_locked (env : Env) (documents : list Document)
  : Prog (Result unit) :=
  let total := Z.of_nat (length documents) in
  logf "Starting indexing of %d documents..." [ArgInt total];;
  r ← act (os_RemoveAll (ok_clearStaging env) Staging);
  (match r with
   | Err e => logf "Warning: failed to clear staging index: %v" [ArgErr e]
   | Ok _ => Ret tt
   end);;
  s ← get (fun st => se_stagingIndex (engine st));
  (match s with Some _ => modify closeStaging | None => Ret tt end);;
  r ← act (os_MkdirAll (ok_mkdirStaging env) Staging);
  match r with
  | Err e => Ret (Err (Errorf "failed to create staging directory" e))
  | Ok _ =>
      r ← act (bleve_New (ok_newStaging env) Staging);
      match r with
      | Err e => Ret (Err (Errorf "failed to create new staging index" e))
      | Ok newStagingIndex =>
          modify (with_engine (set_stagingIndex (Some newStagingIndex)));;
          indexed ← indexLoop env newStagingIndex total documents 0 0;
          logf "Indexing complete: %d documents indexed" [ArgInt indexed];;
          logf "Performing atomic index swap..." [];;
          r ← atomicSwap env;
          match r with
          | Err e => Ret (Err (Errorf "failed to atomic swap indices" e))
          | Ok _ =>
              logf "Index ready! Total time: %v" [ArgInt (env_elapsed env)];;
              Ret (Ok tt)
          end
      end
  end.

Definition IndexDocuments (env : Env) (documents : list Document) : Prog (Result unit) :=
  sync Lock;;
  r ← IndexDocuments_locked env documents;
  sync Unlock;;
  Ret r.

(** [NewSearchEngine]: the environment's verdicts per call site. *)
Record InitEnv := mkInitEnv {
  ok_mkdirRoot : bool;
  ok_openReadOnly : bool;
  ok_createActive : bool;
  ok_openRegular : bool;
  ok_removeOldStaging : bool;
  ok_createStaging : bool
}.

Definition emptyTaxonomy : ContentTaxonomy := mkTaxonomy ∅ ∅ ∅ ∅.

Definition finishNewSearchEngine (ienv : InitEnv) (activeIndex : Handle)
  : Prog (Result unit) :=
  docCount ← get (DocCount activeIndex);
  logf "Opened existing index with %d documents"
       [ArgInt (match docCount with Ok n => n | Err _ => 0 end)];;
  modify (with_engine (set_activeIndex (Some activeIndex)));;
  act (os_RemoveAll (ok_removeOldStaging ienv) Staging);;
  r ← act (bleve_New (ok_createStaging ienv) Staging);
  match r with
  | Err e => Ret (Err (Errorf "failed to create staging index" e))
  | Ok stagingIndex =>
      modify (with_engine (set_stagingIndex (Some stagingIndex)));;
      logf "SearchEngine ready" [];;
      Ret (Ok tt)
  end.

Definition NewSearchEngine_prog (ienv : InitEnv) : Prog (Result unit) :=
  if negb (ok_mkdirRoot ienv)
  then Ret (Err (Errorf "failed to create index directory" (ErrEnv "MkdirAll")))
  else
    logf "Opening bleve indices..." [];;
    r ← act (bleve_Open (ok_openReadOnly ienv) Active);
    match r with
    | Err ErrorIndexPathDoesNotExist =>
        logf "No existing index found, creating empty index" [];;
        r ← act (bleve_New (ok_createActive ienv) Active);
        match r with
        | Err e => Ret (Err (Errorf "failed to create search index" e))
        | Ok activeIndex => finishNewSearchEngine ienv activeIndex
        end
    | Err e =>
        logf "Failed to open in read-only mode, trying regular open: %v" [ArgErr e];;
        r ← act (bleve_Open (ok_openRegular ienv) Active);
        match r with
        | Err e => Ret (Err (Errorf "failed to open existing index" e))
        | Ok activeIndex => finishNewSearchEngine ienv activeIndex
        end
    | Ok activeIndex => finishNewSearchEngine ienv activeIndex
    end.

(** [NewSearchEngine] on the index directory as it is found: the engine and
    the directory it leaves, or the error. *)
Definition NewSearchEngine (ienv : InitEnv) (indexPath : string)
    (maxResults snippetLength : Z) (d : Disk) : Result State :=
  let se := mkSearchEngine None None indexPath ∅ emptyTaxonomy maxResults snippetLength in
  match run (NewSearchEngine_prog ienv) (mkState se d) with
  | (Ok _, st, _) => Ok st
  | (Err e, _, _) => Err e
  end.

(** ** search.go: QueryEngine *)

Definition truncationMarker : string :=
  String Fetcher.newline (String Fetcher.newline "[Content truncated]").

(** The loop shared by [extractSnippet] and [extractContext]; [None] is the
    run-time panic of a slice with a negative bound. *)
Fixpoint firstParagraph (limit : Z) (lines : list string) : option string :=
  match lines with
  | [] => Some ""
  | line :: rest =>
      let line := Strings.TrimSpace line in
      if bool_decide (line ≠ "") && negb (Strings.HasPrefix line "#")
         && (50 <? Strings.len line)
      then
        if limit <? Strings.len line
        then if limit <? 0 then None
             else Some (Strings.upto limit line +:+ "...")
        else Some line
      else firstParagraph limit rest
  end.

Definition extractSnippet (snippetLength : Z) (content : string) : option string :=
  firstParagraph snippetLength (Strings.Split content Fetcher.newline).

Definition extractContext (content : string) : option string :=
  firstParagraph 200 (Strings.Split content Fetcher.newline).

(** The environment of one call of [Search]. *)
Record SearchEnv := mkSearchEnv {
  ok_search : bool;
  ok_document : string → bool;
  search_elapsed : Z
}.

(** How a call of [Search] ends. *)
Inductive SearchOutcome :=
| Response (r : SearchResponse)
| SearchError (e : error)
| Panic.

(** What the loop of [Search] makes of one hit. *)
Inductive Resolved :=
| Found (doc : Document)
| Skipped
| Crashed.

(** The in-memory document of a hit, its content capped in a copy. *)
Definition fromMemory (doc : Document) : Document :=
  if 10000 <? Strings.len (doc_Content doc)
  then {| doc_ID := doc_ID doc;
          doc_Title := doc_Title doc;
          doc_Content := Strings.upto 10000 (doc_Content doc) +:+ truncationMarker;
          doc_Path := doc_Path doc;
          doc_Version := doc_Version doc;
          doc_Section := doc_Section doc;
          doc_Platform := doc_Platform doc;
          doc_Tags := doc_Tags doc;
          doc_LastUpdated := doc_LastUpdated doc;
          doc_Metadata := doc_Metadata doc |}
  else doc.

(** The document rebuilt from the fields stored in the index. *)
Definition fromIndex (id : string) (sd : StoredDoc) : Document :=
  {| doc_ID := id;
     doc_Title := st_title sd;
     doc_Content :=
       if 10000 <? Strings.len (st_content sd)
       then Strings.upto 10000 (st_content sd) +:+ truncationMarker
       else st_content sd;
     doc_Path := "";
     doc_Version := st_version sd;
     doc_Section := st_section sd;
     doc_Platform := st_platform sd;
     doc_Tags := Strings.Split (st_tags sd) " "%char;
     doc_LastUpdated := 0;
     doc_Metadata := ∅ |}.

(** The manual filters: [true] when the document is kept. *)
Definition passesFilters (req : SearchRequest) (doc : Document) : bool :=
  negb (bool_decide (req_Version req ≠ "") && bool_decide (doc_Version doc ≠ req_Version req))
  && negb (bool_decide (req_Section req ≠ "") && bool_decide (doc_Section doc ≠ req_Section req))
  && negb (bool_decide (req_Platform req ≠ "") && bool_decide (doc_Platform doc ≠ req_Platform req)).

(** The limit [Search] passes to bleve as [searchReq.Size]. *)
Definition effectiveLimit (req : SearchRequest) : Z :=
  if (req_Limit req =? 0) || (5 <? req_Limit req) then 5 else req_Limit req.

Section QueryEngine.

(** The ranked matches of a query in an index, all of them, best first:
    bleve's match query.  [SearchInContext] returns the first [Size] of
    them as [Hits] and their number as [Total]. *)
Variable bleveMatch : gmap string StoredDoc → string → list Hit.

(** [se.activeIndex.SearchInContext(ctx, searchReq)]; [None] is the
    panic on a nil [activeIndex]. *)
Definition SearchInContext (ok : bool) (query : string) (size : Z) (st : State)
  : option (Result (list Hit * Z)) * State :=
  match se_activeIndex (engine st) with
  | None => (None, st)
  | Some h =>
      match index_data h st with
      | Err e => (Some (Err e), st)
      | Ok m =>
          if ok then
            let matches := bleveMatch m query in
            (Some (Ok (take (Z.to_nat size) matches, Z.of_nat (length matches))), st)
          else (Some (Err (ErrEnv "SearchInContext")), st)
      end
  end.

(** [se.activeIndex.Document(id)]: the stored document, nil when the index
    has none of that id. *)
Definition bleve_Document (ok : bool) (id : string) (st : State)
  : option (Result (option StoredDoc)) * State :=
  match se_activeIndex (engine st) with
  | None => (None, st)
  | Some h =>
      match index_data h st with
      | Err e => (Some (Err e), st)
      | Ok m => if ok then (Some (Ok (m !! id)), st)
                else (Some (Err (ErrEnv "Document")), st)
      end
  end.

Definition resolveHit (senv : SearchEnv) (hit : Hit) : Prog Resolved :=
  cached ← get (fun st => se_documents (engine st) !! hit_ID hit);
  match cached with
  | Some doc => Ret (Found (fromMemory doc))
  | None =>
      logf "DEBUG: Retrieving document %s from index" [ArgStr (hit_ID hit)];;
      r ← act (bleve_Document (ok_document senv (hit_ID hit)) (hit_ID hit));
      match r with
      | None => Ret Crashed
      | Some (Err e) =>
          logf "Warning: failed to retrieve document %s from index: %v"
               [ArgStr (hit_ID hit); ArgErr e];;
          Ret Skipped
      | Some (Ok None) => Ret Crashed
      | Some (Ok (Some storedDoc)) =>
          logf "DEBUG: Retrieved document %s" [ArgStr (hit_ID hit)];;
          Ret (Found (fromIndex (hit_ID hit) storedDoc))
      end
  end.

(** The loop over the hits; [None] when an iteration panics. *)
Fixpoint hitsLoop (senv : SearchEnv) (req : SearchRequest) (hits : list Hit)
    (results : list SearchResult) : Prog (option (list SearchResult)) :=
  match hits with
  | [] => Ret (Some results)
  | hit :: rest =>
      d ← resolveHit senv hit;
      match d with
      | Crashed => Ret None
      | Skipped => hitsLoop senv req rest results
      | Found doc =>
          if passesFilters req doc then
            snippetLength ← get (fun st => se_snippetLength (engine st));
            match extractSnippet snippetLength (doc_Content doc),
                  extractContext (doc_Content doc) with
            | Some snippet, Some context =>
                hitsLoop senv req rest
                  (results ++ [mkSearchResult doc (hit_Score hit) snippet context])
            | _, _ => Ret None
            end
          else hitsLoop senv req rest results
      end
  end.

(** [Search] between the read lock and the deferred unlock. *)
Definition Search_locked (senv : SearchEnv) (req : SearchRequest) : Prog SearchOutcome :=
  logf "DEBUG: Built match query" [];;
  let limit := effectiveLimit req in
  logf "DEBUG: About to execute search in context" [];;
  r ← act (SearchInContext (ok_search senv) (req_Query req) limit);
  match r with
  | None => Ret Panic
  | Some (Err e) =>
      logf "DEBUG: Search failed: %v" [ArgErr e];;
      Ret (SearchError (Errorf "search failed" e))
  | Some (Ok (hits, total)) =>
      logf "DEBUG: Search complete, found %d hits" [ArgInt (Z.of_nat (length hits))];;
      results ← hitsLoop senv req hits [];
      match results with
      | None => Ret Panic
      | Some results =>
          Ret (Response {| resp_Results := results;
                           resp_Total := total;
                           resp_Query := req_Query req;
                           resp_Duration := search_elapsed senv |})
      end
  end.

Definition Search (senv : SearchEnv) (req : SearchRequest) : Prog SearchOutcome :=
  logf "DEBUG: Search called for query: %s" [ArgStr (req_Query req)];;
  sync RLock;;
  logf "DEBUG: Acquired read lock" [];;
  r ← Search_locked senv req;
  sync RUnlock;;
  logf "DEBUG: Released read lock" [];;
  Ret r.

End QueryEngine.

(** The copy loops of [GetTaxonomy]: every entry of the engine's map is
    stored in a new map. *)
Definition copyMap (m : gmap string bool) : gmap string bool :=
  map_fold (fun k v copy => <[k := v]> copy) ∅ m.

Definition GetTaxonomy : Prog ContentTaxonomy :=
  sync RLock;;
  t ← get (fun st => se_taxonomy (engine st));
  let taxonomy := {| tax_Versions := copyMap (tax_Versions t);
                     tax_Sections := copyMap (tax_Sections t);
                     tax_Platforms := copyMap (tax_Platforms t);
                     tax_Tags := copyMap (tax_Tags t) |} in
  sync RUnlock;;
  Ret taxonomy.

(** ** GetTaxonomy on the heap

    A Go map is a reference: two variables may name the same map, and a
    store through one is seen through the other.  To say that the value
    [GetTaxonomy] returns shares nothing with the engine, the taxonomy is
    modelled here as the objects it is made of: a [ContentTaxonomy] struct
    holding four references to maps. *)
Module Heap.

Definition loc := positive.

Record TaxonomyStruct := mkStruct {
  ref_Versions : loc;
  ref_Sections : loc;
  ref_Platforms : loc;
  ref_Tags : loc
}.

Record heap := mkHeap {
  structs : gmap loc TaxonomyStruct;
  maps : gmap loc (gmap string bool)
}.

(** [make(map[string]bool)] *)
Definition make_map (h : heap) : loc * heap :=
  let l := fresh (dom (maps h)) in
  (l, mkHeap (structs h) (<[l := ∅]> (maps h))).

(** [&ContentTaxonomy{...}] *)
Definition new_struct (s : TaxonomyStruct) (h : heap) : loc * heap :=
  let l := fresh (dom (structs h)) in
  (l, mkHeap (<[l := s]> (structs h)) (maps h)).

(** [m[k] = v] for the map at [l] *)
Definition store (l : loc) (k : string) (v : bool) (h : heap) : heap :=
  mkHeap (structs h) (alter (fun m => <[k := v]> m) l (maps h)).

(** [delete(m, k)] for the map at [l] *)
Definition remove (l : loc) (k : string) (h : heap) : heap :=
  mkHeap (structs h) (alter (fun m => delete k m) l (maps h)).

(** [for k, v := range src { dst[k] = v }] *)
Definition copy_entries (src dst : loc) (h : heap) : heap :=
  match maps h !! src with
  | Some m => map_fold (fun k v h' => store dst k v h') h m
  | None => h
  end.

(** [GetTaxonomy] for an engine whose [se.taxonomy] is the pointer [p];
    the pointer returned and the heap after the call. *)
Definition GetTaxonomy (p : loc) (h : heap) : option (loc * heap) :=
  match structs h !! p with
  | None => None
  | Some src =>
      let '(versions, h) := make_map h in
      let '(sections, h) := make_map h in
      let '(platforms, h) := make_map h in
      let '(tags, h) := make_map h in
      let '(taxonomy, h) := new_struct (mkStruct versions sections platforms tags) h in
      let h := copy_entries (ref_Versions src) versions h in
      let h := copy_entries (ref_Sections src) sections h in
      let h := copy_entries (ref_Platforms src) platforms h in
      let h := copy_entries (ref_Tags src) tags h in
      Some (taxonomy, h)
  end.

(** The taxonomy a pointer stands for. *)
Definition view (h : heap) (p : loc) : option ContentTaxonomy :=
  s ← structs h !! p;
  versions ← maps h !! ref_Versions s;
  sections ← maps h !! ref_Sections s;
  platforms ← maps h !! ref_Platforms s;
  tags ← maps h !! ref_Tags s;
  Some (mkTaxonomy versions sections platforms tags).

Inductive Facet := Versions | Sections | Platforms | Tags.

Definition field (f : Facet) (s : TaxonomyStruct) : loc :=
  match f with
  | Versions => ref_Versions s
  | Sections => ref_Sections s
  | Platforms => ref_Platforms s
  | Tags => ref_Tags s
  end.

Definition set_field (f : Facet) (l : loc) (s : TaxonomyStruct) : TaxonomyStruct :=
  match f with
  | Versions => mkStruct l (ref_Sections s) (ref_Platforms s) (ref_Tags s)
  | Sections => mkStruct (ref_Versions s) l (ref_Platforms s) (ref_Tags s)
  | Platforms => mkStruct (ref_Versions s) (ref_Sections s) l (ref_Tags s)
  | Tags => mkStruct (ref_Versions s) (ref_Sections s) (ref_Platforms s) l
  end.

(** What a caller can do to a taxonomy [t] it holds: [t.F[k] = v],
    [delete(t.F, k)] and [t.F = make(map[string]bool)]. *)
Inductive Mutation :=
| SetKey (f : Facet) (k : string) (v : bool)
| DeleteKey (f : Facet) (k : string)
| Renew (f : Facet).

Definition mutate (t : loc) (h : heap) (mu : Mutation) : heap :=
  match structs h !! t with
  | None => h
  | Some s =>
      match mu with
      | SetKey f k v => store (field f s) k v h
      | DeleteKey f k => remove (field f s) k h
      | Renew f =>
          let '(l, h) := make_map h in
          mkHeap (<[t := set_field f l s]> (structs h)) (maps h)
      end
  end.

(** Every object the heap [h] has is in [h'], unchanged. *)
Definition preserved (h h' : heap) : Prop :=
  (∀ l s, structs h !! l = Some s → structs h' !! l = Some s) ∧
  (∀ l m, maps h !! l = Some m → maps h' !! l = Some m).

(** The struct at [t] and the four maps it refers to are not objects of
    [h0]: they were allocated later. *)
Definition separate (h0 h : heap) (t : loc) : Prop :=
  structs h0 !! t = None ∧
  ∃ s, structs h !! t = Some s ∧ ∀ f, maps h0 !! field f s = None.

End Heap.

(** ** Interleaved calls

    The calls of several goroutines on one engine: each step is the next
    operation of one of them.  An operation of [se.mu] is taken only when
    the mutex allows it; the goroutine waits otherwise. *)
Module Concurrent.

Record Mutex := mkMutex { writer : bool; readers : nat }.

Definition free : Mutex := mkMutex false 0.

Definition mutex_step (op : MutexOp) (m : Mutex) : option Mutex :=
  match op with
  | Lock => if negb (writer m) && (readers m =? 0)%nat
            then Some (mkMutex true (readers m)) else None
  | Unlock => if writer m then Some (mkMutex false (readers m)) else None
  | RLock => if negb (writer m) then Some (mkMutex false (S (readers m))) else None
  | RUnlock => match readers m with
               | S n => Some (mkMutex (writer m) n)
               | O => None
               end
  end.

(** One operation of a goroutine: its remaining program, the state, the
    mutex and the lines it logs. *)
Definition thread_step {A : Type} (p : Prog A) (st : State) (mu : Mutex)
  : option (Prog A * State * Mutex * list LogEvent) :=
  match p with
  | Ret _ => None
  | Act op k => let '(r, st') := op st in Some (k r, st', mu, [])
  | Printf e k => Some (k, st, mu, [e])
  | Sync m k =>
      match mutex_step m mu with
      | Some mu' => Some (k, st, mu', [])
      | None => None
      end
  end.

(** One rebuild and any number of queries on a shared engine. *)
Record Config := mkConfig {
  shared : State;
  mu : Mutex;
  rebuild : Prog (Result unit);
  queries : list (Prog SearchOutcome);
  printed : list LogEvent
}.

Inductive step : Config → Config → Prop :=
| step_rebuild c p st m l :
    thread_step (rebuild c) (shared c) (mu c) = Some (p, st, m, l) →
    step c (mkConfig st m p (queries c) (printed c ++ l))
| step_query c i q p st m l :
    queries c !! i = Some q →
    thread_step q (shared c) (mu c) = Some (p, st, m, l) →
    step c (mkConfig st m (rebuild c) (<[i := p]> (queries c)) (printed c ++ l)).

Definition steps : Config → Config → Prop := rtc step.

(** One step of the goroutine named: [None] is the rebuild, [Some i] the
    query [i]; no result when that goroutine cannot move. *)
Definition exec1 (who : option nat) (c : Config) : option Config :=
  match who with
  | None =>
      match thread_step (rebuild c) (shared c) (mu c) with
      | Some (p, st, m, l) => Some (mkConfig st m p (queries c) (printed c ++ l))
      | None => None
      end
  | Some i =>
      match queries c !! i with
      | Some q =>
          match thread_step q (shared c) (mu c) with
          | Some (p, st, m, l) =>
              Some (mkConfig st m (rebuild c) (<[i := p]> (queries c)) (printed c ++ l))
          | None => None
          end
      | None => None
      end
  end.

(** Lets one goroutine run until it cannot move, [fuel] steps at most. *)
Fixpoint drive (who : option nat) (fuel : nat) (c : Config) : Config :=
  match fuel with
  | O => c
  | S fuel' =>
      match exec1 who c with
      | Some c' => drive who fuel' c'
      | None => c
      end
  end.

(** The shapes of a program around its critical section.  [settled]: after
    the release, only log lines remain.  [critical]: inside, up to the
    release; with [readonly], no operation changes the state.
    [entering]: before the acquire. *)
Inductive settled {A : Type} : Prog A → Prop :=
| settled_ret a : settled (Ret a)
| settled_printf e k : settled k → settled (Printf e k).

Inductive critical {A : Type} (readonly : bool) (release : MutexOp) : Prog A → Prop :=
| critical_release k : settled k → critical readonly release (Sync release k)
| critical_printf e k :
    critical readonly release k → critical readonly release (Printf e k)
| critical_act {R : Type} (op : State → R * State) k :
    (readonly = true → ∀ st, (op st).2 = st) →
    (∀ r, critical readonly release (k r)) →
    critical readonly release (Act op k).

Inductive entering {A : Type} (readonly : bool) (acquire release : MutexOp)
  : Prog A → Prop :=
| entering_acquire k :
    critical readonly release k → entering readonly acquire release (Sync acquire k)
| entering_printf e k :
    entering readonly acquire release k →
    entering readonly acquire release (Printf e k).

(** A program without operations of the mutex; with [readonly], without
    operations that change the state. *)
Inductive quiet {A : Type} (readonly : bool) : Prog A → Prop :=
| quiet_ret a : quiet readonly (Ret a)
| quiet_printf e k : quiet readonly k → quiet readonly (Printf e k)
| quiet_act {R : Type} (op : State → R * State) k :
    (readonly = true → ∀ st, (op st).2 = st) →
    (∀ r, quiet readonly (k r)) →
    quiet readonly (Act op k).

End Concurrent.

(** ** The scenarios of the specification, as data *)
Module Scenario.

(** One tab "Talos" with version "v1.8", group "Guides", page "install". *)
Definition manifest : DocsNavigation :=
  mkDocsNavigation "" "" ""
    (mkNavigationTabs
       [mkTab "Talos" "" [mkVersion "v1.8" [mkGroup "Guides" [ItemString "install"]]]]).

Definition install_md : string :=
  "# Installing" +:+ String Fetcher.newline "Run the installer.".

(** A checkout under /repo whose only file is public/install.md. *)
Definition checkout : Fetcher.FileSystem :=
  {| Fetcher.os_Stat := fun p =>
       if decide (p = "/repo/public/install.md") then Fetcher.StatOk 42
       else Fetcher.StatNotExist;
     Fetcher.os_ReadFile := fun p =>
       if decide (p = "/repo/public/install.md") then Some install_md else None |}.

Definition fetcher : Fetcher.DocumentationFetcher :=
  {| Fetcher.localPath := "/repo"; Fetcher.disk := checkout; Fetcher.time_Now := 0 |}.

(** An empty checkout. *)
Definition nothing : Fetcher.FileSystem :=
  {| Fetcher.os_Stat := fun _ => Fetcher.StatNotExist;
     Fetcher.os_ReadFile := fun _ => None |}.

Definition fetcher_nothing : Fetcher.DocumentationFetcher :=
  {| Fetcher.localPath := "/repo"; Fetcher.disk := nothing; Fetcher.time_Now := 0 |}.

(** An environment in which nothing fails. *)
Definition allOk : Env :=
  mkEnv true true true (fun _ => true) true true true true true 0.

Definition initOk : InitEnv := mkInitEnv true true true true true true.

Definition searchOk : SearchEnv := mkSearchEnv true (fun _ => true) 0.

Definition emptyDisk : Disk := mkDisk Absent Absent Absent.

(** The engine [NewSearchEngine] makes on an empty index directory. *)
Definition fresh : State :=
  state_of (run (NewSearchEngine_prog initOk)
              (mkState (mkSearchEngine None None "/idx" ∅ emptyTaxonomy 20 300) emptyDisk)).

Definition guide17 : Document :=
  {| doc_ID := "v1.7-guides-install";
     doc_Title := "Installing";
     doc_Content := "Run the installer.";
     doc_Path := "install";
     doc_Version := "v1.7";
     doc_Section := "Guides";
     doc_Platform := "";
     doc_Tags := ["install"];
     doc_LastUpdated := 42;
     doc_Metadata := ∅ |}.

Definition guide18 : Document :=
  {| doc_ID := "v1.8-guides-install";
     doc_Title := "Installing";
     doc_Content := install_md;
     doc_Path := "install";
     doc_Version := "v1.8";
     doc_Section := "Guides";
     doc_Platform := "";
     doc_Tags := ["install"];
     doc_LastUpdated := 42;
     doc_Metadata := ∅ |}.

Definition aws18 : Document :=
  {| doc_ID := "v1.8-platforms-aws";
     doc_Title := "AWS";
     doc_Content := "Run the installer on AWS.";
     doc_Path := "platforms/aws";
     doc_Version := "v1.8";
     doc_Section := "Platforms";
     doc_Platform := "aws";
     doc_Tags := ["platforms"; "aws"; "api"];
     doc_LastUpdated := 43;
     doc_Metadata := ∅ |}.

Definition three : list Document := [guide17; guide18; aws18].

(** A stand-in for bleve's ranking: the documents whose content has the
    query as a substring, whatever the case, in the order of the map. *)
Definition substringMatch (m : gmap string StoredDoc) (query : string) : list Hit :=
  (fun entry => mkHit entry.1 1)
    <$> List.filter
          (fun entry => Strings.Contains (Strings.ToLower (st_content entry.2))
                                         (Strings.ToLower query))
          (map_to_list m).

(** The engine after a rebuild with the three documents. *)
Definition serving : State := state_of (run (IndexDocuments allOk three) fresh).

(** A page of 10010 bytes. *)
Fixpoint repeatString (n : nat) (s : string) : string :=
  match n with
  | O => ""
  | S n' => s +:+ repeatString n' s
  end.

Definition longPage : Document :=
  {| doc_ID := "v1.8-reference-long";
     doc_Title := "Long";
     doc_Content := repeatString 1001 "0123456789";
     doc_Path := "reference/long";
     doc_Version := "v1.8";
     doc_Section := "Reference";
     doc_Platform := "";
     doc_Tags := ["reference"; "long"];
     doc_LastUpdated := 44;
     doc_Metadata := ∅ |}.

(** Seven short pages that all mention the installer. *)
Definition page (n : string) : Document :=
  {| doc_ID := "v1.8-pages-" +:+ n;
     doc_Title := n;
     doc_Content := "The installer, page " +:+ n;
     doc_Path := "pages/" +:+ n;
     doc_Version := "v1.8";
     doc_Section := "Pages";
     doc_Platform := "";
     doc_Tags := ["pages"; n];
     doc_LastUpdated := 45;
     doc_Metadata := ∅ |}.

Definition seven : list Document := page <$> ["a"; "b"; "c"; "d"; "e"; "f"; "g"].

Definition servingLong : State :=
  state_of (run (IndexDocuments allOk [longPage]) fresh).

Definition servingSeven : State :=
  state_of (run (IndexDocuments allOk seven) fresh).

Definition responseOf (o : SearchOutcome) : SearchResponse :=
  match o with
  | Response r => r
  | _ => mkSearchResponse [] 0 "" 0
  end.

Definition firstResult (r : SearchResponse) : SearchResult :=
  match resp_Results r with
  | res :: _ => res
  | [] => mkSearchResult guide18 0 "" ""
  end.

(** The response to a query for "0123" on the engine that serves the
    long page. *)
Definition longResponse : SearchResponse :=
  responseOf (result_of (run (Search substringMatch searchOk
                                (mkSearchRequest "0123" "" "" "" [] 0))
                           servingLong)).

(** A heap on which a taxonomy lives at the pointer 1. *)
Definition heapOf (t : ContentTaxonomy) : Heap.heap :=
  Heap.mkHeap {[1%positive := Heap.mkStruct 1%positive 2%positive 3%positive 4%positive]}
    (<[1%positive := tax_Versions t]>
       (<[2%positive := tax_Sections t]>
          (<[3%positive := tax_Platforms t]>
             (<[4%positive := tax_Tags t]> ∅)))).

Definition meddling : list Heap.Mutation :=
  [Heap.SetKey Heap.Versions "v9.9" true;
   Heap.DeleteKey Heap.Tags "install";
   Heap.Renew Heap.Sections;
   Heap.SetKey Heap.Sections "Guides" false].

Definition installerQuery : SearchRequest :=
  mkSearchRequest "installer" "" "" "" [] 0.

(** One rebuild and one query for "installer", both about to start on
    the engine that serves the three documents. *)
Definition race (env : Env) (docs : list Document) : Concurrent.Config :=
  Concurrent.mkConfig serving Concurrent.free (IndexDocuments env docs)
    [Search substringMatch searchOk installerQuery] [].

(** The interleaving in which the rebuild runs to its end before the
    query starts. *)
Definition rebuildThenQuery (env : Env) (docs : list Document) : Concurrent.Config :=
  Concurrent.drive (Some 0%nat) 1000 (Concurrent.drive None 1000 (race env docs)).

(** The interleaving in which the query takes the read lock first: the
    rebuild then waits at its lock until the query has returned. *)
Definition queryThenRebuild (env : Env) (docs : list Document) : Concurrent.Config :=
  Concurrent.drive None 1000
    (Concurrent.drive (Some 0%nat) 1000
       (Concurrent.drive None 1000
          (Concurrent.drive (Some 0%nat) 3 (race env docs)))).

(** The interleaving in which the query starts while the rebuild holds
    the lock, waits at the read lock, and goes on when the rebuild has
    released it. *)
Definition queryDuringRebuild (env : Env) (docs : list Document) : Concurrent.Config :=
  Concurrent.drive (Some 0%nat) 1000
    (Concurrent.drive None 1000
       (Concurrent.drive (Some 0%nat) 1000
          (Concurrent.drive None 5 (race env docs)))).

(** The same engine after its active directory was lost. *)
Definition lostActive : State := with_files (place Active Absent) serving.

(** An environment in which the move of staging to active fails. *)
Definition noMove : Env :=
  mkEnv true true true (fun _ => true) true true false true true 0.

(** An environment in which only the move of the active generation to
    the backup location fails. *)
Definition noBackup : Env :=
  mkEnv true true true (fun _ => true) true false true true true 0.

End Scenario.

(** ** Notions the properties are stated with *)

(** The content [Search] starts from for a hit: that of the in-memory
    document of that id, else the content stored in the active index. *)
Definition sourceContent (st : State) (id : string) : option string :=
  match se_documents (engine st) !! id with
  | Some doc => Some (doc_Content doc)
  | None =>
      match se_activeIndex (engine st) with
      | Some h =>
          match index_data h st with
          | Ok m => st_content <$> m !! id
          | Err _ => None
          end
      | None => None
      end
  end.

(** The document [Search] makes of a hit. *)
Definition resolvedFrom (st : State) (hit : Hit) (doc : Document) : Prop :=
  match se_documents (engine st) !! hit_ID hit with
  | Some d => doc = fromMemory d
  | None =>
      ∃ h m sd, se_activeIndex (engine st) = Some h ∧ index_data h st = Ok m
                ∧ m !! hit_ID hit = Some sd ∧ doc = fromIndex (hit_ID hit) sd
  end.

(** The matches of a query in the active index, before any filter. *)
Definition activeMatches (bleveMatch : gmap string StoredDoc → string → list Hit)
    (st : State) (query : string) : option (list Hit) :=
  match se_activeIndex (engine st) with
  | Some h =>
      match index_data h st with
      | Ok m => Some (bleveMatch m query)
      | Err _ => None
      end
  | None => None
  end.

(** What the loop of [Search] guarantees of a result it appends, for the
    hits it went through: the document passed the filters, and it is what
    [Search] makes of one of the hits, with that hit's score. *)
Definition goodResult (req : SearchRequest) (st : State) (hits : list Hit)
    (res : SearchResult) : Prop :=
  passesFilters req (res_Document res) = true
  ∧ ∃ hit, hit ∈ hits ∧ res_Score res = hit_Score hit
           ∧ resolvedFrom st hit (res_Document res).

(** The documents of a list that [index.Index] accepts, from position [i]
    on: the environment lets the call through and the id is not empty. *)
Fixpoint indexedFrom (ok : nat → bool) (i : nat) (documents : list Document)
  : list Document :=
  match documents with
  | [] => []
  | doc :: rest =>
      if ok i && bool_decide (doc_ID doc ≠ "")
      then doc :: indexedFrom ok (S i) rest
      else indexedFrom ok (S i) rest
  end.

Definition indexed (env : Env) (documents : list Document) : list Document :=
  indexedFrom (ok_index env) 0 documents.

(** A taxonomy, a cache and an index after the documents of a list went
    in, one after the other. *)
Definition taxonomyWith (t : ContentTaxonomy) (docs : list Document) : ContentTaxonomy :=
  foldl (fun t doc => updateTaxonomy doc t) t docs.

Definition cacheWith (m : gmap string Document) (docs : list Document)
  : gmap string Document :=
  foldl (fun m doc => <[doc_ID doc := doc]> m) m docs.

Definition indexWith (m : gmap string StoredDoc) (docs : list Document)
  : gmap string StoredDoc :=
  foldl (fun m doc => <[doc_ID doc := stored doc]> m) m docs.

(** The state after the loop of [IndexDocuments] indexed [docs] into a
    staging index that held [m]. *)
Definition afterIndexing (docs : list Document) (m : gmap string StoredDoc) (st : State)
  : State :=
  mkState
    (set_documents (cacheWith (se_documents (engine st)) docs)
       (set_taxonomy (taxonomyWith (se_taxonomy (engine st)) docs) (engine st)))
    (place Staging (IndexDir (indexWith m docs)) (files st)).

(** The state in which a rebuild reaches the swap: the staging handle is
    the new one, the staging location holds the documents that were
    accepted, the cache and the taxonomy have them too, and the active and
    the backup location are as the rebuild found them. *)
Definition atSwap (env : Env) (docs : list Document) (st : State) : State :=
  afterIndexing (indexed env docs) ∅
    (mkState (set_stagingIndex (Some (mkHandle Staging true)) (engine st))
       (place Staging (IndexDir ∅) (files st))).

(** The facets of a document list, in the words of the specification: the
    distinct non-empty versions, sections and platforms, and the tags. *)
Definition truths (keys : list string) : gmap string bool :=
  gset_to_gmap true (list_to_set keys).

Definition nonempty (s : string) : bool := bool_decide (s ≠ "").

Definition facets (docs : list Document) : ContentTaxonomy :=
  {| tax_Versions := truths (List.filter nonempty (doc_Version <$> docs));
     tax_Sections := truths (List.filter nonempty (doc_Section <$> docs));
     tax_Platforms := truths (List.filter nonempty (doc_Platform <$> docs));
     tax_Tags := truths (docs ≫= doc_Tags) |}.

Definition unionTaxonomy (t1 t2 : ContentTaxonomy) : ContentTaxonomy :=
  {| tax_Versions := tax_Versions t1 ∪ tax_Versions t2;
     tax_Sections := tax_Sections t1 ∪ tax_Sections t2;
     tax_Platforms := tax_Platforms t1 ∪ tax_Platforms t2;
     tax_Tags := tax_Tags t1 ∪ tax_Tags t2 |}.

(** [DocCount] of the active generation. *)
Definition activeDocCount (st : State) : option Z :=
  match se_activeIndex (engine st) with
  | Some h => match DocCount h st with Ok n => Some n | Err _ => None end
  | None => None
  end.


(** Step (3) of the swap, on the index directory as steps (1) and (2)
    leave it, and step (4) after it: the result and the directory. *)
Definition backupStep (env : Env) (st : State) : Result unit * State :=
  os_Rename (ok_renameActive env) Active Backup
    (os_RemoveAll (ok_removeBackup env) Backup st).2.

Definition promoteStep (env : Env) (st : State) : Result unit * State :=
  os_Rename (ok_renameStaging env) Staging Active (backupStep env st).2.

(** What a successful rebuild leaves. *)
Record Rebuilt (env : Env) (docs : list Document) (st st' : State) : Prop := {
  rebuilt_taxonomy :
    se_taxonomy (engine st') = taxonomyWith (se_taxonomy (engine st)) (indexed env docs);
  rebuilt_documents :
    se_documents (engine st') = cacheWith (se_documents (engine st)) (indexed env docs);
  rebuilt_activeIndex : se_activeIndex (engine st') = Some (mkHandle Active true);
  rebuilt_stagingIndex : se_stagingIndex (engine st') = Some (mkHandle Staging true);
  rebuilt_active : at_active (files st') = IndexDir (indexWith ∅ (indexed env docs));
  rebuilt_staging : at_staging (files st') = IndexDir ∅;
  rebuilt_snippetLength : se_snippetLength (engine st') = se_snippetLength (engine st)
}.

(** ** The invariant of an interleaving

    For a rebuild that starts in the state [st0] and, run alone, ends in
    [st1]: where the rebuild is, and where each query is, relative to the
    critical sections. *)
Module Invariant.

Import Concurrent.

Inductive writer_inv (st0 st1 : State) (c : Config) : Prop :=
| writer_waiting :
    entering false Lock Unlock (rebuild c) →
    shared c = st0 →
    state_of (run (rebuild c) st0) = st1 →
    writer (mu c) = false →
    writer_inv st0 st1 c
| writer_inside :
    critical false Unlock (rebuild c) →
    state_of (run (rebuild c) (shared c)) = st1 →
    writer (mu c) = true →
    readers (mu c) = 0%nat →
    writer_inv st0 st1 c
| writer_done :
    settled (rebuild c) →
    shared c = st1 →
    writer (mu c) = false →
    writer_inv st0 st1 c.

(** A query [p] that started as [R], in the shared state [s]; the flag
    says whether it holds the read lock. *)
Inductive reader_inv (st0 st1 s : State) (R p : Prog SearchOutcome) : bool → Prop :=
| reader_waiting :
    entering true RLock RUnlock p →
    (∀ st, result_of (run p st) = result_of (run R st)) →
    reader_inv st0 st1 s R p false
| reader_inside :
    critical true RUnlock p →
    s = st0 ∨ s = st1 →
    result_of (run p s) = result_of (run R s) →
    reader_inv st0 st1 s R p true
| reader_done :
    settled p →
    result_of (run p s) = result_of (run R st0)
    ∨ result_of (run p s) = result_of (run R st1) →
    reader_inv st0 st1 s R p false.

Fixpoint count_true (flags : list bool) : nat :=
  match flags with
  | [] => O
  | true :: rest => S (count_true rest)
  | false :: rest => count_true rest
  end.

Definition inv (st0 st1 : State) (Rs : list (Prog SearchOutcome)) (c : Config) : Prop :=
  writer_inv st0 st1 c
  ∧ ∃ flags : list bool,
      length flags = length Rs
      ∧ length (queries c) = length Rs
      ∧ readers (mu c) = count_true flags
      ∧ ∀ i R p b,
          Rs !! i = Some R → queries c !! i = Some p → flags !! i = Some b →
          reader_inv st0 st1 (shared c) R p b.

End Invariant.

(** ** search.go: the remaining accessors *)

Definition GetDocument (id : string) : Prog (option Document) :=
  sync RLock;;
  doc ← get (fun st => se_documents (engine st) !! id);
  sync RUnlock;;
  Ret doc.

(** The counts [GetStats] reports; the value of [se.activeIndex.Stats()],
    which it adds when it is not nil, is left out.  [None] is the panic of
    that call on a nil [activeIndex]; the deferred unlock runs all the
    same. *)
Record Stats := mkStats {
  total_documents : Z;
  stat_versions : Z;
  stat_sections : Z;
  stat_platforms : Z;
  stat_tags : Z
}.

Definition GetStats : Prog (option Stats) :=
  sync RLock;;
  se ← get engine;
  let stats := {| total_documents := Z.of_nat (size (se_documents se));
                  stat_versions := Z.of_nat (size (tax_Versions (se_taxonomy se)));
                  stat_sections := Z.of_nat (size (tax_Sections (se_taxonomy se)));
                  stat_platforms := Z.of_nat (size (tax_Platforms (se_taxonomy se)));
                  stat_tags := Z.of_nat (size (tax_Tags (se_taxonomy se))) |} in
  match se_activeIndex se with
  | None => sync RUnlock;; Ret None
  | Some _ => sync RUnlock;; Ret (Some stats)
  end.

(** [EnsureIndicesOpen]: the environment's verdicts per call site. *)
Record EnsureEnv := mkEnsureEnv {
  ok_ensureOpen : bool;
  ok_ensureCreate : bool;
  ok_removeCorrupted : bool;
  ok_ensureRecreate : bool;
  ok_ensureRemoveStaging : bool;
  ok_ensureNewStaging : bool
}.

Definition bothOpen (st : State) : bool :=
  match se_activeIndex (engine st), se_stagingIndex (engine st) with
  | Some _, Some _ => true
  | _, _ => false
  end.

(** The part of [EnsureIndicesOpen] that opens or creates the active
    index, for an engine whose [activeIndex] is nil. *)
Definition ensureActive (eenv : EnsureEnv) : Prog (Result unit) :=
  r ← act (bleve_Open (ok_ensureOpen eenv) Active);
  match r with
  | Err ErrorIndexPathDoesNotExist =>
      logf "No existing index found, will create on first indexing" [];;
      r ← act (bleve_New (ok_ensureCreate eenv) Active);
      match r with
      | Err e => Ret (Err (Errorf "failed to create search index" e))
      | Ok activeIndex =>
          modify (with_engine (set_activeIndex (Some activeIndex)));;
          Ret (Ok tt)
      end
  | Err e =>
      logf "Warning: failed to open existing index: %v" [ArgErr e];;
      logf "Removing corrupted index and creating new one..." [];;
      r ← act (os_RemoveAll (ok_removeCorrupted eenv) Active);
      match r with
      | Err e => Ret (Err (Errorf "failed to remove corrupted index" e))
      | Ok _ =>
          r ← act (bleve_New (ok_ensureRecreate eenv) Active);
          match r with
          | Err e => Ret (Err (Errorf "failed to create search index" e))
          | Ok activeIndex =>
              modify (with_engine (set_activeIndex (Some activeIndex)));;
              Ret (Ok tt)
          end
      end
  | Ok activeIndex =>
      indexPath ← get (fun st => se_indexPath (engine st));
      logf "Opened existing search index at %s"
           [ArgStr (Filepath.Join [indexPath; "active"])];;
      docCount ← get (DocCount activeIndex);
      (match docCount with
       | Ok n => if 0 <? n
                 then logf "Found %d documents in existing index" [ArgInt n]
                 else Ret tt
       | Err _ => Ret tt
       end);;
      modify (with_engine (set_activeIndex (Some activeIndex)));;
      Ret (Ok tt)
  end.

Definition ensureStaging (eenv : EnsureEnv) : Prog (Result unit) :=
  r ← act (os_RemoveAll (ok_ensureRemoveStaging eenv) Staging);
  (match r with
   | Err e => logf "Warning: failed to remove staging index: %v" [ArgErr e]
   | Ok _ => Ret tt
   end);;
  r ← act (bleve_New (ok_ensureNewStaging eenv) Staging);
  match r with
  | Err e => Ret (Err (Errorf "failed to create staging index" e))
  | Ok stagingIndex =>
      modify (with_engine (set_stagingIndex (Some stagingIndex)));;
      Ret (Ok tt)
  end.

(** [EnsureIndicesOpen] under the write lock. *)
Definition EnsureIndicesOpen_locked (eenv : EnsureEnv) : Prog (Result unit) :=
  ready ← get bothOpen;
  if (ready : bool) then Ret (Ok tt)
  else
    logf "Opening bleve indices..." [];;
    a ← get (fun st => se_activeIndex (engine st));
    r ← (match a with None => ensureActive eenv | Some _ => Ret (Ok tt) end);
    match r with
    | Err e => Ret (Err e)
    | Ok _ =>
        s ← get (fun st => se_stagingIndex (engine st));
        r ← (match s with None => ensureStaging eenv | Some _ => Ret (Ok tt) end);
        match r with
        | Err e => Ret (Err e)
        | Ok _ =>
            logf "Bleve indices opened successfully" [];;
            Ret (Ok tt)
        end
    end.

Definition EnsureIndicesOpen (eenv : EnsureEnv) : Prog (Result unit) :=
  sync RLock;;
  ready ← get bothOpen;
  sync RUnlock;;
  if (ready : bool) then Ret (Ok tt)
  else
    sync Lock;;
    r ← EnsureIndicesOpen_locked eenv;
    sync Unlock;;
    Ret r.

(** ** main.go: helpers of the handlers

    A [range] over a Go map yields its keys in an order the language does
    not fix; the order is a parameter here, any arrangement of the keys. *)

Definition rangeOf {V : Type} (m : gmap string V) (order : list string) : Prop :=
  order ≡ₚ (map_to_list m).*1.

(** [version > latest] on Go strings: bytewise, lexicographic. *)
Definition getLatestVersion (versions : gmap string bool) (order : list string) : string :=
  if decide (size versions = 0%nat) then "latest"
  else foldl (fun latest version =>
                if String.ltb latest version then version else latest)
             "" order.

Definition getSortedVersions (versions : gmap string bool) (order : list string)
  : list string :=
  foldl (fun sorted version => sorted ++ [version]) [] order.

Definition titleSet (results : list SearchResult) : gmap string bool :=
  foldl (fun titles result => <[doc_Title (res_Document result) := true]> titles)
        ∅ results.

(** [compareDocuments]; [orderTo] and [orderFrom] are the orders in which
    the two title maps are ranged over. *)
Definition compareDocuments (fromResults toResults : list SearchResult)
    (orderTo orderFrom : list string) : list string :=
  let fromTitles := titleSet fromResults in
  let toTitles := titleSet toResults in
  let changes :=
    foldl (fun changes title =>
             if negb (default false (fromTitles !! title))
             then changes ++ ["NEW: " +:+ title] else changes)
          [] orderTo in
  foldl (fun changes title =>
           if negb (default false (toTitles !! title))
           then changes ++ ["REMOVED: " +:+ title] else changes)
        changes orderFrom.

(** Errors of the server: [fmt.Errorf] with and without a cause. *)
Inductive ServerError :=
| ServerErrorf (msg : string)
| ServerWrap (msg : string) (cause : error).

Inductive InitOutcome :=
| Initialized
| InitError (e : ServerError)
| InitPanic.

(** [initializeDocuments] from "Building fresh index..." on; [nav] is what
    [GetNavigation] returns: the decoded docs.json, or the error of reading
    or decoding it. *)
Definition buildFreshIndex (df : Fetcher.DocumentationFetcher)
    (nav : Result DocsNavigation) (env : Env) : Prog InitOutcome :=
  logf "Building fresh index..." [];;
  match nav with
  | Err e => Ret (InitError (ServerWrap "failed to get navigation" e))
  | Ok nav =>
      match Fetcher.ExtractDocuments df nav with
      | (_, Some _) => Ret (InitError (ServerErrorf "failed to extract documents"))
      | (documents, None) =>
          if (length documents =? 0)%nat
          then Ret (InitError (ServerErrorf "no documents found"))
          else
            r ← IndexDocuments env documents;
            match r with
            | Err e => Ret (InitError (ServerWrap "failed to index documents" e))
            | Ok _ =>
                logf "Initialized with %d documents" [ArgInt (Z.of_nat (length documents))];;
                Ret Initialized
            end
      end
  end.

(** [initializeDocuments]; it reads [activeIndex] without taking [se.mu],
    and panics when it is nil. *)
Definition initializeDocuments (df : Fetcher.DocumentationFetcher)
    (nav : Result DocsNavigation) (env : Env) : Prog InitOutcome :=
  a ← get (fun st => se_activeIndex (engine st));
  match a with
  | None => Ret InitPanic
  | Some activeIndex =>
      docCount ← get (DocCount activeIndex);
      match docCount with
      | Ok n =>
          if 0 <? n
          then logf "Using existing index with %d documents (skipping rebuild)" [ArgInt n];;
               Ret Initialized
          else buildFreshIndex df nav env
      | Err _ => buildFreshIndex df nav env
      end
  end.

(** ** What [Search] answers for one hit, in one piece *)

Definition resolved (senv : SearchEnv) (st : State) (hit : Hit) : Resolved :=
  match se_documents (engine st) !! hit_ID hit with
  | Some doc => Found (fromMemory doc)
  | None =>
      match (bleve_Document (ok_document senv (hit_ID hit)) (hit_ID hit) st).1 with
      | None => Crashed
      | Some (Err _) => Skipped
      | Some (Ok None) => Crashed
      | Some (Ok (Some storedDoc)) => Found (fromIndex (hit_ID hit) storedDoc)
      end
  end.

(** The result for a hit that is kept; nothing for a hit that is skipped,
    filtered out, or on which the loop panics. *)
Definition answer (senv : SearchEnv) (req : SearchRequest) (st : State) (hit : Hit)
  : option SearchResult :=
  match resolved senv st hit with
  | Found doc =>
      if passesFilters req doc then
        match extractSnippet (se_snippetLength (engine st)) (doc_Content doc),
              extractContext (doc_Content doc) with
        | Some snippet, Some context =>
            Some (mkSearchResult doc (hit_Score hit) snippet context)
        | _, _ => None
        end
      else None
  | _ => None
  end.

(** The loop panics on this hit. *)
Definition crashes (senv : SearchEnv) (req : SearchRequest) (st : State) (hit : Hit)
  : bool :=
  match resolved senv st hit with
  | Crashed => true
  | Skipped => false
  | Found doc =>
      passesFilters req doc
      && negb (bool_decide
                 (is_Some (extractSnippet (se_snippetLength (engine st)) (doc_Content doc))
                  ∧ is_Some (extractContext (doc_Content doc))))
  end.

(** A line the loop of [extractSnippet] stops at: not empty once trimmed,
    no heading, longer than 50 bytes. *)
Definition paragraphLine (line : string) : bool :=
  let line := Strings.TrimSpace line in
  bool_decide (line ≠ "") && negb (Strings.HasPrefix line "#") && (50 <? Strings.len line).

(** The data of the active index, as an open handle reads it. *)
Definition activeData (st : State) : option (gmap string StoredDoc) :=
  match se_activeIndex (engine st) with
  | Some h => match index_data h st with Ok m => Some m | Err _ => None end
  | None => None
  end.

(** The last document of a list with a given id. *)
Definition lastWithID (id : string) (docs : list Document) : option Document :=
  last (List.filter (fun doc => bool_decide (doc_ID doc = id)) docs).


(** ** fetcher.go: what a document that [ExtractDocuments] returns is made
    of, for the tab and the version it was found under *)
Definition wellExtracted (df : Fetcher.DocumentationFetcher) (tab version : string)
    (d : Document) : Prop :=
  doc_Version d = version
  ∧ doc_Metadata d !! "tab" = Some tab
  ∧ doc_Metadata d !! "file_path" = Some (Fetcher.resolvePath df (doc_Path d))
  ∧ doc_Content d ≠ ""
  ∧ Fetcher.os_ReadFile (Fetcher.disk df) (Fetcher.resolvePath df (doc_Path d))
    = Some (doc_Content d)
  ∧ doc_ID d = version +:+ "-" +:+ Strings.ToLower (doc_Section d) +:+ "-"
               +:+ Strings.ToLower (Filepath.Base (doc_Path d))
  ∧ doc_Platform d = Fetcher.extractPlatformFromPath (doc_Path d)
  ∧ doc_Title d = Fetcher.extractTitle (doc_Content d) (doc_Path d)
  ∧ doc_Tags d = Fetcher.extractTags (doc_Content d) (doc_Path d)
  ∧ doc_LastUpdated d = Fetcher.getFileModTime df (Fetcher.resolvePath df (doc_Path d)).

(** ** Data for the examples of this part *)
Module Examples.

(** A second version list that string comparison misorders. *)
Definition versions : gmap string bool :=
  <["v1.9" := true]> (<["v1.10" := true]> (<["v1.8" := true]> ∅)).

Definition nested : DocsNavigation :=
  mkDocsNavigation "" "" ""
    (mkNavigationTabs
       [mkTab "Kubernetes" "" [mkVersion "v1.8" [mkGroup "Guides" [ItemString "install"]]];
        mkTab "Talos" ""
          [mkVersion "v1.8"
             [mkGroup "Platforms"
                [ItemMap (Some "Cloud") (Some [ItemString "install"; ItemOther])]]]]).

(** Two documents with one id. *)
Definition older : Document :=
  mkDocument "v1.8-guides-install" "Old" "old text" "a/install" "v1.8" "Guides" ""
    ["a"; "install"] 1 ∅.

Definition newer : Document :=
  mkDocument "v1.8-guides-install" "New" "new text" "b/install" "v1.8" "Guides" ""
    ["b"; "install"] 2 ∅.


(** An environment in which the staging directory cannot be made. *)
Definition noMkdir : Env :=
  mkEnv true false true (fun _ => true) true true true true true 0.

(** The engine left by a rebuild whose swap failed. *)
Definition broken : State :=
  state_of (run (IndexDocuments Scenario.noMove Scenario.three) Scenario.serving).

(** The engine after a restart on the index directory of
    [Scenario.serving]: the index is there, the cache is not. *)
Definition restarted : State :=
  state_of (run (NewSearchEngine_prog Scenario.initOk)
              (mkState (mkSearchEngine None None "/idx" ∅ emptyTaxonomy 20 300)
                 (files Scenario.serving))).

Definition ensureOk : EnsureEnv := mkEnsureEnv true true true true true true.

(** An environment in which [bleve.Open] fails, for a reason of its own,
    and nothing else does. *)
Definition cannotOpen : EnsureEnv := mkEnsureEnv false true true true true true.

(** An engine without handles on the index directory of
    [Scenario.serving]. *)
Definition unopened : State :=
  mkState (mkSearchEngine None None "/idx" ∅ emptyTaxonomy 20 300)
    (files Scenario.serving).

Definition result (title : string) : SearchResult :=
  mkSearchResult (mkDocument title title "" "" "" "" "" [] 0 ∅) 0 "" "".

(** A search result for a document, as a first hit. *)
Definition firstHit (doc : Document) : SearchResult :=
  mkSearchResult doc 1 "" "".

End Examples.

(** * Properties of the Extractor *)

Lemma resolvePath_candidates df pagePath :
  (Fetcher.IsNotExist (Fetcher.os_Stat (Fetcher.disk df) (Fetcher.candidate df pagePath ".mdx")) = false
   ∧ Fetcher.resolvePath df pagePath = Fetcher.candidate df pagePath ".mdx")
  ∨ (Fetcher.IsNotExist (Fetcher.os_Stat (Fetcher.disk df) (Fetcher.candidate df pagePath ".mdx")) = true
     ∧ Fetcher.resolvePath df pagePath = Fetcher.candidate df pagePath ".md").
Proof.
  unfold Fetcher.resolvePath.
  destruct (Fetcher.IsNotExist _); [right | left]; done.
Qed.


(** C7: a flat page reference is resolved against the .mdx candidate, and
    against the .md candidate only when [os.Stat] reports the .mdx file
    missing; when neither candidate can be read, or the file settled on is
    empty, [extractDocument] returns nil, the page contributes no document
    and [ExtractDocuments] still returns a nil error. *)
Theorem extractDocument_drops_unresolved
    (df : Fetcher.DocumentationFetcher) (tab version groupName platform pagePath : string)
    (nav : DocsNavigation)
    (Hmissing :
       (Fetcher.os_ReadFile (Fetcher.disk df) (Fetcher.candidate df pagePath ".mdx") = None
        ∧ Fetcher.os_ReadFile (Fetcher.disk df) (Fetcher.candidate df pagePath ".md") = None)
       ∨ Fetcher.os_ReadFile (Fetcher.disk df) (Fetcher.resolvePath df pagePath) = Some "") :
  Fetcher.resolvePath df pagePath =
    (if Fetcher.IsNotExist (Fetcher.os_Stat (Fetcher.disk df) (Fetcher.candidate df pagePath ".mdx"))
     then Fetcher.candidate df pagePath ".md"
     else Fetcher.candidate df pagePath ".mdx")
  ∧ Fetcher.extractDocument df tab version groupName platform pagePath = None
  ∧ Fetcher.extractDocumentsFromGroup df tab version groupName platform [ItemString pagePath] = []
  ∧ (Fetcher.ExtractDocuments df nav).2 = None.
Proof.
  assert (Hnil : Fetcher.extractDocument df tab version groupName platform pagePath = None).
  { unfold Fetcher.extractDocument.
    destruct Hmissing as [[Hmdx Hmd] | Hempty].
    - destruct (resolvePath_candidates df pagePath) as [[_ ->] | [_ ->]].
      + by rewrite Hmdx.
      + by rewrite Hmd.
    - by rewrite Hempty. }
  split; [reflexivity |]. split; [exact Hnil |]. split; [| reflexivity].
  unfold Fetcher.extractDocumentsFromGroup. simpl. by rewrite Hnil.
Qed.

Lemma extractDocument_drops_unresolved_witness :
  Fetcher.extractDocument Scenario.fetcher_nothing "Talos" "v1.8" "Guides" "" "install" = None
  ∧ (Fetcher.ExtractDocuments Scenario.fetcher_nothing Scenario.manifest).2 = None.
Proof.
  pose proof (extractDocument_drops_unresolved Scenario.fetcher_nothing
                "Talos" "v1.8" "Guides" "" "install" Scenario.manifest) as H.
  destruct H as (_ & Hnil & _ & Herr).
  - left. split; reflexivity.
  - split; [exact Hnil | exact Herr].
Defined.

(** C8, as stated, fails: for the manifest and the file of the scenario the
    tags come from the page path "install" and the keyword list, never from
    the group name, so "guides" is not among them. *)
Lemma scenario_tags_lack_guides :
  ¬ ∃ d, (Fetcher.ExtractDocuments Scenario.fetcher Scenario.manifest).1 = [d]
         ∧ doc_ID d = "v1.8-guides-install"
         ∧ doc_Title d = "Installing"
         ∧ "guides" ∈ doc_Tags d ∧ "install" ∈ doc_Tags d.
Proof.
  intros (d & Hd & _ & _ & Hguides & _).
  vm_compute in Hd. injection Hd as <-. simpl in Hguides.
  apply list_elem_of_singleton in Hguides. discriminate Hguides.
Qed.

(** C8, amended: when only install.md backs the page, extraction yields
    exactly one document, with id "v1.8-guides-install", title "Installing"
    and the tag list ["install"]: it has "install" and not "guides". *)
Theorem scenario_extraction
    (df : Fetcher.DocumentationFetcher)
    (Hmdx : Fetcher.os_Stat (Fetcher.disk df) (Fetcher.candidate df "install" ".mdx")
            = Fetcher.StatNotExist)
    (Hmd : Fetcher.os_ReadFile (Fetcher.disk df) (Fetcher.candidate df "install" ".md")
           = Some Scenario.install_md) :
  ∃ d, (Fetcher.ExtractDocuments df Scenario.manifest).1 = [d]
       ∧ doc_ID d = "v1.8-guides-install"
       ∧ doc_Title d = "Installing"
       ∧ doc_Tags d = ["install"]
       ∧ "install" ∈ doc_Tags d ∧ "guides" ∉ doc_Tags d.
Proof.
  assert (Hpath : Fetcher.resolvePath df "install" = Fetcher.candidate df "install" ".md").
  { unfold Fetcher.resolvePath. by rewrite Hmdx. }
  eexists. split.
  - unfold Fetcher.ExtractDocuments, Scenario.manifest. simpl.
    unfold Fetcher.extractDocumentsFromVersion, Fetcher.extractDocumentsFromGroup. simpl.
    unfold Fetcher.extractDocument. rewrite Hpath, Hmd. simpl. reflexivity.
  - repeat split; try reflexivity.
    + apply list_elem_of_singleton. reflexivity.
    + intros Hin. apply list_elem_of_singleton in Hin. discriminate Hin.
Qed.

Lemma scenario_extraction_witness :
  ∃ d, (Fetcher.ExtractDocuments Scenario.fetcher Scenario.manifest).1 = [d]
       ∧ doc_ID d = "v1.8-guides-install"
       ∧ doc_Title d = "Installing"
       ∧ doc_Tags d = ["install"]
       ∧ "install" ∈ doc_Tags d ∧ "guides" ∉ doc_Tags d.
Proof.
  apply (scenario_extraction Scenario.fetcher); reflexivity.
Defined.

(** * Programs: running alone *)

Lemma run_bind {A B : Type} (p : Prog A) (f : A → Prog B) (st : State) :
  run (bind p f) st =
    let '(a, st1, l1) := run p st in
    let '(b, st2, l2) := run (f a) st1 in
    (b, st2, l1 ++ l2).
Proof.
  revert st. induction p as [a | R op k IH | e k IH | m k IH]; intros st; simpl.
  - destruct (run (f a) st) as [[b st2] l2]. reflexivity.
  - destruct (op st) as [r st']. apply IH.
  - rewrite IH. destruct (run k st) as [[a st1] l1].
    destruct (run (f a) st1) as [[b st2] l2]. reflexivity.
  - apply IH.
Qed.

Lemma run_mbind {A B : Type} (p : Prog A) (f : A → Prog B) (st : State) :
  run (p ≫= f) st =
    let '(a, st1, l1) := run p st in
    let '(b, st2, l2) := run (f a) st1 in
    (b, st2, l1 ++ l2).
Proof. apply run_bind. Qed.

(** Splits the run of a bind into the runs of its two parts. *)
Ltac unbind :=
  first [ rewrite run_mbind
        | rewrite run_bind
        | unfold Prog_bind; rewrite run_bind
        | unfold mbind, Prog_bind; rewrite run_bind ].

(** * Properties of the QueryEngine *)

Section QueryProperties.

Variable bleveMatch : gmap string StoredDoc → string → list Hit.

Lemma resolveHit_spec senv hit st :
  ∃ d l, run (resolveHit senv hit) st = (d, st, l)
         ∧ ∀ doc, d = Found doc → resolvedFrom st hit doc.
Proof.
  unfold resolveHit, resolvedFrom. simpl.
  destruct (se_documents (engine st) !! hit_ID hit) as [doc |] eqn:Hdoc; simpl.
  - eexists _, _. split; [reflexivity |]. intros ? [= <-]. reflexivity.
  - unfold bleve_Document.
    destruct (se_activeIndex (engine st)) as [h |]; simpl;
      [| eexists _, _; split; [reflexivity | discriminate]].
    destruct (index_data h st) as [m | e] eqn:Hm; simpl;
      [| eexists _, _; split; [reflexivity | discriminate]].
    destruct (ok_document senv (hit_ID hit)); simpl;
      [| eexists _, _; split; [reflexivity | discriminate]].
    destruct (m !! hit_ID hit) as [sd |] eqn:Hsd; simpl;
      [| eexists _, _; split; [reflexivity | discriminate]].
    eexists _, _. split; [reflexivity |]. intros ? [= <-]. eauto 10.
Qed.

Lemma goodResult_weaken req st hit hits res :
  goodResult req st hits res → goodResult req st (hit :: hits) res.
Proof.
  intros (Hpass & h & Hin & Hscore & Hres).
  split; [exact Hpass |]. exists h. split; [by apply list_elem_of_further | done].
Qed.

Lemma hitsLoop_spec senv req hits :
  ∀ acc st,
  ∃ o l, run (hitsLoop senv req hits acc) st = (o, st, l)
         ∧ ∀ rs, o = Some rs →
             ∃ new, rs = acc ++ new ∧ (length new ≤ length hits)%nat
                    ∧ Forall (goodResult req st hits) new.
Proof.
  induction hits as [| hit rest IH]; intros acc st.
  - simpl. eexists _, _. split; [reflexivity |].
    intros rs [= <-]. exists []. rewrite app_nil_r. repeat split; [simpl; lia | constructor].
  - change (hitsLoop senv req (hit :: rest) acc)
      with (resolveHit senv hit ≫= (fun d =>
              match d with
              | Crashed => Ret None
              | Skipped => hitsLoop senv req rest acc
              | Found doc =>
                  if passesFilters req doc then
                    snippetLength ← get (fun st => se_snippetLength (engine st));
                    match extractSnippet snippetLength (doc_Content doc),
                          extractContext (doc_Content doc) with
                    | Some snippet, Some context =>
                        hitsLoop senv req rest
                          (acc ++ [mkSearchResult doc (hit_Score hit) snippet context])
                    | _, _ => Ret None
                    end
                  else hitsLoop senv req rest acc
              end)).
    rewrite run_mbind.
    destruct (resolveHit_spec senv hit st) as (d & l & -> & Hd).
    assert (Hskip : ∃ o l0, (let '(b, st2, l2) := run (hitsLoop senv req rest acc) st
                             in (b, st2, l ++ l2)) = (o, st, l0)
              ∧ ∀ rs, o = Some rs →
                  ∃ new, rs = acc ++ new ∧ (length new ≤ length (hit :: rest))%nat
                         ∧ Forall (goodResult req st (hit :: rest)) new).
    { destruct (IH acc st) as (o & l2 & -> & Ho).
      eexists _, _. split; [reflexivity |]. intros rs Hrs.
      destruct (Ho rs Hrs) as (new & -> & Hlen & Hall).
      exists new. repeat split; [simpl; lia |].
      eapply Forall_impl; [exact Hall |]. intros res. apply goodResult_weaken. }
    destruct d as [doc | |]; [| exact Hskip |].
    + destruct (passesFilters req doc) eqn:Hpass; [| exact Hskip].
      simpl.
      destruct (extractSnippet (se_snippetLength (engine st)) (doc_Content doc)) as [snippet |];
        [| eexists _, _; split; [reflexivity | discriminate]].
      destruct (extractContext (doc_Content doc)) as [context |];
        [| eexists _, _; split; [reflexivity | discriminate]].
      destruct (IH (acc ++ [mkSearchResult doc (hit_Score hit) snippet context]) st)
        as (o & l2 & -> & Ho).
      eexists _, _. split; [reflexivity |]. intros rs Hrs.
      destruct (Ho rs Hrs) as (new & -> & Hlen & Hall).
      exists (mkSearchResult doc (hit_Score hit) snippet context :: new).
      rewrite <- app_assoc. repeat split; [simpl; lia |].
      constructor.
      * split; [exact Hpass |]. exists hit. repeat split; [apply list_elem_of_here |].
        simpl. by apply Hd.
      * eapply Forall_impl; [exact Hall |]. intros res. apply goodResult_weaken.
    + simpl. eexists _, _. split; [reflexivity | discriminate].
Qed.

(** What a call of [Search] that returns a response has done. *)
Lemma Search_response senv req st r :
  result_of (run (Search bleveMatch senv req) st) = Response r →
  ∃ matches,
    activeMatches bleveMatch st (req_Query req) = Some matches
    ∧ resp_Total r = Z.of_nat (length matches)
    ∧ resp_Query r = req_Query req
    ∧ (length (resp_Results r) ≤ length (take (Z.to_nat (effectiveLimit req)) matches))%nat
    ∧ Forall (goodResult req st (take (Z.to_nat (effectiveLimit req)) matches))
             (resp_Results r).
Proof.
  unfold Search, Search_locked, result_of. simpl.
  unfold SearchInContext, activeMatches.
  destruct (se_activeIndex (engine st)) as [h |]; simpl; [| discriminate].
  destruct (index_data h st) as [m | e]; simpl; [| discriminate].
  destruct (ok_search senv); simpl; [| discriminate].
  unfold Prog_bind. rewrite run_bind. unfold mbind, Prog_bind. rewrite run_bind.
  destruct (hitsLoop_spec senv req (take (Z.to_nat (effectiveLimit req))
                                         (bleveMatch m (req_Query req))) [] st)
    as (o & l & -> & Ho).
  destruct o as [rs |]; simpl; [| discriminate].
  intros [= <-]. destruct (Ho rs eq_refl) as (new & -> & Hlen & Hall).
  exists (bleveMatch m (req_Query req)). simpl. done.
Qed.

End QueryProperties.

(** * Properties of the IndexManager *)

Arguments swap_retire : simpl never.
Arguments swap_promote : simpl never.
Arguments atomicSwap : simpl never.
Arguments IndexDocuments_locked : simpl never.

Lemma place_place s l1 l2 d : place s l1 (place s l2 d) = place s l1 d.
Proof. by destruct s, d. Qed.

Lemma location_place s l d : location (place s l d) s = l.
Proof. by destruct s, d. Qed.

Lemma indexLoop_run env total docs :
  ∀ i n st m,
    location (files st) Staging = IndexDir m →
    ∃ l, run (indexLoop env (mkHandle Staging true) total docs i n) st
         = (n + Z.of_nat (length (indexedFrom (ok_index env) i docs)),
            afterIndexing (indexedFrom (ok_index env) i docs) m st, l).
Proof.
  induction docs as [| doc rest IH]; intros i n st m Hm.
  - simpl. exists []. f_equal. f_equal; [lia |].
    unfold afterIndexing. simpl. rewrite <- Hm.
    destruct st as [[] []]. reflexivity.
  - simpl. unfold bleve_Index. simpl.
    destruct (decide (doc_ID doc = "")) as [Hid | Hid].
    + rewrite (bool_decide_eq_false_2 _ (fun H => H Hid)), andb_false_r. simpl.
      destruct (IH (S i) n st m Hm) as (l & ->). eexists. reflexivity.
    + rewrite (bool_decide_eq_true_2 _ Hid), andb_true_r.
      destruct (ok_index env i); simpl.
      * simpl in Hm. rewrite Hm. simpl.
        unfold mbind, Prog_bind. rewrite run_bind.
        destruct (decide _); simpl;
          match goal with
          | |- context [run (indexLoop _ _ _ _ _ _) ?st1] =>
              destruct (IH (S i) (n + 1) st1 (<[doc_ID doc := stored doc]> m)) as (l & Hl);
              [simpl; reflexivity |]
          end;
          rewrite Hl; eexists; f_equal; f_equal; try lia;
          unfold afterIndexing; simpl; rewrite place_place; reflexivity.
      * destruct (IH (S i) n st m Hm) as (l & ->). eexists. reflexivity.
Qed.

(** Steps (1) to (3) leave the staging directory, the cache and the
    taxonomy alone. *)
Lemma swap_retire_run env st :
  ∃ st1 l, run (swap_retire env) st = (tt, st1, l)
    ∧ at_staging (files st1) = at_staging (files st)
    ∧ (at_active (files st1) = at_active (files st) ∨ at_active (files st1) = Absent)
    ∧ engine st1 = set_stagingIndex (Close <$> se_stagingIndex (engine st))
                     (set_activeIndex (Close <$> se_activeIndex (engine st)) (engine st)).
Proof.
  destruct st as [se [a s b]].
  unfold swap_retire. simpl.
  destruct (se_activeIndex se) eqn:Ha; simpl;
    destruct (se_stagingIndex se) eqn:Hs; simpl;
    unfold os_RemoveAll; destruct (ok_removeBackup env); simpl;
    unfold os_Rename; destruct (ok_renameActive env); simpl.
  all: destruct a; simpl.
  all: try destruct b; simpl.
  all: eexists _, _; split; [reflexivity |]; split; [reflexivity |].
  all: (split; [by auto |]).
  all: destruct se; simpl in *; subst; reflexivity.
Qed.

Lemma swap_promote_success env st g :
  at_staging (files st) = IndexDir g →
  result_of (run (swap_promote env) st) = Ok tt →
  engine (state_of (run (swap_promote env) st))
  = set_stagingIndex (Some (mkHandle Staging true))
      (set_activeIndex (Some (mkHandle Active true)) (engine st))
  ∧ at_active (files (state_of (run (swap_promote env) st))) = IndexDir g
  ∧ at_staging (files (state_of (run (swap_promote env) st))) = IndexDir ∅.
Proof.
  destruct st as [se [a s b]]. simpl. intros ->.
  unfold swap_promote, result_of, state_of. simpl.
  unfold os_Rename. destruct (ok_renameStaging env); simpl; [| discriminate].
  destruct a; simpl; try discriminate.
  all: unfold bleve_Open; destruct (ok_reopenActive env); simpl; try discriminate.
  all: unfold bleve_New; destruct (ok_newStagingAfter env); simpl; try discriminate.
  all: intros _; destruct se; done.
Qed.

Lemma atomicSwap_success env st g :
  at_staging (files st) = IndexDir g →
  result_of (run (atomicSwap env) st) = Ok tt →
  (∃ l, run (atomicSwap env) st = (Ok tt, state_of (run (atomicSwap env) st), l))
  ∧ engine (state_of (run (atomicSwap env) st))
    = set_stagingIndex (Some (mkHandle Staging true))
        (set_activeIndex (Some (mkHandle Active true)) (engine st))
  ∧ at_active (files (state_of (run (atomicSwap env) st))) = IndexDir g
  ∧ at_staging (files (state_of (run (atomicSwap env) st))) = IndexDir ∅.
Proof.
  intros Hg. unfold atomicSwap. rewrite run_mbind.
  destruct (swap_retire_run env st) as (st1 & l1 & -> & Hs & _ & He).
  rewrite <- Hs in Hg.
  pose proof (swap_promote_success env st1 g Hg) as H.
  unfold result_of, state_of in *.
  destruct (run (swap_promote env) st1) as [[r st2] l2]. simpl in *.
  intros ->. destruct (H eq_refl) as (H1 & H2 & H3).
  split; [eauto |]. split; [| done].
  rewrite H1, He. by destruct (engine st).
Qed.

Opaque IndexDocuments_locked.

Lemma run_IndexDocuments env docs st :
  run (IndexDocuments env docs) st = run (IndexDocuments_locked env docs) st.
Proof.
  unfold IndexDocuments. simpl. unbind.
  destruct (run (IndexDocuments_locked env docs) st) as [[r st1] l1]. simpl.
  by rewrite app_nil_r.
Qed.

Transparent IndexDocuments_locked.

Opaque atomicSwap indexLoop.

Lemma IndexDocuments_locked_success env docs st :
  result_of (run (IndexDocuments_locked env docs) st) = Ok tt →
  Rebuilt env docs st (state_of (run (IndexDocuments_locked env docs) st)).
Proof.
  destruct st as [se [a s b]].
  unfold IndexDocuments_locked, result_of, state_of. simpl.
  unfold os_RemoveAll. destruct (ok_clearStaging env); simpl;
    destruct (se_stagingIndex se) eqn:Hs; simpl;
    unfold os_MkdirAll; destruct (ok_mkdirStaging env); simpl; try discriminate.
  all: try destruct s; simpl.
  all: unfold bleve_New; destruct (ok_newStaging env); simpl; try discriminate.
  all: unbind.
  all: match goal with
       | |- context [run (indexLoop ?e ?h ?t ?ds 0 0) ?st0] =>
           destruct (indexLoop_run e t ds 0 0 st0 ∅ eq_refl) as (l0 & ->)
       end.
  all: simpl; unbind.
  all: match goal with
       | |- context [run (atomicSwap ?e) ?st1] =>
           pose proof (atomicSwap_success e st1 _ eq_refl) as H;
           unfold result_of, state_of in H;
           destruct (run (atomicSwap e) st1) as [[r st2] l2]
       end.
  all: destruct r as [[] | e]; simpl in *; try discriminate.
  all: intros _; destruct (H eq_refl) as (_ & He & Ha & Hst).
  all: destruct se; simpl in *; split; simpl; rewrite ?He; try done.
Qed.

Transparent atomicSwap indexLoop.

Lemma IndexDocuments_success env docs st :
  result_of (run (IndexDocuments env docs) st) = Ok tt →
  Rebuilt env docs st (state_of (run (IndexDocuments env docs) st)).
Proof.
  rewrite run_IndexDocuments. apply IndexDocuments_locked_success.
Qed.

(** * The taxonomy and the cache across rebuilds *)

Lemma lookup_truths (keys : list string) (k : string) :
  truths keys !! k = if decide (k ∈ keys) then Some true else None.
Proof.
  unfold truths. rewrite lookup_gset_to_gmap.
  destruct (decide (k ∈ keys)) as [Hin | Hin].
  - rewrite option_guard_True; [done | by apply elem_of_list_to_set].
  - rewrite option_guard_False; [done |]. by rewrite elem_of_list_to_set.
Qed.

Lemma truths_cons_union (x : string) (keys : list string) (m : gmap string bool) :
  truths keys ∪ mark x m = truths (x :: keys) ∪ m.
Proof.
  apply map_eq. intros k. unfold mark.
  rewrite !lookup_union, !lookup_truths.
  destruct (decide (k = x)) as [-> | Hne].
  - rewrite lookup_insert_eq.
    rewrite (decide_True (P := x ∈ x :: keys)) by apply list_elem_of_here.
    destruct (decide (x ∈ keys)), (m !! x); done.
  - rewrite lookup_insert_ne by done.
    destruct (decide (k ∈ keys)) as [Hin | Hin].
    + rewrite decide_True by (by apply list_elem_of_further). done.
    + rewrite decide_False; [done |].
      intros [? | ?]%elem_of_cons; done.
Qed.

Lemma truths_app_union (l1 l2 : list string) (m : gmap string bool) :
  truths l2 ∪ (truths l1 ∪ m) = truths (l1 ++ l2) ∪ m.
Proof.
  apply map_eq. intros k. rewrite !lookup_union, !lookup_truths.
  destruct (decide (k ∈ l1)) as [H1 | H1], (decide (k ∈ l2)) as [H2 | H2].
  - rewrite decide_True by (apply elem_of_app; auto). by destruct (m !! k).
  - rewrite decide_True by (apply elem_of_app; auto). by destruct (m !! k).
  - rewrite decide_True by (apply elem_of_app; auto). by destruct (m !! k).
  - rewrite decide_False; [by destruct (m !! k) |].
    intros [? | ?]%elem_of_app; done.
Qed.

Lemma truths_nil : truths [] = ∅.
Proof. apply map_eq. intros k. by rewrite lookup_truths, lookup_empty. Qed.

Lemma foldl_mark (keys : list string) :
  ∀ m, foldl (fun m tag => mark tag m) m keys = truths keys ∪ m.
Proof.
  induction keys as [| x keys IH]; intros m; simpl.
  - by rewrite truths_nil, (left_id_L ∅ (∪)).
  - rewrite IH. apply truths_cons_union.
Qed.

(** The code's accumulation, in the words of the specification: each
    facet set becomes its union with the facets of the documents. *)
Lemma taxonomyWith_union (docs : list Document) :
  ∀ t, taxonomyWith t docs = unionTaxonomy (facets docs) t.
Proof.
  unfold taxonomyWith, unionTaxonomy, facets.
  induction docs as [| doc docs IH]; intros t; simpl.
  - rewrite !truths_nil, !(left_id_L ∅ (∪)). by destruct t.
  - rewrite IH. unfold updateTaxonomy, nonempty. simpl.
    f_equal.
    + destruct (decide (doc_Version doc ≠ "")) as [H | H].
      * rewrite (bool_decide_eq_true_2 _ H). apply truths_cons_union.
      * by rewrite (bool_decide_eq_false_2 _ H).
    + destruct (decide (doc_Section doc ≠ "")) as [H | H].
      * rewrite (bool_decide_eq_true_2 _ H). apply truths_cons_union.
      * by rewrite (bool_decide_eq_false_2 _ H).
    + destruct (decide (doc_Platform doc ≠ "")) as [H | H].
      * rewrite (bool_decide_eq_true_2 _ H). apply truths_cons_union.
      * by rewrite (bool_decide_eq_false_2 _ H).
    + rewrite foldl_mark. apply truths_app_union.
Qed.

Lemma union_absorb (m1 m2 : gmap string bool) : m1 ∪ (m1 ∪ m2) = m1 ∪ m2.
Proof.
  apply map_eq. intros k. rewrite !lookup_union.
  by destruct (m1 !! k), (m2 !! k).
Qed.

Lemma taxonomyWith_twice (docs : list Document) (t : ContentTaxonomy) :
  taxonomyWith (taxonomyWith t docs) docs = taxonomyWith t docs.
Proof.
  rewrite !taxonomyWith_union. unfold unionTaxonomy. simpl.
  by rewrite !union_absorb.
Qed.

Lemma unionTaxonomy_empty (t : ContentTaxonomy) : unionTaxonomy t emptyTaxonomy = t.
Proof.
  unfold unionTaxonomy, emptyTaxonomy. simpl.
  rewrite !(right_id_L ∅ (∪)). by destruct t.
Qed.

Lemma indexedFrom_ext (ok1 ok2 : nat → bool) (docs : list Document) :
  ∀ i, (∀ j, (i ≤ j < i + length docs)%nat → ok1 j = ok2 j) →
       indexedFrom ok1 i docs = indexedFrom ok2 i docs.
Proof.
  induction docs as [| doc docs IH]; intros i Hok; simpl; [done |].
  rewrite (Hok i) by (simpl; lia).
  rewrite (IH (S i)) by (intros j Hj; apply Hok; simpl; lia).
  reflexivity.
Qed.

Lemma indexedFrom_all (ok : nat → bool) (docs : list Document) :
  ∀ i, (∀ j, ok j = true) → Forall (fun doc => doc_ID doc ≠ "") docs →
       indexedFrom ok i docs = docs.
Proof.
  induction docs as [| doc docs IH]; intros i Hok Hid; simpl; [done |].
  inversion Hid as [| ? ? Hdoc Hrest]; subst.
  rewrite Hok, (bool_decide_eq_true_2 _ Hdoc). simpl. by rewrite IH.
Qed.

Lemma Rebuilt_docCount env docs st st' :
  Rebuilt env docs st st' →
  activeDocCount st' = Some (Z.of_nat (size (indexWith ∅ (indexed env docs)))).
Proof.
  intros H. unfold activeDocCount, DocCount, index_data.
  rewrite (rebuilt_activeIndex _ _ _ _ H). simpl.
  by rewrite (rebuilt_active _ _ _ _ H).
Qed.

(** [NewSearchEngine] returns an engine with an empty cache and an empty
    taxonomy. *)
Lemma NewSearchEngine_fresh ienv indexPath maxResults snippetLength d st0 :
  NewSearchEngine ienv indexPath maxResults snippetLength d = Ok st0 →
  se_taxonomy (engine st0) = emptyTaxonomy ∧ se_documents (engine st0) = ∅.
Proof.
  unfold NewSearchEngine, NewSearchEngine_prog, finishNewSearchEngine.
  destruct d as [a s b].
  destruct (ok_mkdirRoot ienv); simpl; [| discriminate].
  unfold bleve_Open.
  destruct (ok_openReadOnly ienv); simpl.
  - destruct a; simpl.
    + unfold bleve_New. destruct (ok_createActive ienv); simpl; [| discriminate].
      unfold DocCount, index_data, os_RemoveAll. simpl.
      destruct (ok_removeOldStaging ienv); simpl;
        destruct (ok_createStaging ienv); simpl; try discriminate;
        try destruct s; simpl; try discriminate; by intros [= <-].
    + destruct (ok_openRegular ienv); simpl; discriminate.
    + unfold DocCount, index_data, os_RemoveAll, bleve_New. simpl.
      destruct (ok_removeOldStaging ienv); simpl;
        destruct (ok_createStaging ienv); simpl; try discriminate;
        try destruct s; simpl; try discriminate; by intros [= <-].
  - destruct (ok_openRegular ienv); simpl; [| discriminate].
    destruct a; simpl; try discriminate.
    unfold DocCount, index_data, os_RemoveAll, bleve_New. simpl.
    destruct (ok_removeOldStaging ienv); simpl;
      destruct (ok_createStaging ienv); simpl; try discriminate;
      try destruct s; simpl; try discriminate; by intros [= <-].
Qed.

(** * Rebuilds: what the taxonomy and the cache hold *)

(** C2, as stated, fails: a rebuild with the v1.8 guide after a rebuild
    with the v1.7 guide succeeds and leaves "v1.7" among the versions and
    the v1.7 guide in the cache. *)
Lemma rebuild_keeps_earlier_facets :
  result_of (run (IndexDocuments Scenario.allOk [Scenario.guide18])
               (state_of (run (IndexDocuments Scenario.allOk [Scenario.guide17])
                            Scenario.fresh)))
  = Ok tt
  ∧ se_taxonomy (engine (state_of
        (run (IndexDocuments Scenario.allOk [Scenario.guide18])
           (state_of (run (IndexDocuments Scenario.allOk [Scenario.guide17])
                        Scenario.fresh)))))
    ≠ facets [Scenario.guide18]
  ∧ se_documents (engine (state_of
        (run (IndexDocuments Scenario.allOk [Scenario.guide18])
           (state_of (run (IndexDocuments Scenario.allOk [Scenario.guide17])
                        Scenario.fresh)))))
    ≠ cacheWith ∅ [Scenario.guide18].
Proof.
  split; [vm_compute; reflexivity |]. split; intros H.
  - apply (f_equal (fun t => tax_Versions t !! "v1.7")) in H.
    vm_compute in H. discriminate H.
  - apply (f_equal (fun m => doc_Version <$> m !! "v1.7-guides-install")) in H.
    vm_compute in H. discriminate H.
Qed.

(** C2, amended: a successful rebuild adds to the taxonomy and to the
    cache and removes nothing.  Each facet set becomes the union of what it
    was with the facets of the documents indexed by this call, and the
    cache is the earlier cache overwritten with those documents.  On an
    engine just created, a rebuild with no documents followed by a rebuild
    with documents that are all indexed leaves exactly their facets. *)
Theorem rebuild_accumulates :
  (∀ env docs st,
      result_of (run (IndexDocuments env docs) st) = Ok tt →
      se_taxonomy (engine (state_of (run (IndexDocuments env docs) st)))
      = unionTaxonomy (facets (indexed env docs)) (se_taxonomy (engine st))
      ∧ se_documents (engine (state_of (run (IndexDocuments env docs) st)))
        = cacheWith (se_documents (engine st)) (indexed env docs))
  ∧ (∀ ienv indexPath maxResults snippetLength d st0 env1 env2 docs,
      NewSearchEngine ienv indexPath maxResults snippetLength d = Ok st0 →
      result_of (run (IndexDocuments env1 []) st0) = Ok tt →
      result_of (run (IndexDocuments env2 docs)
                   (state_of (run (IndexDocuments env1 []) st0))) = Ok tt →
      (∀ i, ok_index env2 i = true) →
      Forall (fun doc => doc_ID doc ≠ "") docs →
      se_taxonomy (engine (state_of
          (run (IndexDocuments env2 docs)
             (state_of (run (IndexDocuments env1 []) st0)))))
      = facets docs
      ∧ se_documents (engine (state_of
          (run (IndexDocuments env2 docs)
             (state_of (run (IndexDocuments env1 []) st0)))))
        = cacheWith ∅ docs).
Proof.
  assert (Hgeneral : ∀ env docs st,
      result_of (run (IndexDocuments env docs) st) = Ok tt →
      se_taxonomy (engine (state_of (run (IndexDocuments env docs) st)))
      = unionTaxonomy (facets (indexed env docs)) (se_taxonomy (engine st))
      ∧ se_documents (engine (state_of (run (IndexDocuments env docs) st)))
        = cacheWith (se_documents (engine st)) (indexed env docs)).
  { intros env docs st Hok.
    destruct (IndexDocuments_success env docs st Hok) as [Ht Hd _ _ _ _ _].
    rewrite Ht, Hd, taxonomyWith_union. done. }
  split; [exact Hgeneral |].
  intros ienv indexPath maxResults snippetLength d st0 env1 env2 docs
         Hnew Hok1 Hok2 Hall Hids.
  destruct (NewSearchEngine_fresh _ _ _ _ _ _ Hnew) as [Ht0 Hd0].
  destruct (Hgeneral env1 [] st0 Hok1) as [Ht1 Hd1].
  destruct (Hgeneral env2 docs _ Hok2) as [Ht2 Hd2].
  rewrite Ht2, Hd2, Ht1, Hd1, Ht0, Hd0.
  unfold indexed. rewrite (indexedFrom_all _ docs 0 Hall Hids). simpl.
  split; [| reflexivity].
  change (facets []) with (mkTaxonomy (truths []) (truths []) (truths []) (truths [])).
  rewrite truths_nil. change (mkTaxonomy ∅ ∅ ∅ ∅) with emptyTaxonomy.
  by rewrite !unionTaxonomy_empty.
Qed.

Lemma rebuild_accumulates_witness :
  se_taxonomy (engine (state_of
      (run (IndexDocuments Scenario.allOk Scenario.three)
         (state_of (run (IndexDocuments Scenario.allOk []) Scenario.fresh)))))
  = facets Scenario.three.
Proof.
  destruct rebuild_accumulates as [_ H].
  refine (proj1 (H Scenario.initOk "/idx" 20 300 Scenario.emptyDisk Scenario.fresh
                   Scenario.allOk Scenario.allOk Scenario.three _ _ _ _ _)).
  - vm_compute. reflexivity.
  - vm_compute. reflexivity.
  - vm_compute. reflexivity.
  - intros i. reflexivity.
  - repeat constructor; discriminate.
Defined.

(** C9: two rebuilds in a row with the same document list, both
    successful and with the same documents accepted by the index, leave
    the same document count in the active generation and the same four
    facet sets. *)
Theorem rebuild_idempotent (env1 env2 : Env) (docs : list Document) (st : State)
    (Hfirst : result_of (run (IndexDocuments env1 docs) st) = Ok tt)
    (Hsecond : result_of (run (IndexDocuments env2 docs)
                            (state_of (run (IndexDocuments env1 docs) st))) = Ok tt)
    (Hsame : ∀ i, (i < length docs)%nat → ok_index env1 i = ok_index env2 i) :
  activeDocCount (state_of (run (IndexDocuments env1 docs) st))
  = Some (Z.of_nat (size (indexWith ∅ (indexed env1 docs))))
  ∧ activeDocCount (state_of (run (IndexDocuments env2 docs)
                                (state_of (run (IndexDocuments env1 docs) st))))
    = activeDocCount (state_of (run (IndexDocuments env1 docs) st))
  ∧ se_taxonomy (engine (state_of (run (IndexDocuments env2 docs)
                                     (state_of (run (IndexDocuments env1 docs) st)))))
    = se_taxonomy (engine (state_of (run (IndexDocuments env1 docs) st))).
Proof.
  pose proof (IndexDocuments_success env1 docs st Hfirst) as H1.
  pose proof (IndexDocuments_success env2 docs _ Hsecond) as H2.
  assert (Hidx : indexed env2 docs = indexed env1 docs).
  { unfold indexed. symmetry. apply indexedFrom_ext. intros j Hj. apply Hsame. lia. }
  rewrite (Rebuilt_docCount _ _ _ _ H1), (Rebuilt_docCount _ _ _ _ H2), Hidx.
  split; [done |]. split; [done |].
  rewrite (rebuilt_taxonomy _ _ _ _ H2), (rebuilt_taxonomy _ _ _ _ H1), Hidx.
  apply taxonomyWith_twice.
Qed.

Lemma rebuild_idempotent_witness :
  activeDocCount (state_of (run (IndexDocuments Scenario.allOk Scenario.three)
                              Scenario.serving))
  = activeDocCount Scenario.serving
  ∧ se_taxonomy (engine (state_of (run (IndexDocuments Scenario.allOk Scenario.three)
                                     Scenario.serving)))
    = se_taxonomy (engine Scenario.serving).
Proof.
  refine (proj2 (rebuild_idempotent Scenario.allOk Scenario.allOk Scenario.three
                   Scenario.fresh _ _ _)).
  - vm_compute. reflexivity.
  - vm_compute. reflexivity.
  - intros i _. reflexivity.
Defined.

(** * The swap: which failures are fatal *)

Lemma swap_retire_exact env st :
  ∃ st1,
    run (swap_retire env) st
    = (tt, st1,
       [Logf "  Closing indices..." []; Logf "  Backing up old index..." []]
       ++ match (os_RemoveAll (ok_removeBackup env) Backup st).1 with
          | Err e => [Logf "Warning: failed to remove old backup index: %v" [ArgErr e]]
          | Ok _ => []
          end
       ++ match (backupStep env st).1 with
          | Err e => [Logf "Warning: failed to backup active index: %v" [ArgErr e]]
          | Ok _ => []
          end)
    ∧ files st1 = files (backupStep env st).2.
Proof.
  destruct st as [se [a s b]].
  unfold swap_retire, backupStep. simpl.
  destruct (se_activeIndex se); simpl;
    destruct (se_stagingIndex se); simpl;
    unfold os_RemoveAll; destruct (ok_removeBackup env); simpl;
    unfold os_Rename; destruct (ok_renameActive env); simpl.
  all: destruct a; simpl.
  all: try destruct b; simpl.
  all: eexists; split; reflexivity.
Qed.

Lemma os_Rename_files ok src dst st st' :
  files st = files st' →
  (os_Rename ok src dst st).1 = (os_Rename ok src dst st').1
  ∧ files (os_Rename ok src dst st).2 = files (os_Rename ok src dst st').2.
Proof.
  intros H. unfold os_Rename. rewrite <- H.
  destruct ok; [| done].
  destruct (location (files st) src); [done | |];
    destruct (location (files st) dst); simpl; rewrite <- ?H; done.
Qed.

(** Step (4) decides: when the move fails, [swap_promote] returns its
    error and does nothing more. *)
Lemma swap_promote_aborts env st e :
  (os_Rename (ok_renameStaging env) Staging Active st).1 = Err e →
  ∃ st', run (swap_promote env) st
         = (Err (Errorf "failed to move staging index to active" e), st',
            [Logf "  Swapping staging to active..." []]).
Proof.
  unfold swap_promote. simpl.
  destruct (os_Rename (ok_renameStaging env) Staging Active st) as [[[] | e'] st'];
    simpl; [discriminate |].
  intros [= ->]. eexists. reflexivity.
Qed.

Lemma swap_promote_starts env st :
  ∃ l, log_of (run (swap_promote env) st) = Logf "  Swapping staging to active..." [] :: l.
Proof.
  unfold swap_promote, log_of. simpl.
  destruct (os_Rename (ok_renameStaging env) Staging Active st) as [r st1].
  match goal with
  | |- context [run ?p st1] => destruct (run p st1) as [[r' st'] l]
  end.
  simpl. eexists. reflexivity.
Qed.

Lemma swap_promote_completes env st g :
  at_staging (files st) = IndexDir g →
  (os_Rename (ok_renameStaging env) Staging Active st).1 = Ok tt →
  ok_reopenActive env = true → ok_newStagingAfter env = true →
  result_of (run (swap_promote env) st) = Ok tt.
Proof.
  destruct st as [se [a s b]]. simpl. intros -> Hmove -> ->. revert Hmove.
  unfold swap_promote, result_of, os_Rename, bleve_Open, bleve_New. simpl.
  destruct (ok_renameStaging env); simpl; [| discriminate].
  destruct a; simpl; try discriminate; done.
Qed.

Lemma atomicSwap_aborts_without_rename env st :
  ok_renameStaging env = false →
  result_of (run (atomicSwap env) st)
  = Err (Errorf "failed to move staging index to active" (ErrEnv "Rename")).
Proof.
  intros Hno. unfold atomicSwap. unbind.
  destruct (swap_retire_exact env st) as (st1 & -> & _).
  destruct (swap_promote_aborts env st1 (ErrEnv "Rename")) as (st' & ->).
  - unfold os_Rename. by rewrite Hno.
  - reflexivity.
Qed.

Lemma not_in_log (x : LogEvent) (l : list LogEvent) :
  Forall (fun y => log_format y ≠ log_format x) l → x ∉ l.
Proof.
  intros Hall Hin. rewrite Forall_forall in Hall. by apply (Hall x Hin).
Qed.

(** When the move of step (4) fails, the swap leaves the engine with the
    active handle it closed in step (1). *)
Lemma atomicSwap_leaves_active_closed env st :
  ok_renameStaging env = false →
  se_activeIndex (engine (state_of (run (atomicSwap env) st)))
  = Close <$> se_activeIndex (engine st).
Proof.
  intros Hno. unfold atomicSwap, state_of. unbind.
  destruct (swap_retire_run env st) as (st1 & l1 & -> & _ & _ & He).
  unfold swap_promote. simpl. unfold os_Rename. rewrite Hno. simpl.
  rewrite He. by destruct (engine st).
Qed.

Opaque atomicSwap indexLoop.

Lemma IndexDocuments_leaves_active_closed env docs st :
  ok_renameStaging env = false →
  Logf "Performing atomic index swap..." [] ∈ log_of (run (IndexDocuments env docs) st) →
  se_activeIndex (engine (state_of (run (IndexDocuments env docs) st)))
  = Close <$> se_activeIndex (engine st).
Proof.
  intros Hno. rewrite run_IndexDocuments.
  destruct st as [se [a s b]].
  unfold IndexDocuments_locked, state_of, log_of. simpl.
  unfold os_RemoveAll. destruct (ok_clearStaging env); simpl;
    destruct (se_stagingIndex se) eqn:Hs; simpl;
    unfold os_MkdirAll; destruct (ok_mkdirStaging env); simpl.
  all: try destruct s; simpl.
  all: unfold bleve_New; destruct (ok_newStaging env); simpl.
  all: try (intros Hin; exfalso; revert Hin; apply not_in_log;
            repeat constructor; discriminate).
  all: unbind.
  all: match goal with
       | |- context [run (indexLoop ?e ?h ?t ?ds 0 0) ?st0] =>
           destruct (indexLoop_run e t ds 0 0 st0 ∅ eq_refl) as (l0 & ->)
       end.
  all: simpl; unbind.
  all: match goal with
       | |- context [run (atomicSwap ?e) ?st1] =>
           intros _;
           pose proof (atomicSwap_leaves_active_closed e st1 Hno) as Hclosed;
           pose proof (atomicSwap_aborts_without_rename e st1 Hno) as Herr;
           unfold state_of, result_of in Hclosed, Herr;
           destruct (run (atomicSwap e) st1) as [[r st2] l2]
       end.
  all: simpl in *; subst r; simpl; rewrite Hclosed; by destruct se.
Qed.

Lemma IndexDocuments_surfaces_swap_error env docs st :
  Logf "Performing atomic index swap..." [] ∈ log_of (run (IndexDocuments env docs) st) →
  ∃ st1, match result_of (run (atomicSwap env) st1) with
         | Ok _ => result_of (run (IndexDocuments env docs) st) = Ok tt
         | Err e => result_of (run (IndexDocuments env docs) st)
                    = Err (Errorf "failed to atomic swap indices" e)
         end.
Proof.
  rewrite run_IndexDocuments.
  destruct st as [se [a s b]].
  unfold IndexDocuments_locked, result_of, log_of. simpl.
  unfold os_RemoveAll. destruct (ok_clearStaging env); simpl;
    destruct (se_stagingIndex se) eqn:Hs; simpl;
    unfold os_MkdirAll; destruct (ok_mkdirStaging env); simpl.
  all: try destruct s; simpl.
  all: unfold bleve_New; destruct (ok_newStaging env); simpl.
  all: try (intros Hin; exfalso; revert Hin; apply not_in_log;
            repeat constructor; discriminate).
  all: unbind.
  all: match goal with
       | |- context [run (indexLoop ?e ?h ?t ?ds 0 0) ?st0] =>
           destruct (indexLoop_run e t ds 0 0 st0 ∅ eq_refl) as (l0 & ->)
       end.
  all: simpl; unbind.
  all: match goal with
       | |- context [run (atomicSwap ?e) ?st1] =>
           intros _; exists st1; destruct (run (atomicSwap e) st1) as [[r st2] l2]
       end.
  all: destruct r as [[] | e]; reflexivity.
Qed.

Transparent atomicSwap indexLoop.

Opaque atomicSwap indexLoop.

(** A rebuild either stops before its loop, with the staging handle closed
    and nothing else of the engine touched, or reaches the swap in the
    state [atSwap] and returns what the swap returns, an error wrapped. *)
Lemma IndexDocuments_cases env docs st :
  (∃ msg e,
     result_of (run (IndexDocuments env docs) st) = Err (Errorf msg e)
     ∧ (msg = "failed to create staging directory"
        ∨ msg = "failed to create new staging index")
     ∧ engine (state_of (run (IndexDocuments env docs) st))
       = set_stagingIndex (Close <$> se_stagingIndex (engine st)) (engine st)
     ∧ at_active (files (state_of (run (IndexDocuments env docs) st)))
       = at_active (files st)
     ∧ at_backup (files (state_of (run (IndexDocuments env docs) st)))
       = at_backup (files st)
     ∧ Logf "Performing atomic index swap..." []
         ∉ log_of (run (IndexDocuments env docs) st))
  ∨ (state_of (run (IndexDocuments env docs) st)
     = state_of (run (atomicSwap env) (atSwap env docs st))
     ∧ result_of (run (IndexDocuments env docs) st)
       = match result_of (run (atomicSwap env) (atSwap env docs st)) with
         | Ok _ => Ok tt
         | Err e => Err (Errorf "failed to atomic swap indices" e)
         end).
Proof.
  rewrite run_IndexDocuments.
  destruct st as [se [a s b]].
  unfold IndexDocuments_locked, result_of, state_of, log_of, atSwap. simpl.
  unfold os_RemoveAll. destruct (ok_clearStaging env); simpl;
    destruct (se_stagingIndex se) eqn:Hs; simpl;
    unfold os_MkdirAll; destruct (ok_mkdirStaging env); simpl.
  all: try destruct s; simpl.
  all: unfold bleve_New; destruct (ok_newStaging env); simpl.
  all: try (left; eexists _, _; split; [reflexivity |]; split; [by auto |];
            split; [destruct se; simpl in *; subst; reflexivity |];
            split; [reflexivity |]; split; [reflexivity |];
            apply not_in_log; repeat constructor; discriminate).
  all: right; unbind.
  all: match goal with
       | |- context [run (indexLoop ?e ?h ?t ?ds 0 0) ?st0] =>
           destruct (indexLoop_run e t ds 0 0 st0 ∅ eq_refl) as (l0 & ->)
       end.
  all: simpl; unbind.
  all: match goal with
       | |- context [run (atomicSwap ?e) ?st1] =>
           replace st1 with (afterIndexing (indexed e docs) ∅
                               (mkState (set_stagingIndex (Some (mkHandle Staging true)) se)
                                  (mkDisk a (IndexDir ∅) b)))
             by (unfold afterIndexing, indexed; destruct se; simpl in *; subst; reflexivity)
       end.
  all: match goal with
       | |- context [run (atomicSwap ?e) ?st1] =>
           destruct (run (atomicSwap e) st1) as [[r st2] l2]
       end.
  all: destruct r as [[] | e]; simpl; done.
Qed.

Transparent atomicSwap indexLoop.

(** A swap that returns the error of the move has not gone past it: the
    engine is left with the handles the swap closed. *)
Lemma atomicSwap_move_failed env st e :
  result_of (run (atomicSwap env) st)
  = Err (Errorf "failed to move staging index to active" e) →
  engine (state_of (run (atomicSwap env) st))
  = set_stagingIndex (Close <$> se_stagingIndex (engine st))
      (set_activeIndex (Close <$> se_activeIndex (engine st)) (engine st)).
Proof.
  unfold atomicSwap, result_of, state_of. unbind.
  destruct (swap_retire_run env st) as (st1 & l1 & -> & _ & _ & He).
  rewrite <- He. clear He. destruct st1 as [se [a s b]].
  unfold swap_promote. simpl.
  unfold os_Rename. destruct (ok_renameStaging env); simpl; [| done].
  destruct s; simpl; [done | |].
  all: destruct a; simpl; try done.
  all: unfold bleve_Open; destruct (ok_reopenActive env); simpl; try discriminate.
  all: unfold bleve_New; destruct (ok_newStagingAfter env); simpl; discriminate.
Qed.

(** The two renames of the swap, for the swap alone. *)
Lemma atomicSwap_policy (env : Env) (st : State) :
  (∀ e, (backupStep env st).1 = Err e →
        Logf "Warning: failed to backup active index: %v" [ArgErr e]
          ∈ log_of (run (atomicSwap env) st)
        ∧ Logf "  Swapping staging to active..." [] ∈ log_of (run (atomicSwap env) st)
        ∧ ∀ g, at_staging (files st) = IndexDir g →
               (promoteStep env st).1 = Ok tt →
               ok_reopenActive env = true → ok_newStagingAfter env = true →
               result_of (run (atomicSwap env) st) = Ok tt)
  ∧ (∀ e, (promoteStep env st).1 = Err e →
          result_of (run (atomicSwap env) st)
          = Err (Errorf "failed to move staging index to active" e)
          ∧ Logf "  Reopening active index..." [] ∉ log_of (run (atomicSwap env) st)).
Proof.
  assert (Hrun : ∃ st1 l1,
             run (swap_retire env) st = (tt, st1, l1)
             ∧ at_staging (files st1) = at_staging (files st)
             ∧ (os_Rename (ok_renameStaging env) Staging Active st1).1
               = (promoteStep env st).1
             ∧ (∀ e, (backupStep env st).1 = Err e →
                     Logf "Warning: failed to backup active index: %v" [ArgErr e] ∈ l1)
             ∧ Logf "  Reopening active index..." [] ∉ l1).
  { destruct (swap_retire_exact env st) as (st1 & Hrun & Hfiles).
    destruct (swap_retire_run env st) as (st1' & l1' & Hrun' & Hstaging & _).
    rewrite Hrun in Hrun'. injection Hrun' as <- <-.
    eexists _, _. split; [exact Hrun |]. split; [exact Hstaging |].
    split; [apply (os_Rename_files _ _ _ _ _ Hfiles) |]. split.
    - intros e ->. rewrite !elem_of_app. right. right. apply list_elem_of_here.
    - apply not_in_log. rewrite !Forall_app. repeat split.
      + repeat constructor; discriminate.
      + destruct (os_RemoveAll _ _ _).1; repeat constructor; discriminate.
      + destruct (backupStep env st).1; repeat constructor; discriminate. }
  destruct Hrun as (st1 & l1 & Hretire & Hstaging & Hmove & Hwarn & Hquiet).
  split.
  - intros e He. unfold atomicSwap, log_of, result_of. unbind. rewrite Hretire.
    destruct (swap_promote_starts env st1) as (l2 & Hl2).
    pose proof (swap_promote_completes env st1) as Hdone.
    unfold log_of, result_of in Hl2, Hdone.
    destruct (run (swap_promote env) st1) as [[r st2] l]. simpl in *. subst l.
    split; [| split].
    + apply elem_of_app. left. by apply Hwarn.
    + apply elem_of_app. right. apply list_elem_of_here.
    + intros g Hg Hok Hopen Hnew. apply (Hdone g); [congruence | congruence | done | done].
  - intros e He. unfold atomicSwap, log_of, result_of. unbind. rewrite Hretire.
    destruct (swap_promote_aborts env st1 e) as (st' & ->); [congruence |].
    simpl. split; [reflexivity |].
    intros [Hin | Hin]%elem_of_app; [by apply Hquiet |].
    apply list_elem_of_singleton in Hin. discriminate Hin.
Qed.

(** A rebuild that reached the swap returns the error of a failed move,
    wrapped, whatever made the move fail. *)
Lemma IndexDocuments_move_failure env docs st e :
  Logf "Performing atomic index swap..." [] ∈ log_of (run (IndexDocuments env docs) st) →
  (promoteStep env (atSwap env docs st)).1 = Err e →
  result_of (run (IndexDocuments env docs) st)
  = Err (Errorf "failed to atomic swap indices"
           (Errorf "failed to move staging index to active" e)).
Proof.
  intros Hreached Hmove.
  destruct (IndexDocuments_cases env docs st)
    as [(msg & e' & _ & _ & _ & _ & _ & Hlog) | (_ & ->)]; [done |].
  destruct (atomicSwap_policy env (atSwap env docs st)) as (_ & Habort).
  destruct (Habort e Hmove) as (-> & _). reflexivity.
Qed.

(** C6: in the swap, a failure of step (3), moving the active generation
    to the backup location, is logged as a warning and the swap goes on to
    step (4); the swap still succeeds when the later steps do.  A failure of
    step (4), moving staging to the active location, ends the swap with an
    error before any later step, and a rebuild that reached the swap
    returns that error, wrapped, to its caller, whatever made the move
    fail: the environment, or the state of the index directory at the
    swap. *)
Theorem swap_failure_policy (env : Env) (st : State) :
  (∀ e, (backupStep env st).1 = Err e →
        Logf "Warning: failed to backup active index: %v" [ArgErr e]
          ∈ log_of (run (atomicSwap env) st)
        ∧ Logf "  Swapping staging to active..." [] ∈ log_of (run (atomicSwap env) st)
        ∧ ∀ g, at_staging (files st) = IndexDir g →
               (promoteStep env st).1 = Ok tt →
               ok_reopenActive env = true → ok_newStagingAfter env = true →
               result_of (run (atomicSwap env) st) = Ok tt)
  ∧ (∀ e, (promoteStep env st).1 = Err e →
          result_of (run (atomicSwap env) st)
          = Err (Errorf "failed to move staging index to active" e)
          ∧ Logf "  Reopening active index..." [] ∉ log_of (run (atomicSwap env) st))
  ∧ (∀ docs e,
        Logf "Performing atomic index swap..." []
          ∈ log_of (run (IndexDocuments env docs) st) →
        (promoteStep env (atSwap env docs st)).1 = Err e →
        result_of (run (IndexDocuments env docs) st)
        = Err (Errorf "failed to atomic swap indices"
                 (Errorf "failed to move staging index to active" e)))
  ∧ (∀ docs,
        ok_renameStaging env = false →
        Logf "Performing atomic index swap..." []
          ∈ log_of (run (IndexDocuments env docs) st) →
        result_of (run (IndexDocuments env docs) st)
        = Err (Errorf "failed to atomic swap indices"
                 (Errorf "failed to move staging index to active" (ErrEnv "Rename")))).
Proof.
  destruct (atomicSwap_policy env st) as [Hbackup Hmove].
  split; [exact Hbackup |]. split; [exact Hmove |]. split.
  - intros docs e. apply IndexDocuments_move_failure.
  - intros docs Hno Hreached.
    destruct (IndexDocuments_surfaces_swap_error env docs st Hreached) as (st2 & Hres).
    rewrite (atomicSwap_aborts_without_rename env st2 Hno) in Hres. exact Hres.
Qed.

Lemma swap_failure_policy_witness :
  (Logf "Warning: failed to backup active index: %v" [ArgErr ErrNotExist]
     ∈ log_of (run (atomicSwap Scenario.allOk) Scenario.lostActive)
   ∧ result_of (run (atomicSwap Scenario.allOk) Scenario.lostActive) = Ok tt)
  ∧ result_of (run (atomicSwap Scenario.noMove) Scenario.serving)
    = Err (Errorf "failed to move staging index to active" (ErrEnv "Rename"))
  ∧ result_of (run (IndexDocuments Scenario.noMove Scenario.three) Scenario.serving)
    = Err (Errorf "failed to atomic swap indices"
             (Errorf "failed to move staging index to active" (ErrEnv "Rename")))
  ∧ (ok_renameStaging Scenario.noBackup = true
     ∧ result_of (run (IndexDocuments Scenario.noBackup Scenario.three) Scenario.serving)
       = Err (Errorf "failed to atomic swap indices"
                (Errorf "failed to move staging index to active" ErrNotEmpty))).
Proof.
  split; [| split; [| split]].
  - destruct (swap_failure_policy Scenario.allOk Scenario.lostActive) as [H _].
    destruct (H ErrNotExist) as (Hwarn & _ & Hok); [vm_compute; reflexivity |].
    split; [exact Hwarn |].
    apply (Hok ∅); vm_compute; reflexivity.
  - destruct (swap_failure_policy Scenario.noMove Scenario.serving) as (_ & H & _).
    apply (H (ErrEnv "Rename")). vm_compute. reflexivity.
  - destruct (swap_failure_policy Scenario.noMove Scenario.serving) as (_ & _ & _ & H).
    apply (H Scenario.three); [reflexivity |].
    vm_compute. repeat first [apply list_elem_of_here | apply list_elem_of_further].
  - split; [reflexivity |].
    destruct (swap_failure_policy Scenario.noBackup Scenario.serving) as (_ & _ & H & _).
    apply (H Scenario.three ErrNotEmpty).
    + vm_compute. repeat first [apply list_elem_of_here | apply list_elem_of_further].
    + vm_compute. reflexivity.
Defined.


(** * The QueryEngine: filters, cap and limit *)

Lemma passesFilters_spec req doc :
  passesFilters req doc = true →
  (req_Version req ≠ "" → doc_Version doc = req_Version req)
  ∧ (req_Section req ≠ "" → doc_Section doc = req_Section req)
  ∧ (req_Platform req ≠ "" → doc_Platform doc = req_Platform req).
Proof.
  unfold passesFilters. rewrite !andb_true_iff, !negb_true_iff, !andb_false_iff.
  rewrite !bool_decide_eq_false. intros [[Hv Hs] Hp].
  repeat split; intros Hne.
  - destruct Hv as [Hv | Hv]; [done |]. by apply dec_stable.
  - destruct Hs as [Hs | Hs]; [done |]. by apply dec_stable.
  - destruct Hp as [Hp | Hp]; [done |]. by apply dec_stable.
Qed.

Lemma length_take_le {A : Type} (n : nat) (l : list A) : (length (take n l) ≤ n)%nat.
Proof. rewrite length_take. lia. Qed.

Lemma string_length_append (s1 s2 : string) :
  String.length (s1 +:+ s2) = (String.length s1 + String.length s2)%nat.
Proof. induction s1 as [| c s1 IH]; simpl; [done | by rewrite IH]. Qed.

Lemma string_length_take (n : nat) :
  ∀ s, (n ≤ String.length s)%nat → String.length (Strings.take n s) = n.
Proof.
  induction n as [| n IH]; intros s Hn; [by destruct s |].
  destruct s as [| c s]; simpl in *; [lia |]. rewrite IH; lia.
Qed.

Lemma len_truncated (content : string) :
  10000 < Strings.len content →
  Strings.len (Strings.upto 10000 content +:+ truncationMarker)
  = 10000 + Strings.len truncationMarker.
Proof.
  unfold Strings.len, Strings.upto. intros H.
  rewrite string_length_append, string_length_take by lia. lia.
Qed.

Section QueryClaims.

Variable bleveMatch : gmap string StoredDoc → string → list Hit.

(** C3: every document [Search] returns agrees with each filter the
    request supplies, and [Total] is the number of matches of the query
    in the active index, counted before the filters: the results are
    never more than that. *)
Theorem Search_filters_results_not_total
    (senv : SearchEnv) (req : SearchRequest) (st : State) (r : SearchResponse)
    (Hresp : result_of (run (Search bleveMatch senv req) st) = Response r) :
  (∀ res, res ∈ resp_Results r →
     (req_Version req ≠ "" → doc_Version (res_Document res) = req_Version req)
     ∧ (req_Section req ≠ "" → doc_Section (res_Document res) = req_Section req)
     ∧ (req_Platform req ≠ "" → doc_Platform (res_Document res) = req_Platform req))
  ∧ ∃ matches,
      activeMatches bleveMatch st (req_Query req) = Some matches
      ∧ resp_Total r = Z.of_nat (length matches)
      ∧ Z.of_nat (length (resp_Results r)) ≤ resp_Total r.
Proof.
  destruct (Search_response bleveMatch senv req st r Hresp)
    as (matches & Hm & Htotal & _ & Hlen & Hall).
  split.
  - intros res Hin. rewrite Forall_forall in Hall.
    destruct (Hall res Hin) as [Hpass _]. by apply passesFilters_spec.
  - exists matches. repeat split; [done | done |].
    rewrite Htotal. rewrite length_take in Hlen. lia.
Qed.

(** C4: the content of every document [Search] returns is the content it
    started from (the in-memory document's, else the stored one), cut to
    its first 10000 bytes with the marker appended when it was longer, so
    of length 10000 plus the marker's exactly, and unchanged otherwise. *)
Theorem Search_caps_content
    (senv : SearchEnv) (req : SearchRequest) (st : State) (r : SearchResponse)
    (Hresp : result_of (run (Search bleveMatch senv req) st) = Response r) :
  ∀ res, res ∈ resp_Results r →
    ∃ hit content,
      res_Score res = hit_Score hit
      ∧ sourceContent st (hit_ID hit) = Some content
      ∧ (10000 < Strings.len content →
           doc_Content (res_Document res)
           = Strings.upto 10000 content +:+ truncationMarker
           ∧ Strings.len (doc_Content (res_Document res))
             = 10000 + Strings.len truncationMarker)
      ∧ (Strings.len content ≤ 10000 → doc_Content (res_Document res) = content).
Proof.
  destruct (Search_response bleveMatch senv req st r Hresp)
    as (matches & _ & _ & _ & _ & Hall).
  intros res Hin. rewrite Forall_forall in Hall.
  destruct (Hall res Hin) as (_ & hit & _ & Hscore & Hres).
  unfold resolvedFrom in Hres. unfold sourceContent.
  destruct (se_documents (engine st) !! hit_ID hit) as [doc |] eqn:Hdoc.
  - exists hit, (doc_Content doc). rewrite Hdoc, Hres. unfold fromMemory.
    split; [done |]. split; [done |]. split; intros Hlen.
    + rewrite (proj2 (Z.ltb_lt _ _) Hlen). simpl.
      split; [done | by apply len_truncated].
    + by rewrite (proj2 (Z.ltb_ge _ _) Hlen).
  - destruct Hres as (h & m & sd & -> & -> & Hsd & ->).
    exists hit, (st_content sd). rewrite Hdoc, Hsd. simpl.
    split; [done |]. split; [done |]. split; intros Hlen.
    + rewrite (proj2 (Z.ltb_lt _ _) Hlen).
      split; [done | by apply len_truncated].
    + by rewrite (proj2 (Z.ltb_ge _ _) Hlen).
Qed.

(** C5: a request whose limit is zero or above five is searched with the
    limit five, and a request whose limit is one to five with that limit
    as it is; the limit passed to the index is never above five; every
    result comes from one of the first matches within that limit, and the
    result list is never longer than the limit, so never longer than
    five. *)
Theorem Search_limit_ceiling (senv : SearchEnv) (req : SearchRequest) (st : State) :
  (req_Limit req = 0 ∨ 5 < req_Limit req → effectiveLimit req = 5)
  ∧ (1 ≤ req_Limit req ≤ 5 → effectiveLimit req = req_Limit req)
  ∧ effectiveLimit req ≤ 5
  ∧ ∀ r, result_of (run (Search bleveMatch senv req) st) = Response r →
         (length (resp_Results r) ≤ Z.to_nat (effectiveLimit req))%nat
         ∧ (length (resp_Results r) ≤ 5)%nat
         ∧ ∃ matches,
             activeMatches bleveMatch st (req_Query req) = Some matches
             ∧ ∀ res, res ∈ resp_Results r →
                 ∃ hit, hit ∈ take (Z.to_nat (effectiveLimit req)) matches
                        ∧ res_Score res = hit_Score hit
                        ∧ resolvedFrom st hit (res_Document res).
Proof.
  assert (Hle : effectiveLimit req ≤ 5).
  { unfold effectiveLimit.
    destruct (req_Limit req =? 0) eqn:H0; simpl; [lia |].
    destruct (5 <? req_Limit req) eqn:H5; [lia |].
    apply Z.ltb_ge in H5. lia. }
  split; [| split; [| split; [exact Hle |]]].
  - unfold effectiveLimit. intros [-> | H5]; [reflexivity |].
    apply Z.ltb_lt in H5. rewrite H5. by rewrite orb_true_r.
  - unfold effectiveLimit. intros [H1 H5].
    rewrite (proj2 (Z.eqb_neq _ _)) by lia.
    by rewrite (proj2 (Z.ltb_ge _ _)) by lia.
  - intros r Hresp.
    destruct (Search_response bleveMatch senv req st r Hresp)
      as (matches & Hm & _ & _ & Hlen & Hall).
    pose proof (length_take_le (Z.to_nat (effectiveLimit req)) matches).
    split; [lia |]. split; [lia |].
    exists matches. split; [exact Hm |].
    intros res Hin. rewrite Forall_forall in Hall.
    by destruct (Hall res Hin) as [_ Hhit].
Qed.

End QueryClaims.

Lemma Search_filters_results_not_total_witness :
  (∀ res, res ∈ resp_Results (Scenario.responseOf (result_of
             (run (Search Scenario.substringMatch Scenario.searchOk
                     (mkSearchRequest "installer" "v1.8" "" "" [] 0))
                Scenario.serving))) →
          doc_Version (res_Document res) = "v1.8")
  ∧ resp_Total (Scenario.responseOf (result_of
        (run (Search Scenario.substringMatch Scenario.searchOk
                (mkSearchRequest "installer" "v1.8" "" "" [] 0))
           Scenario.serving))) = 3
  ∧ length (resp_Results (Scenario.responseOf (result_of
        (run (Search Scenario.substringMatch Scenario.searchOk
                (mkSearchRequest "installer" "v1.8" "" "" [] 0))
           Scenario.serving)))) = 2%nat.
Proof.
  pose proof (Search_filters_results_not_total Scenario.substringMatch Scenario.searchOk
                (mkSearchRequest "installer" "v1.8" "" "" [] 0) Scenario.serving
                (Scenario.responseOf (result_of
                   (run (Search Scenario.substringMatch Scenario.searchOk
                           (mkSearchRequest "installer" "v1.8" "" "" [] 0))
                      Scenario.serving)))) as H.
  destruct H as [Hfilter _]; [vm_compute; reflexivity |].
  split; [| split; vm_compute; reflexivity].
  intros res Hin. apply (Hfilter res Hin). discriminate.
Defined.

Lemma Search_caps_content_witness :
  ∃ hit content,
    res_Score (Scenario.firstResult Scenario.longResponse) = hit_Score hit
    ∧ sourceContent Scenario.servingLong (hit_ID hit) = Some content
    ∧ (10000 < Strings.len content →
         doc_Content (res_Document (Scenario.firstResult Scenario.longResponse))
         = Strings.upto 10000 content +:+ truncationMarker
         ∧ Strings.len (doc_Content (res_Document (Scenario.firstResult Scenario.longResponse)))
           = 10000 + Strings.len truncationMarker)
    ∧ (Strings.len content ≤ 10000 →
         doc_Content (res_Document (Scenario.firstResult Scenario.longResponse)) = content).
Proof.
  apply (Search_caps_content Scenario.substringMatch Scenario.searchOk
           (mkSearchRequest "0123" "" "" "" [] 0) Scenario.servingLong
           Scenario.longResponse).
  - vm_compute. reflexivity.
  - vm_compute. apply list_elem_of_here.
Defined.

Lemma Search_limit_ceiling_witness :
  effectiveLimit (mkSearchRequest "installer" "" "" "" [] 20) = 5
  ∧ length (resp_Results (Scenario.responseOf (result_of
        (run (Search Scenario.substringMatch Scenario.searchOk
                (mkSearchRequest "installer" "" "" "" [] 20))
           Scenario.servingSeven)))) = 5%nat
  ∧ effectiveLimit (mkSearchRequest "installer" "" "" "" [] 3) = 3
  ∧ length (resp_Results (Scenario.responseOf (result_of
        (run (Search Scenario.substringMatch Scenario.searchOk
                (mkSearchRequest "installer" "" "" "" [] 3))
           Scenario.servingSeven)))) = 3%nat
  ∧ resp_Total (Scenario.responseOf (result_of
        (run (Search Scenario.substringMatch Scenario.searchOk
                (mkSearchRequest "installer" "" "" "" [] 3))
           Scenario.servingSeven))) = 7.
Proof.
  destruct (Search_limit_ceiling Scenario.substringMatch Scenario.searchOk
              (mkSearchRequest "installer" "" "" "" [] 20) Scenario.servingSeven)
    as (Hclamp & _ & _ & Hlen).
  destruct (Search_limit_ceiling Scenario.substringMatch Scenario.searchOk
              (mkSearchRequest "installer" "" "" "" [] 3) Scenario.servingSeven)
    as (_ & Hgiven & _ & Hlen3).
  split; [apply Hclamp; right; reflexivity |].
  destruct (Hlen (Scenario.responseOf (result_of
        (run (Search Scenario.substringMatch Scenario.searchOk
                (mkSearchRequest "installer" "" "" "" [] 20))
           Scenario.servingSeven)))) as (_ & H5 & _); [vm_compute; reflexivity |].
  split; [vm_compute; reflexivity |].
  split; [apply Hgiven; simpl; lia |].
  destruct (Hlen3 (Scenario.responseOf (result_of
        (run (Search Scenario.substringMatch Scenario.searchOk
                (mkSearchRequest "installer" "" "" "" [] 3))
           Scenario.servingSeven)))) as (H3 & _); [vm_compute; reflexivity |].
  split; vm_compute; reflexivity.
Defined.

(** * GetTaxonomy returns a copy *)

Lemma copyMap_id (m : gmap string bool) : copyMap m = m.
Proof.
  unfold copyMap.
  apply (map_fold_weak_ind (fun r m => r = m)); [done |].
  intros k v m' r _ ->. done.
Qed.

Lemma copy_entries_fold (dst : Heap.loc) (h : Heap.heap) (d : gmap string bool) :
  Heap.maps h !! dst = Some d →
  ∀ m, map_fold (fun k v h' => Heap.store dst k v h') h m
       = Heap.mkHeap (Heap.structs h) (<[dst := m ∪ d]> (Heap.maps h)).
Proof.
  intros Hd m.
  apply (map_fold_weak_ind
           (fun r m => r = Heap.mkHeap (Heap.structs h) (<[dst := m ∪ d]> (Heap.maps h)))).
  - rewrite (left_id_L ∅ (∪)), insert_id by done. by destruct h.
  - intros k v m' r Hk ->. unfold Heap.store. simpl. f_equal.
    rewrite alter_insert_eq. by rewrite insert_union_l.
Qed.

Lemma copy_entries_fresh (src dst : Heap.loc) (h : Heap.heap) (m : gmap string bool) :
  Heap.maps h !! src = Some m →
  Heap.maps h !! dst = Some ∅ →
  Heap.copy_entries src dst h = Heap.mkHeap (Heap.structs h) (<[dst := m]> (Heap.maps h)).
Proof.
  intros Hsrc Hdst. unfold Heap.copy_entries. rewrite Hsrc.
  rewrite (copy_entries_fold dst h ∅ Hdst). by rewrite (right_id_L ∅ (∪)).
Qed.

Lemma preserved_refl h : Heap.preserved h h.
Proof. by split. Qed.

Lemma preserved_view h h' p t :
  Heap.preserved h h' → Heap.view h p = Some t → Heap.view h' p = Some t.
Proof.
  intros [Hs Hm]. unfold Heap.view.
  destruct (Heap.structs h !! p) as [s |] eqn:Hp; simpl; [| done].
  rewrite (Hs _ _ Hp). simpl.
  destruct (Heap.maps h !! Heap.ref_Versions s) as [v |] eqn:Hv; simpl; [| done].
  destruct (Heap.maps h !! Heap.ref_Sections s) as [s' |] eqn:Hs'; simpl; [| done].
  destruct (Heap.maps h !! Heap.ref_Platforms s) as [p' |] eqn:Hp'; simpl; [| done].
  destruct (Heap.maps h !! Heap.ref_Tags s) as [t' |] eqn:Ht'; simpl; [| done].
  rewrite (Hm _ _ Hv), (Hm _ _ Hs'), (Hm _ _ Hp'), (Hm _ _ Ht'). done.
Qed.

(** A mutation through a pointer whose objects are apart from those of
    [h0] leaves the objects of [h0] as they are, and the pointer's objects
    apart. *)
Lemma mutate_preserves h0 h t mu :
  Heap.preserved h0 h → Heap.separate h0 h t →
  Heap.preserved h0 (Heap.mutate t h mu) ∧ Heap.separate h0 (Heap.mutate t h mu) t.
Proof.
  intros [Hs Hm] (Ht & s & Hts & Hfields).
  unfold Heap.mutate. rewrite Hts.
  destruct mu as [f k v | f k | f]; simpl.
  - split.
    + split; [exact Hs |]. intros l m Hl. simpl.
      rewrite lookup_alter_ne; [by apply Hm |].
      intros <-. rewrite (Hfields f) in Hl. discriminate Hl.
    + split; [exact Ht |]. exists s. split; [exact Hts | exact Hfields].
  - split.
    + split; [exact Hs |]. intros l m Hl. simpl.
      rewrite lookup_alter_ne; [by apply Hm |].
      intros <-. rewrite (Hfields f) in Hl. discriminate Hl.
    + split; [exact Ht |]. exists s. split; [exact Hts | exact Hfields].
  - assert (Hfresh : Heap.maps h !! fresh (dom (Heap.maps h)) = None).
    { apply not_elem_of_dom. apply is_fresh. }
    split.
    + split; simpl.
      * intros l s' Hl. rewrite lookup_insert_ne; [by apply Hs |].
        intros <-. rewrite Ht in Hl. discriminate Hl.
      * intros l m Hl. rewrite lookup_insert_ne; [by apply Hm |].
        intros <-. rewrite (Hm _ _ Hl) in Hfresh. discriminate Hfresh.
    + split; [exact Ht |]. exists (Heap.set_field f (fresh (dom (Heap.maps h))) s).
      split; [simpl; apply lookup_insert_eq |].
      assert (Hnew : Heap.maps h0 !! fresh (dom (Heap.maps h)) = None).
      { destruct (Heap.maps h0 !! fresh (dom (Heap.maps h))) as [m |] eqn:Hl; [| done].
        rewrite (Hm _ _ Hl) in Hfresh. discriminate Hfresh. }
      intros f'. destruct f, f'; simpl; first [exact Hnew | apply (Hfields Heap.Versions)
        | apply (Hfields Heap.Sections) | apply (Hfields Heap.Platforms)
        | apply (Hfields Heap.Tags)].
Qed.

Lemma mutations_preserve h0 t muts :
  ∀ h, Heap.preserved h0 h → Heap.separate h0 h t →
       Heap.preserved h0 (foldl (Heap.mutate t) h muts).
Proof.
  induction muts as [| mu muts IH]; intros h Hp Hsep; simpl; [exact Hp |].
  destruct (mutate_preserves h0 h t mu Hp Hsep) as [Hp' Hsep']. by apply IH.
Qed.

(** The copy loops, for a struct and four maps that are new. *)
Lemma copies_spec (S : gmap Heap.loc Heap.TaxonomyStruct)
    (M : gmap Heap.loc (gmap string bool))
    (l1 l2 l3 l4 q : Heap.loc) (src : Heap.TaxonomyStruct)
    (versions sections platforms tags : gmap string bool) :
  M !! l1 = None → M !! l2 = None → M !! l3 = None → M !! l4 = None →
  l1 ≠ l2 → l1 ≠ l3 → l1 ≠ l4 → l2 ≠ l3 → l2 ≠ l4 → l3 ≠ l4 →
  S !! q = None →
  M !! Heap.ref_Versions src = Some versions →
  M !! Heap.ref_Sections src = Some sections →
  M !! Heap.ref_Platforms src = Some platforms →
  M !! Heap.ref_Tags src = Some tags →
  let h0 := Heap.mkHeap S M in
  let h := Heap.mkHeap (<[q := Heap.mkStruct l1 l2 l3 l4]> S)
             (<[l4 := ∅]> (<[l3 := ∅]> (<[l2 := ∅]> (<[l1 := ∅]> M)))) in
  let h' := Heap.copy_entries (Heap.ref_Tags src) l4
              (Heap.copy_entries (Heap.ref_Platforms src) l3
                 (Heap.copy_entries (Heap.ref_Sections src) l2
                    (Heap.copy_entries (Heap.ref_Versions src) l1 h))) in
  Heap.view h' q = Some (mkTaxonomy versions sections platforms tags)
  ∧ Heap.preserved h0 h' ∧ Heap.separate h0 h' q.
Proof.
  intros H1 H2 H3 H4 H12 H13 H14 H23 H24 H34 Hq Hv Hs Hp Ht h0 h h'.
  assert (Hne : ∀ l m, M !! l = Some m → l ≠ l1 ∧ l ≠ l2 ∧ l ≠ l3 ∧ l ≠ l4).
  { intros l m Hl. repeat split; intros ->; congruence. }
  destruct (Hne _ _ Hv) as (Hv1 & Hv2 & Hv3 & Hv4).
  destruct (Hne _ _ Hs) as (Hs1 & Hs2 & Hs3 & Hs4).
  destruct (Hne _ _ Hp) as (Hp1 & Hp2 & Hp3 & Hp4).
  destruct (Hne _ _ Ht) as (Ht1 & Ht2 & Ht3 & Ht4).
  subst h'. unfold h.
  rewrite (copy_entries_fresh _ l1 _ versions) by (simpl; by simplify_map_eq).
  rewrite (copy_entries_fresh _ l2 _ sections) by (simpl; by simplify_map_eq).
  rewrite (copy_entries_fresh _ l3 _ platforms) by (simpl; by simplify_map_eq).
  rewrite (copy_entries_fresh _ l4 _ tags) by (simpl; by simplify_map_eq).
  simpl. split; [| split].
  - unfold Heap.view. simpl. rewrite lookup_insert_eq. simpl.
    by simplify_map_eq.
  - split; simpl.
    + intros l s Hl. rewrite lookup_insert_ne; [done |]. intros <-. congruence.
    + intros l m Hl. destruct (Hne _ _ Hl) as (? & ? & ? & ?). by simplify_map_eq.
  - split; [exact Hq |]. exists (Heap.mkStruct l1 l2 l3 l4). simpl.
    split; [apply lookup_insert_eq |]. intros []; done.
Qed.

Lemma Heap_GetTaxonomy_spec (h : Heap.heap) (p : Heap.loc) (t : ContentTaxonomy) :
  Heap.view h p = Some t →
  ∃ q h', Heap.GetTaxonomy p h = Some (q, h')
          ∧ Heap.view h' q = Some t
          ∧ Heap.preserved h h' ∧ Heap.separate h h' q.
Proof.
  unfold Heap.view, Heap.GetTaxonomy. destruct h as [S M]. simpl.
  destruct (S !! p) as [src |]; simpl; [| discriminate].
  destruct (M !! Heap.ref_Versions src) as [versions |] eqn:Hv; simpl; [| discriminate].
  destruct (M !! Heap.ref_Sections src) as [sections |] eqn:Hs; simpl; [| discriminate].
  destruct (M !! Heap.ref_Platforms src) as [platforms |] eqn:Hp; simpl; [| discriminate].
  destruct (M !! Heap.ref_Tags src) as [tags |] eqn:Ht; simpl; [| discriminate].
  intros [= <-].
  unfold Heap.make_map, Heap.new_struct. simpl.
  set (l1 := fresh (dom M)).
  set (l2 := fresh (dom (<[l1 := ∅]> M))).
  set (l3 := fresh (dom (<[l2 := ∅]> (<[l1 := ∅]> M)))).
  set (l4 := fresh (dom (<[l3 := ∅]> (<[l2 := ∅]> (<[l1 := ∅]> M))))).
  set (q := fresh (dom S)).
  assert (H1 : M !! l1 = None) by (apply not_elem_of_dom, is_fresh).
  assert (H2 : <[l1 := ∅]> M !! l2 = None) by (apply not_elem_of_dom, is_fresh).
  assert (H3 : <[l2 := ∅]> (<[l1 := ∅]> M) !! l3 = None)
    by (apply not_elem_of_dom, is_fresh).
  assert (H4 : <[l3 := ∅]> (<[l2 := ∅]> (<[l1 := ∅]> M)) !! l4 = None)
    by (apply not_elem_of_dom, is_fresh).
  assert (Hq : S !! q = None) by (apply not_elem_of_dom, is_fresh).
  clearbody l1 l2 l3 l4 q.
  apply lookup_insert_None in H2 as [H2 H12].
  apply lookup_insert_None in H3 as [H3 H23].
  apply lookup_insert_None in H3 as [H3 H13].
  apply lookup_insert_None in H4 as [H4 H34].
  apply lookup_insert_None in H4 as [H4 H24].
  apply lookup_insert_None in H4 as [H4 H14].
  eexists _, _. split; [reflexivity |].
  by apply copies_spec.
Qed.

(** C10: [GetTaxonomy] returns the entries of the engine's taxonomy and
    leaves the engine's state as it was.  On the heap, the value returned
    is a new struct with four new maps that hold the same entries; the call
    changes no object that existed before it, and no sequence of stores,
    deletes and map replacements through the value returned changes one
    either, so the engine's taxonomy reads the same afterwards. *)
Theorem GetTaxonomy_returns_copy (st : State) (h : Heap.heap) (p : Heap.loc)
    (Hengine : Heap.view h p = Some (se_taxonomy (engine st))) :
  result_of (run GetTaxonomy st) = se_taxonomy (engine st)
  ∧ state_of (run GetTaxonomy st) = st
  ∧ ∃ q h',
      Heap.GetTaxonomy p h = Some (q, h')
      ∧ Heap.view h' q = Some (se_taxonomy (engine st))
      ∧ Heap.separate h h' q
      ∧ Heap.preserved h h'
      ∧ Heap.view h' p = Some (se_taxonomy (engine st))
      ∧ ∀ muts,
          Heap.preserved h (foldl (Heap.mutate q) h' muts)
          ∧ Heap.view (foldl (Heap.mutate q) h' muts) p
            = Some (se_taxonomy (engine st)).
Proof.
  split; [| split].
  - unfold GetTaxonomy, result_of. simpl. rewrite !copyMap_id.
    by destruct (se_taxonomy (engine st)).
  - reflexivity.
  - destruct (Heap_GetTaxonomy_spec h p _ Hengine) as (q & h' & Hcall & Hview & Hpres & Hsep).
    exists q, h'.
    split; [exact Hcall |]. split; [exact Hview |]. split; [exact Hsep |].
    split; [exact Hpres |]. split; [by apply (preserved_view h h') |].
    intros muts. split; [by apply mutations_preserve |].
    apply (preserved_view h); [| done]. by apply mutations_preserve.
Qed.

Lemma GetTaxonomy_returns_copy_witness :
  result_of (run GetTaxonomy Scenario.serving) = se_taxonomy (engine Scenario.serving)
  ∧ ∃ q h',
      Heap.GetTaxonomy 1%positive (Scenario.heapOf (se_taxonomy (engine Scenario.serving)))
      = Some (q, h')
      ∧ Heap.view (foldl (Heap.mutate q) h' Scenario.meddling) 1%positive
        = Some (se_taxonomy (engine Scenario.serving)).
Proof.
  destruct (GetTaxonomy_returns_copy Scenario.serving
              (Scenario.heapOf (se_taxonomy (engine Scenario.serving))) 1%positive)
    as (Hsame & _ & q & h' & Hcall & _ & _ & _ & _ & Hmuts).
  - destruct (se_taxonomy (engine Scenario.serving)). reflexivity.
  - split; [exact Hsame |]. exists q, h'. split; [exact Hcall |].
    apply (Hmuts Scenario.meddling).
Defined.

(** * Interleaved calls: a query runs before the rebuild or after it *)

Import Concurrent Invariant.

Lemma run_printf {A : Type} (e : LogEvent) (k : Prog A) (s : State) :
  result_of (run (Printf e k) s) = result_of (run k s)
  ∧ state_of (run (Printf e k) s) = state_of (run k s).
Proof. unfold result_of, state_of. simpl. by destruct (run k s) as [[a s'] l]. Qed.

Lemma run_act {A R : Type} (op : State → R * State) (k : R → Prog A) (s : State) :
  run (Act op k) s = run (k (op s).1) (op s).2.
Proof. simpl. by destruct (op s). Qed.

Lemma settled_run {A : Type} (p : Prog A) :
  settled p →
  ∀ s, state_of (run p s) = s ∧ ∀ s', result_of (run p s) = result_of (run p s').
Proof.
  induction 1 as [a | e k Hk IH]; intros s.
  - split; [reflexivity |]. intros s'. reflexivity.
  - destruct (IH s) as [Hstate Hresult].
    destruct (run_printf e k s) as [-> ->]. split; [exact Hstate |].
    intros s'. destruct (run_printf e k s') as [-> _]. apply Hresult.
Qed.

(** A step of a goroutine does not change what the rest of its program
    will return and reach, when nothing else moves in between. *)
Lemma thread_step_run {A : Type} (p p' : Prog A) (s s' : State) (m m' : Mutex)
    (l : list LogEvent) :
  thread_step p s m = Some (p', s', m', l) →
  result_of (run p s) = result_of (run p' s')
  ∧ state_of (run p s) = state_of (run p' s').
Proof.
  destruct p as [a | R op k | e k | o k]; simpl.
  - discriminate.
  - destruct (op s) as [r s1]. intros [= <- <- <- <-]. done.
  - intros [= <- <- <- <-]. apply (run_printf e k s).
  - destruct (mutex_step o m); [| discriminate]. intros [= <- <- <- <-]. done.
Qed.

Lemma count_true_insert (flags : list bool) :
  ∀ (i : nat) (b b' : bool), flags !! i = Some b →
    (count_true (<[i := b']> flags) + (if b then 1 else 0)
     = count_true flags + (if b' then 1 else 0))%nat.
Proof.
  induction flags as [| f flags IH]; intros i b b' Hi; [discriminate |].
  destruct i as [| i]; simpl in *.
  - injection Hi as ->. destruct b, b'; simpl; lia.
  - specialize (IH i b b' Hi). destruct f; simpl; lia.
Qed.

Lemma count_true_zero (flags : list bool) :
  count_true flags = 0%nat → ∀ i b, flags !! i = Some b → b = false.
Proof.
  induction flags as [| f flags IH]; intros H0 i b Hi; [discriminate |].
  destruct f; simpl in H0; [discriminate |].
  destruct i as [| i]; simpl in Hi; [by injection Hi as <- | by apply (IH H0 i)].
Qed.

Lemma count_true_pos (flags : list bool) (i : nat) :
  flags !! i = Some true → (0 < count_true flags)%nat.
Proof.
  revert i. induction flags as [| f flags IH]; intros i Hi; [discriminate |].
  destruct i as [| i]; simpl in Hi.
  - injection Hi as ->. simpl. lia.
  - specialize (IH i Hi). destruct f; simpl; lia.
Qed.

(** A query that does not hold the read lock does not care what the
    shared state is. *)
Lemma reader_inv_free st0 st1 s s' R p :
  reader_inv st0 st1 s R p false → reader_inv st0 st1 s' R p false.
Proof.
  inversion 1 as [Hshape Hres | | Hshape Hres]; subst.
  - by apply reader_waiting.
  - apply reader_done; [done |].
    destruct (settled_run p Hshape s) as [_ Hsame]. by rewrite <- (Hsame s').
Qed.

Section Interleaving.

Variables (st0 st1 : State) (Rs : list (Prog SearchOutcome)).

Lemma inv_rebuild_step c p s m l :
  inv st0 st1 Rs c →
  thread_step (rebuild c) (shared c) (mu c) = Some (p, s, m, l) →
  inv st0 st1 Rs (mkConfig s m p (queries c) (printed c ++ l)).
Proof.
  intros [Hw (flags & Hlen & Hlenq & Hcount & Hreaders)] Hstep.
  destruct Hw as [Hshape Hs Hst1 Hfree | Hshape Hst1 Hheld Hnone | Hshape Hs Hfree].
  - remember (rebuild c) as w eqn:Hw.
    destruct Hshape as [k Hk | e k Hk]; simpl in Hstep.
    + destruct (negb (writer (mu c)) && (readers (mu c) =? 0)%nat) eqn:Hgo;
        [| discriminate].
      injection Hstep as <- <- <- <-.
      apply andb_true_iff in Hgo as [_ Hzero]. apply Nat.eqb_eq in Hzero.
      split.
      * apply writer_inside; simpl; [done | | done | done].
        rewrite Hs. exact Hst1.
      * exists flags. simpl. done.
    + injection Hstep as <- <- <- <-. split.
      * apply writer_waiting; simpl; [done | done | | done].
        rewrite <- Hst1. symmetry. apply run_printf.
      * exists flags. simpl. done.
  - remember (rebuild c) as w eqn:Hw.
    destruct Hshape as [k Hk | e k Hk | R op k Hro Hk]; simpl in Hstep.
    + rewrite Hheld in Hstep. injection Hstep as <- <- <- <-. split.
      * apply writer_done; simpl; [done | | done].
        destruct (settled_run k Hk (shared c)) as [Hsame _].
        rewrite <- Hst1. simpl. by rewrite Hsame.
      * exists flags. simpl. done.
    + injection Hstep as <- <- <- <-. split.
      * apply writer_inside; simpl; [done | | done | done].
        rewrite <- Hst1. symmetry. apply run_printf.
      * exists flags. simpl. done.
    + destruct (op (shared c)) as [r s'] eqn:Hop.
      injection Hstep as <- <- <- <-. split.
      * apply writer_inside; simpl; [apply Hk | | done | done].
        rewrite <- Hst1, run_act, Hop. reflexivity.
      * exists flags. simpl. repeat split; [done | done | done |].
        intros i R0 q b HR Hq Hb.
        assert (b = false) as -> by (apply (count_true_zero flags) with i; congruence).
        apply reader_inv_free with (shared c). by apply (Hreaders i).
  - remember (rebuild c) as w eqn:Hw.
    destruct Hshape as [a | e k Hk]; simpl in Hstep; [discriminate |].
    injection Hstep as <- <- <- <-. split.
    + apply writer_done; simpl; done.
    + exists flags. simpl. done.
Qed.

Lemma writer_inv_frame c c' :
  writer_inv st0 st1 c →
  rebuild c' = rebuild c → shared c' = shared c →
  writer (mu c') = writer (mu c) →
  (writer (mu c) = true → readers (mu c') = readers (mu c)) →
  writer_inv st0 st1 c'.
Proof.
  intros Hw Hr Hs Hm Hn.
  destruct Hw as [Hshape Hs0 Hst1 Hfree | Hshape Hst1 Hheld Hnone | Hshape Hs1 Hfree].
  - apply writer_waiting; congruence.
  - apply writer_inside; [congruence | congruence | congruence |].
    rewrite Hn; done.
  - apply writer_done; congruence.
Qed.

Lemma writer_inv_exclusive c :
  writer_inv st0 st1 c → writer (mu c) = true → readers (mu c) = 0%nat.
Proof. intros [? ? ? Hfree | ? ? ? Hnone | ? ? Hfree] Hheld; congruence. Qed.

Lemma writer_inv_unlocked c :
  writer_inv st0 st1 c → writer (mu c) = false → shared c = st0 ∨ shared c = st1.
Proof. intros [? ? ? ? | ? ? Hheld ? | ? ? ?] Hfree; [by left | congruence | by right]. Qed.

Lemma readers_update (flags : list bool) (qs : list (Prog SearchOutcome))
    (i : nat) (p : Prog SearchOutcome) (b' : bool) (s : State) :
  (∀ j R q b, Rs !! j = Some R → qs !! j = Some q → flags !! j = Some b →
              reader_inv st0 st1 s R q b) →
  (i < length qs)%nat → (i < length flags)%nat →
  (∀ R, Rs !! i = Some R → reader_inv st0 st1 s R p b') →
  ∀ j R q b, Rs !! j = Some R → <[i := p]> qs !! j = Some q →
             <[i := b']> flags !! j = Some b → reader_inv st0 st1 s R q b.
Proof.
  intros Hall Hiq Hif Hnew j R q b HR Hq Hb.
  destruct (decide (i = j)) as [<- | Hne].
  - rewrite list_lookup_insert_eq in Hq by done.
    rewrite list_lookup_insert_eq in Hb by done.
    injection Hq as <-. injection Hb as <-. by apply Hnew.
  - rewrite list_lookup_insert_ne in Hq by done.
    rewrite list_lookup_insert_ne in Hb by done.
    by apply (Hall j).
Qed.

Lemma inv_query_step c i q p s m l :
  inv st0 st1 Rs c →
  queries c !! i = Some q →
  thread_step q (shared c) (mu c) = Some (p, s, m, l) →
  inv st0 st1 Rs (mkConfig s m (rebuild c) (<[i := p]> (queries c)) (printed c ++ l)).
Proof.
  intros [Hw (flags & Hlen & Hlenq & Hcount & Hreaders)] Hq Hstep.
  pose proof (lookup_lt_Some _ _ _ Hq) as Hi.
  destruct (lookup_lt_is_Some_2 Rs i) as [R HR]; [lia |].
  destruct (lookup_lt_is_Some_2 flags i) as [b Hb]; [lia |].
  pose proof (Hreaders i R q b HR Hq Hb) as Hinv.
  (* the new flag and the new invariant of the query that moved decide the rest *)
  assert (Hfinish : ∀ b' : bool,
    s = shared c →
    writer (m) = writer (mu c) →
    (writer (mu c) = true → readers m = readers (mu c)) →
    (readers m + (if b then 1 else 0) = readers (mu c) + (if b' then 1 else 0))%nat →
    reader_inv st0 st1 (shared c) R p b' →
    inv st0 st1 Rs (mkConfig s m (rebuild c) (<[i := p]> (queries c)) (printed c ++ l))).
  { intros b' -> Hwm Hrm Hn Hnew. split.
    - by apply (writer_inv_frame c).
    - exists (<[i := b']> flags). simpl.
      rewrite !length_insert. split; [done |]. split; [done |]. split.
      + pose proof (count_true_insert flags i b b' Hb). lia.
      + apply readers_update; [done | lia | lia |].
        intros R' HR'. rewrite HR in HR'. by injection HR' as <-. }
  destruct Hinv as [Hshape Hres | Hshape Hs Hres | Hshape Hres].
  - destruct Hshape as [k Hk | e k Hk]; simpl in Hstep.
    + destruct (writer (mu c)) eqn:Hfree; simpl in Hstep; [discriminate |].
      injection Hstep as <- <- <- <-.
      apply (Hfinish true); simpl; [done | done | done | lia |].
      apply reader_inside; [done | by apply writer_inv_unlocked |].
      rewrite <- Hres. reflexivity.
    + injection Hstep as <- <- <- <-.
      apply (Hfinish false); simpl; [done | done | done | lia |].
      apply reader_waiting; [done |].
      intros st. rewrite <- Hres. symmetry. apply run_printf.
  - destruct Hshape as [k Hk | e k Hk | R' op k Hro Hk]; simpl in Hstep.
    + destruct (readers (mu c)) as [| n] eqn:Hn; [discriminate |].
      injection Hstep as <- <- <- <-.
      apply (Hfinish false); simpl; [done | done | | lia |].
      * intros Hheld. pose proof (writer_inv_exclusive c Hw Hheld). lia.
      * apply reader_done; [done |].
        change (result_of (run k (shared c)))
          with (result_of (run (Sync RUnlock k) (shared c))).
        rewrite Hres. destruct Hs as [-> | ->]; auto.
    + injection Hstep as <- <- <- <-.
      apply (Hfinish true); simpl; [done | done | done | lia |].
      apply reader_inside; [done | done |].
      rewrite <- Hres. symmetry. apply run_printf.
    + pose proof (Hro eq_refl (shared c)) as Hsame.
      destruct (op (shared c)) as [r s'] eqn:Hop. simpl in Hsame. subst s'.
      injection Hstep as <- <- <- <-.
      apply (Hfinish true); simpl; [done | done | done | lia |].
      apply reader_inside; [apply Hk | done |].
      rewrite <- Hres, run_act, Hop. reflexivity.
  - destruct Hshape as [a | e k Hk]; simpl in Hstep; [discriminate |].
    injection Hstep as <- <- <- <-.
    apply (Hfinish false); simpl; [done | done | done | lia |].
    apply reader_done; [done |].
    destruct (run_printf e k (shared c)) as [<- _]. exact Hres.
Qed.

Lemma inv_step c c' : inv st0 st1 Rs c → step c c' → inv st0 st1 Rs c'.
Proof.
  intros Hinv Hstep. destruct Hstep as [c p s m l Hw | c i q p s m l Hq Hr].
  - by apply inv_rebuild_step.
  - by apply (inv_query_step c i q).
Qed.

Lemma inv_steps c c' : inv st0 st1 Rs c → steps c c' → inv st0 st1 Rs c'.
Proof.
  intros Hinv Hsteps. induction Hsteps as [| c1 c2 c3 Hstep _ IH]; [done |].
  apply IH. by apply (inv_step c1).
Qed.

(** What the invariant says of a query that has returned. *)
Lemma inv_returned c i R o :
  inv st0 st1 Rs c → Rs !! i = Some R → queries c !! i = Some (Ret o) →
  o = result_of (run R st0) ∨ o = result_of (run R st1).
Proof.
  intros [_ (flags & Hlen & Hlenq & _ & Hreaders)] HR Hq.
  destruct (lookup_lt_is_Some_2 flags i) as [b Hb].
  { rewrite Hlen. by apply lookup_lt_Some in HR. }
  pose proof (Hreaders i R (Ret o) b HR Hq Hb) as Hinv.
  inversion Hinv as [Hshape _ | Hshape _ _ | _ Hres]; subst.
  - inversion Hshape.
  - inversion Hshape.
  - exact Hres.
Qed.

End Interleaving.

(** * The shape of [IndexDocuments] and of [Search] *)

Lemma quiet_bind {A B : Type} (ro : bool) (p : Prog A) (f : A → Prog B) :
  quiet ro p → (∀ a, quiet ro (f a)) → quiet ro (bind p f).
Proof.
  intros Hp Hf. induction Hp as [a | e k Hk IH | R op k Hro Hk IH]; simpl.
  - apply Hf.
  - by apply quiet_printf.
  - apply quiet_act; [exact Hro | exact IH].
Qed.

Lemma quiet_mbind {A B : Type} (ro : bool) (p : Prog A) (f : A → Prog B) :
  quiet ro p → (∀ a, quiet ro (f a)) → quiet ro (p ≫= f).
Proof. apply quiet_bind. Qed.

Lemma critical_bind {A B : Type} (ro : bool) (release : MutexOp)
    (p : Prog A) (f : A → Prog B) :
  quiet ro p → (∀ a, critical ro release (f a)) → critical ro release (bind p f).
Proof.
  intros Hp Hf. induction Hp as [a | e k Hk IH | R op k Hro Hk IH]; simpl.
  - apply Hf.
  - by apply critical_printf.
  - apply critical_act; [exact Hro | exact IH].
Qed.

Lemma quiet_logf (ro : bool) (format : string) (args : list LogArg) :
  quiet ro (logf format args).
Proof. apply quiet_printf, quiet_ret. Qed.

Lemma quiet_act_write {R : Type} (op : State → R * State) : quiet false (act op).
Proof. apply quiet_act; [discriminate |]. intros r. apply quiet_ret. Qed.

Lemma quiet_act_read {R : Type} (ro : bool) (op : State → R * State) :
  (∀ st, (op st).2 = st) → quiet ro (act op).
Proof. intros H. apply quiet_act; [by intros _ |]. intros r. apply quiet_ret. Qed.

Lemma quiet_get {R : Type} (ro : bool) (f : State → R) : quiet ro (get f).
Proof. by apply quiet_act_read. Qed.

Lemma quiet_modify (f : State → State) : quiet false (modify f).
Proof. apply quiet_act_write. Qed.

(** Solves [quiet false _] goals for straight-line programs. *)
Ltac quiet_write :=
  repeat first
    [ apply quiet_ret
    | apply quiet_logf
    | apply quiet_get
    | apply quiet_modify
    | apply quiet_act_write
    | apply quiet_mbind; [| intros ?]
    | match goal with
      | |- quiet _ (match ?x with _ => _ end) => destruct x
      end ].

Lemma quiet_swap_retire env : quiet false (swap_retire env).
Proof. unfold swap_retire. quiet_write. Qed.

Lemma quiet_swap_promote env : quiet false (swap_promote env).
Proof. unfold swap_promote. quiet_write. Qed.

Lemma quiet_atomicSwap env : quiet false (atomicSwap env).
Proof.
  unfold atomicSwap. apply quiet_mbind; [apply quiet_swap_retire |].
  intros _. apply quiet_swap_promote.
Qed.

Lemma quiet_indexLoop env h total docs :
  ∀ i n, quiet false (indexLoop env h total docs i n).
Proof.
  induction docs as [| doc docs IH]; intros i n; simpl; [apply quiet_ret |].
  apply quiet_act; [discriminate |]. intros [[] | e]; simpl.
  - apply quiet_act; [discriminate |]. intros _.
    apply quiet_act; [discriminate |]. intros _.
    apply quiet_mbind; [destruct (decide _); quiet_write |]. intros _. apply IH.
  - apply quiet_printf. apply IH.
Qed.

Lemma quiet_IndexDocuments_locked env docs : quiet false (IndexDocuments_locked env docs).
Proof.
  unfold IndexDocuments_locked.
  apply quiet_mbind; [apply quiet_logf |]. intros _.
  apply quiet_mbind; [apply quiet_act_write |]. intros r.
  apply quiet_mbind; [destruct r; quiet_write |]. intros _.
  apply quiet_mbind; [apply quiet_get |]. intros s.
  apply quiet_mbind; [destruct s; quiet_write |]. intros _.
  apply quiet_mbind; [apply quiet_act_write |]. intros [_ | e]; [| apply quiet_ret].
  apply quiet_mbind; [apply quiet_act_write |]. intros [h | e]; [| apply quiet_ret].
  apply quiet_mbind; [apply quiet_modify |]. intros _.
  apply quiet_mbind; [apply quiet_indexLoop |]. intros indexed.
  apply quiet_mbind; [apply quiet_logf |]. intros _.
  apply quiet_mbind; [apply quiet_logf |]. intros _.
  apply quiet_mbind; [apply quiet_atomicSwap |]. intros [_ | e]; [| apply quiet_ret].
  apply quiet_mbind; [apply quiet_logf |]. intros _. apply quiet_ret.
Qed.

Lemma entering_IndexDocuments env docs :
  entering false Lock Unlock (IndexDocuments env docs).
Proof.
  unfold IndexDocuments.
  change (entering false Lock Unlock
            (Sync Lock (bind (IndexDocuments_locked env docs)
                          (fun r => Sync Unlock (Ret r))))).
  apply entering_acquire. apply critical_bind; [apply quiet_IndexDocuments_locked |].
  intros r. apply critical_release, settled_ret.
Qed.

Section SearchShape.

Variable bleveMatch : gmap string StoredDoc → string → list Hit.

Lemma SearchInContext_reads ok query size st :
  (SearchInContext bleveMatch ok query size st).2 = st.
Proof.
  unfold SearchInContext.
  destruct (se_activeIndex (engine st)); [| done].
  destruct (index_data _ st); [| done]. by destruct ok.
Qed.

Lemma bleve_Document_reads ok id st : (bleve_Document ok id st).2 = st.
Proof.
  unfold bleve_Document.
  destruct (se_activeIndex (engine st)); [| done].
  destruct (index_data _ st); [| done]. by destruct ok.
Qed.

Lemma quiet_resolveHit senv hit : quiet true (resolveHit senv hit).
Proof.
  unfold resolveHit.
  apply quiet_mbind; [apply quiet_get |]. intros [doc |]; [apply quiet_ret |].
  apply quiet_mbind; [apply quiet_logf |]. intros _.
  apply quiet_mbind; [apply quiet_act_read, bleve_Document_reads |].
  intros [[[sd |] | e] |].
  - apply quiet_mbind; [apply quiet_logf |]. intros _. apply quiet_ret.
  - apply quiet_ret.
  - apply quiet_mbind; [apply quiet_logf |]. intros _. apply quiet_ret.
  - apply quiet_ret.
Qed.

Lemma quiet_hitsLoop senv req hits :
  ∀ results, quiet true (hitsLoop senv req hits results).
Proof.
  induction hits as [| hit hits IH]; intros results; [apply quiet_ret |].
  change (quiet true (bind (resolveHit senv hit) (fun d =>
              match d with
              | Crashed => Ret None
              | Skipped => hitsLoop senv req hits results
              | Found doc =>
                  if passesFilters req doc then
                    snippetLength ← get (fun st => se_snippetLength (engine st));
                    match extractSnippet snippetLength (doc_Content doc),
                          extractContext (doc_Content doc) with
                    | Some snippet, Some context =>
                        hitsLoop senv req hits
                          (results ++ [mkSearchResult doc (hit_Score hit) snippet context])
                    | _, _ => Ret None
                    end
                  else hitsLoop senv req hits results
              end))).
  apply quiet_bind; [apply quiet_resolveHit |].
  intros [doc | |]; [| apply IH | apply quiet_ret].
  destruct (passesFilters req doc); [| apply IH].
  apply quiet_mbind; [apply quiet_get |]. intros snippetLength.
  destruct (extractSnippet _ _); [| apply quiet_ret].
  destruct (extractContext _); [apply IH | apply quiet_ret].
Qed.

Lemma quiet_Search_locked senv req : quiet true (Search_locked bleveMatch senv req).
Proof.
  unfold Search_locked.
  apply quiet_mbind; [apply quiet_logf |]. intros _.
  apply quiet_mbind; [apply quiet_logf |]. intros _.
  apply quiet_mbind; [apply quiet_act_read, SearchInContext_reads |].
  intros [[[hits total] | e] |].
  - apply quiet_mbind; [apply quiet_logf |]. intros _.
    apply quiet_mbind; [apply quiet_hitsLoop |].
    intros [results |]; apply quiet_ret.
  - apply quiet_mbind; [apply quiet_logf |]. intros _. apply quiet_ret.
  - apply quiet_ret.
Qed.

Lemma entering_Search senv req :
  entering true RLock RUnlock (Search bleveMatch senv req).
Proof.
  unfold Search.
  change (entering true RLock RUnlock
            (Printf (Logf "DEBUG: Search called for query: %s" [ArgStr (req_Query req)])
               (Sync RLock
                  (Printf (Logf "DEBUG: Acquired read lock" [])
                     (bind (Search_locked bleveMatch senv req)
                        (fun r => Sync RUnlock
                                    (Printf (Logf "DEBUG: Released read lock" [])
                                       (Ret r)))))))).
  apply entering_printf, entering_acquire, critical_printf.
  apply critical_bind; [apply quiet_Search_locked |].
  intros r. apply critical_release, settled_printf, settled_ret.
Qed.

End SearchShape.

Lemma exec1_step who c c' : exec1 who c = Some c' → step c c'.
Proof.
  destruct who as [i |]; simpl.
  - destruct (queries c !! i) as [q |] eqn:Hq; [| discriminate].
    destruct (thread_step q (shared c) (mu c)) as [[[[p s] m] l] |] eqn:Hstep;
      [| discriminate].
    intros [= <-]. by apply (step_query c i q).
  - destruct (thread_step (rebuild c) (shared c) (mu c)) as [[[[p s] m] l] |] eqn:Hstep;
      [| discriminate].
    intros [= <-]. by apply step_rebuild.
Qed.

Lemma drive_steps who fuel : ∀ c, steps c (drive who fuel c).
Proof.
  induction fuel as [| fuel IH]; intros c; simpl; [apply rtc_refl |].
  destruct (exec1 who c) as [c' |] eqn:Hc; [| apply rtc_refl].
  eapply rtc_l; [apply (exec1_step who), Hc | apply IH].
Qed.

(** * Atomicity of a rebuild for concurrent queries *)

Lemma count_true_replicate (n : nat) : count_true (replicate n false) = 0%nat.
Proof. induction n as [| n IH]; simpl; done. Qed.

Lemma inv_initial (st0 : State) (W : Prog (Result unit)) (Rs : list (Prog SearchOutcome)) :
  entering false Lock Unlock W →
  Forall (entering true RLock RUnlock) Rs →
  inv st0 (state_of (run W st0)) Rs (mkConfig st0 free W Rs []).
Proof.
  intros HW HRs. split.
  - by apply writer_waiting.
  - exists (replicate (length Rs) false). simpl.
    rewrite length_replicate, count_true_replicate.
    repeat split; try done.
    intros i R p b HR Hp Hb. rewrite HR in Hp. injection Hp as <-.
    apply lookup_replicate in Hb as [-> _].
    apply reader_waiting; [| done].
    rewrite Forall_forall in HRs. apply HRs. by apply list_elem_of_lookup_2 in HR.
Qed.

(** C1, as stated, fails when the rebuild fails in the swap.  An engine
    serves three documents that match the query; a rebuild whose move of
    staging to active fails runs to its end; the query that starts after it
    returns an error, the index being closed: it sees neither the corpus
    before the rebuild nor a corpus after it. *)
Lemma query_after_failed_swap_sees_nothing :
  steps (Scenario.race Scenario.noMove Scenario.three)
        (Scenario.rebuildThenQuery Scenario.noMove Scenario.three)
  ∧ queries (Scenario.rebuildThenQuery Scenario.noMove Scenario.three) !! 0%nat
    = Some (Ret (SearchError (Errorf "search failed" ErrorIndexClosed)))
  ∧ length (resp_Results (Scenario.responseOf (result_of
        (run (Search Scenario.substringMatch Scenario.searchOk Scenario.installerQuery)
           Scenario.serving)))) = 3%nat
  ∧ result_of (run (Search Scenario.substringMatch Scenario.searchOk Scenario.installerQuery)
                 Scenario.serving)
    ≠ SearchError (Errorf "search failed" ErrorIndexClosed).
Proof.
  split; [| split; [| split]].
  - unfold Scenario.rebuildThenQuery.
    eapply rtc_trans; apply drive_steps.
  - vm_compute. reflexivity.
  - vm_compute. reflexivity.
  - vm_compute. discriminate.
Qed.

Section Atomicity.

Variable bleveMatch : gmap string StoredDoc → string → list Hit.

Lemma Search_on_closed_index senv req st h :
  se_activeIndex (engine st) = Some h → h_open h = false →
  result_of (run (Search bleveMatch senv req) st)
  = SearchError (Errorf "search failed" ErrorIndexClosed).
Proof.
  intros Hh Hclosed. unfold Search, Search_locked, result_of. simpl.
  unfold SearchInContext, index_data. rewrite Hh, Hclosed. reflexivity.
Qed.

(** C1, amended: in every interleaving of one rebuild with any number
    of queries, a query that has returned has returned what it returns
    when it runs alone, either on the state the rebuild started from or on
    the state the rebuild ends in; nothing in between is seen.  When the
    rebuild succeeds, the state it ends in has exactly the documents it
    indexed in the active generation, and the cache and the taxonomy
    updated with them.  When the rebuild reaches the swap and the move of
    staging to active fails, whatever makes it fail, the environment or
    the state of the index directory, the rebuild returns the error of
    the move, the state it ends in has the active index closed, and a
    query on it returns an error. *)
Theorem queries_run_before_or_after
    (env : Env) (docs : list Document) (st0 : State)
    (calls : list (SearchEnv * SearchRequest)) (c : Config)
    (Hreach : steps (mkConfig st0 free (IndexDocuments env docs)
                       ((fun call => Search bleveMatch call.1 call.2) <$> calls) [])
                    c) :
  (∀ i senv req o,
      calls !! i = Some (senv, req) →
      queries c !! i = Some (Ret o) →
      o = result_of (run (Search bleveMatch senv req) st0)
      ∨ o = result_of (run (Search bleveMatch senv req)
                         (state_of (run (IndexDocuments env docs) st0))))
  ∧ (result_of (run (IndexDocuments env docs) st0) = Ok tt →
     Rebuilt env docs st0 (state_of (run (IndexDocuments env docs) st0)))
  ∧ (∀ e,
       Logf "Performing atomic index swap..." []
         ∈ log_of (run (IndexDocuments env docs) st0) →
       (promoteStep env (atSwap env docs st0)).1 = Err e →
       result_of (run (IndexDocuments env docs) st0)
       = Err (Errorf "failed to atomic swap indices"
                (Errorf "failed to move staging index to active" e))
       ∧ ∀ h senv req,
           se_activeIndex (engine st0) = Some h →
           result_of (run (Search bleveMatch senv req)
                        (state_of (run (IndexDocuments env docs) st0)))
           = SearchError (Errorf "search failed" ErrorIndexClosed))
  ∧ (∀ e,
       result_of (run (IndexDocuments env docs) st0)
       = Err (Errorf "failed to atomic swap indices"
                (Errorf "failed to move staging index to active" e)) →
       ∀ h senv req,
         se_activeIndex (engine st0) = Some h →
         result_of (run (Search bleveMatch senv req)
                      (state_of (run (IndexDocuments env docs) st0)))
         = SearchError (Errorf "search failed" ErrorIndexClosed)).
Proof.
  assert (Hclosed : ∀ e,
             result_of (run (IndexDocuments env docs) st0)
             = Err (Errorf "failed to atomic swap indices"
                      (Errorf "failed to move staging index to active" e)) →
             ∀ h senv req,
               se_activeIndex (engine st0) = Some h →
               result_of (run (Search bleveMatch senv req)
                            (state_of (run (IndexDocuments env docs) st0)))
               = SearchError (Errorf "search failed" ErrorIndexClosed)).
  { intros e Hres h senv req Hh.
    apply (Search_on_closed_index senv req _ (Close h)); [| reflexivity].
    destruct (IndexDocuments_cases env docs st0)
      as [(msg & e' & Hres' & Hmsg & _) | (-> & Hres')].
    - rewrite Hres in Hres'. injection Hres' as <- <-.
      destruct Hmsg as [[=] | [=]].
    - rewrite Hres in Hres'.
      destruct (result_of (run (atomicSwap env) (atSwap env docs st0))) as [[] | e'] eqn:Hswap;
        [discriminate |].
      injection Hres' as <-.
      rewrite (atomicSwap_move_failed env (atSwap env docs st0) e Hswap).
      unfold atSwap, afterIndexing. simpl. by rewrite Hh. }
  split; [| split; [apply IndexDocuments_success | split; [| exact Hclosed]]]; cycle 1.
  { intros e Hreached Hmove.
    pose proof (IndexDocuments_move_failure env docs st0 e Hreached Hmove) as Hres.
    split; [exact Hres | by apply (Hclosed e)]. }
  intros i senv req o Hcall Hq.
  eapply inv_returned; [| | exact Hq].
  - eapply inv_steps; [| exact Hreach].
    apply inv_initial; [apply entering_IndexDocuments |].
    apply Forall_fmap, Forall_forall. intros call _. apply entering_Search.
  - rewrite list_lookup_fmap, Hcall. reflexivity.
Qed.

End Atomicity.

Lemma queries_run_before_or_after_witness :
  (∃ o, queries (Scenario.rebuildThenQuery Scenario.allOk Scenario.seven) !! 0%nat
        = Some (Ret o)
        ∧ (o = result_of (run (Search Scenario.substringMatch Scenario.searchOk
                                 Scenario.installerQuery) Scenario.serving)
           ∨ o = result_of (run (Search Scenario.substringMatch Scenario.searchOk
                                   Scenario.installerQuery)
                              (state_of (run (IndexDocuments Scenario.allOk Scenario.seven)
                                           Scenario.serving)))))
  ∧ (∃ o, queries (Scenario.queryThenRebuild Scenario.allOk Scenario.seven) !! 0%nat
          = Some (Ret o)
          ∧ length (resp_Results (Scenario.responseOf o)) = 3%nat
          ∧ (o = result_of (run (Search Scenario.substringMatch Scenario.searchOk
                                   Scenario.installerQuery) Scenario.serving)
             ∨ o = result_of (run (Search Scenario.substringMatch Scenario.searchOk
                                     Scenario.installerQuery)
                                (state_of (run (IndexDocuments Scenario.allOk Scenario.seven)
                                             Scenario.serving)))))
  ∧ (∃ o, queries (Scenario.queryDuringRebuild Scenario.allOk Scenario.seven) !! 0%nat
          = Some (Ret o)
          ∧ length (resp_Results (Scenario.responseOf o)) = 5%nat
          ∧ (o = result_of (run (Search Scenario.substringMatch Scenario.searchOk
                                   Scenario.installerQuery) Scenario.serving)
             ∨ o = result_of (run (Search Scenario.substringMatch Scenario.searchOk
                                     Scenario.installerQuery)
                                (state_of (run (IndexDocuments Scenario.allOk Scenario.seven)
                                             Scenario.serving)))))
  ∧ ok_renameStaging Scenario.noBackup = true
  ∧ result_of (run (IndexDocuments Scenario.noBackup Scenario.seven) Scenario.serving)
    = Err (Errorf "failed to atomic swap indices"
             (Errorf "failed to move staging index to active" ErrNotEmpty))
  ∧ result_of (run (Search Scenario.substringMatch Scenario.searchOk Scenario.installerQuery)
                 (state_of (run (IndexDocuments Scenario.noBackup Scenario.seven)
                              Scenario.serving)))
    = SearchError (Errorf "search failed" ErrorIndexClosed).
Proof.
  assert (Hafter : steps (Scenario.race Scenario.allOk Scenario.seven)
                         (Scenario.rebuildThenQuery Scenario.allOk Scenario.seven)).
  { unfold Scenario.rebuildThenQuery. eapply rtc_trans; apply drive_steps. }
  assert (Hbefore : steps (Scenario.race Scenario.allOk Scenario.seven)
                          (Scenario.queryThenRebuild Scenario.allOk Scenario.seven)).
  { unfold Scenario.queryThenRebuild.
    eapply rtc_trans; [| apply drive_steps].
    eapply rtc_trans; [| apply drive_steps].
    eapply rtc_trans; apply drive_steps. }
  assert (Hduring : steps (Scenario.race Scenario.allOk Scenario.seven)
                          (Scenario.queryDuringRebuild Scenario.allOk Scenario.seven)).
  { unfold Scenario.queryDuringRebuild.
    eapply rtc_trans; [| apply drive_steps].
    eapply rtc_trans; [| apply drive_steps].
    eapply rtc_trans; apply drive_steps. }
  split; [| split; [| split]].
  - eexists. split.
    + vm_compute. reflexivity.
    + refine (proj1 (queries_run_before_or_after Scenario.substringMatch
                       Scenario.allOk Scenario.seven Scenario.serving
                       [(Scenario.searchOk, Scenario.installerQuery)]
                       (Scenario.rebuildThenQuery Scenario.allOk Scenario.seven) Hafter)
                    0%nat Scenario.searchOk Scenario.installerQuery _ eq_refl _).
      vm_compute. reflexivity.
  - eexists. split; [vm_compute; reflexivity |]. split; [vm_compute; reflexivity |].
    refine (proj1 (queries_run_before_or_after Scenario.substringMatch
                     Scenario.allOk Scenario.seven Scenario.serving
                     [(Scenario.searchOk, Scenario.installerQuery)]
                     (Scenario.queryThenRebuild Scenario.allOk Scenario.seven) Hbefore)
                  0%nat Scenario.searchOk Scenario.installerQuery _ eq_refl _).
    vm_compute. reflexivity.
  - eexists. split; [vm_compute; reflexivity |]. split; [vm_compute; reflexivity |].
    refine (proj1 (queries_run_before_or_after Scenario.substringMatch
                     Scenario.allOk Scenario.seven Scenario.serving
                     [(Scenario.searchOk, Scenario.installerQuery)]
                     (Scenario.queryDuringRebuild Scenario.allOk Scenario.seven) Hduring)
                  0%nat Scenario.searchOk Scenario.installerQuery _ eq_refl _).
    vm_compute. reflexivity.
  - split; [reflexivity |].
    destruct (queries_run_before_or_after Scenario.substringMatch
                Scenario.noBackup Scenario.seven Scenario.serving [] _ (rtc_refl _ _))
      as (_ & _ & Hmove & _).
    destruct (Hmove ErrNotEmpty) as (Hres & Hsearch).
    + vm_compute. repeat first [apply list_elem_of_here | apply list_elem_of_further].
    + vm_compute. reflexivity.
    + split; [exact Hres |].
      apply (Hsearch (mkHandle Active true)). vm_compute. reflexivity.
Defined.
(** * fetcher.go: tags, platforms and the extracted documents *)

Lemma uniqueTags_spec tags :
  ∀ seen,
    NoDup (Fetcher.uniqueTags seen tags)
    ∧ ∀ t, t ∈ Fetcher.uniqueTags seen tags
           ↔ t ≠ "" ∧ default false (seen !! t) = false
             ∧ ∃ raw, raw ∈ tags ∧ t = Strings.TrimSpace raw.
Proof.
  induction tags as [| raw rest IH]; intros seen; simpl.
  - split; [constructor |]. intros t. split.
    + intros H. by apply not_elem_of_nil in H.
    + intros (_ & _ & r & Hr & _). by apply not_elem_of_nil in Hr.
  - destruct (bool_decide (Strings.TrimSpace raw ≠ "")
              && negb (default false (seen !! Strings.TrimSpace raw))) eqn:Hkeep.
    + apply andb_true_iff in Hkeep as [Hne Hseen].
      apply bool_decide_eq_true in Hne. apply negb_true_iff in Hseen.
      destruct (IH (<[Strings.TrimSpace raw := true]> seen)) as [Hnd Hin].
      split.
      * constructor; [| exact Hnd]. intros Hmem. apply Hin in Hmem as (_ & Hs & _).
        by rewrite lookup_insert_eq in Hs.
      * intros t. rewrite elem_of_cons, Hin. split.
        -- intros [-> | (Ht & Hs & r & Hr & ->)].
           ++ repeat split; [done | done |]. exists raw. split; [apply list_elem_of_here | done].
           ++ repeat split; [done | |].
              ** destruct (decide (Strings.TrimSpace raw = Strings.TrimSpace r)) as [Heq | Hneq].
                 --- rewrite <- Heq, lookup_insert_eq in Hs. discriminate.
                 --- by rewrite lookup_insert_ne in Hs.
              ** exists r. split; [by apply list_elem_of_further | done].
        -- intros (Ht & Hs & r & Hr & ->).
           destruct (decide (Strings.TrimSpace r = Strings.TrimSpace raw)) as [Heq | Hneq];
             [by left | right].
           repeat split; [done | |].
           ++ by rewrite lookup_insert_ne.
           ++ apply elem_of_cons in Hr as [-> | Hr]; [done |]. by exists r.
    + destruct (IH seen) as [Hnd Hin]. split; [exact Hnd |].
      intros t. rewrite Hin. split.
      * intros (Ht & Hs & r & Hr & ->). repeat split; [done | done |].
        exists r. split; [by apply list_elem_of_further | done].
      * intros (Ht & Hs & r & Hr & ->). repeat split; [done | done |].
        apply elem_of_cons in Hr as [-> | Hr]; [| by exists r].
        apply andb_false_iff in Hkeep as [Hk | Hk].
        -- apply bool_decide_eq_false in Hk. by destruct Hk.
        -- apply negb_false_iff in Hk. congruence.
Qed.

Lemma keywords_trimmed : Forall (fun k => Strings.TrimSpace k = k) Fetcher.keywords.
Proof. repeat constructor. Qed.

(** X1: the tags of a page have no duplicate and no empty tag, and a tag is
    among them exactly when it is a trimmed segment of the lower-cased page
    path or one of the eleven keywords that the lower-cased content
    contains. *)
Theorem extractTags_spec (content pagePath : string) :
  NoDup (Fetcher.extractTags content pagePath)
  ∧ ("" ∉ Fetcher.extractTags content pagePath)
  ∧ ∀ t, t ∈ Fetcher.extractTags content pagePath
         ↔ t ≠ ""
           ∧ ((∃ segment, segment ∈ Strings.Split (Strings.ToLower pagePath) Filepath.slash
                          ∧ t = Strings.TrimSpace segment)
              ∨ (t ∈ Fetcher.keywords
                 ∧ Strings.Contains (Strings.ToLower content) t = true)).
Proof.
  unfold Fetcher.extractTags.
  match goal with |- context[Fetcher.uniqueTags ∅ ?l] =>
    destruct (uniqueTags_spec l ∅) as [Hnd Hin] end.
  split; [exact Hnd |]. split.
  { intros H. apply Hin in H as (H & _). done. }
  intros t. rewrite Hin. split.
  - intros (Ht & _ & raw & Hraw & ->). split; [done |].
    apply elem_of_app in Hraw as [Hraw | Hraw]; [left; by exists raw | right].
    apply list_elem_of_In, filter_In in Hraw as [Hk Hc]. apply list_elem_of_In in Hk.
    pose proof (proj1 (Forall_forall _ _) keywords_trimmed raw Hk) as Htrim.
    simpl in Htrim. rewrite Htrim. done.
  - intros (Ht & Hsrc). split; [done |]. split; [by rewrite lookup_empty |].
    destruct Hsrc as [(segment & Hseg & ->) | (Hk & Hc)].
    + exists segment. split; [apply elem_of_app; by left | done].
    + exists t. split.
      * apply elem_of_app. right. apply list_elem_of_In, filter_In.
        split; [by apply list_elem_of_In | done].
      * pose proof (proj1 (Forall_forall _ _) keywords_trimmed t Hk) as Htrim. done.
Qed.

Lemma find_first {A : Type} (f : A → bool) (l : list A) :
  match List.find f l with
  | Some x => ∃ before after, l = before ++ x :: after ∧ f x = true
                              ∧ Forall (fun y => f y = false) before
  | None => Forall (fun y => f y = false) l
  end.
Proof.
  induction l as [| a l IH]; simpl; [constructor |].
  destruct (f a) eqn:Ha.
  - exists [], l. repeat split; [done | constructor].
  - destruct (List.find f l) as [x |].
    + destruct IH as (before & after & -> & Hx & Hall).
      exists (a :: before), after. repeat split; [done | by constructor].
    + by constructor.
Qed.

(** X2: the platform of a page path is the first entry of the platform
    list, in the order of the list, that the lower-cased path contains, and
    the empty string when it contains none. *)
Theorem extractPlatformFromPath_first (pagePath : string) :
  (Fetcher.extractPlatformFromPath pagePath = ""
   ∧ Forall (fun platform => Strings.Contains (Strings.ToLower pagePath) platform = false)
            Fetcher.platforms)
  ∨ (∃ before after,
       Fetcher.platforms = before ++ Fetcher.extractPlatformFromPath pagePath :: after
       ∧ Strings.Contains (Strings.ToLower pagePath)
           (Fetcher.extractPlatformFromPath pagePath) = true
       ∧ Forall (fun platform => Strings.Contains (Strings.ToLower pagePath) platform = false)
                before).
Proof.
  unfold Fetcher.extractPlatformFromPath.
  pose proof (find_first (fun platform => Strings.Contains (Strings.ToLower pagePath) platform)
                Fetcher.platforms) as H.
  destruct (List.find _ Fetcher.platforms) as [p |].
  - right. destruct H as (before & after & Heq & Hp & Hall). by exists before, after.
  - by left.
Qed.

Lemma PageItem_nested_ind (P : PageItem → Prop) :
  (∀ p, P (ItemString p)) →
  (∀ group pages, (∀ l, pages = Some l → Forall P l) → P (ItemMap group pages)) →
  (∀ p, P (ItemPage p)) →
  (∀ group pages, Forall P pages → P (ItemNestedGroup group pages)) →
  P ItemOther →
  ∀ page, P page.
Proof.
  intros HS HM HP HN HO. fix IH 1. intros [p | group pages | p | group pages |].
  - apply HS.
  - destruct pages as [l |].
    + assert (Hl : Forall P l).
      { induction l as [| a l IHl]; constructor; [apply IH | exact IHl]. }
      apply HM. intros l' [= <-]. exact Hl.
    + apply HM. discriminate.
  - apply HP.
  - apply HN. induction pages as [| a l IHl]; constructor; [apply IH | exact IHl].
  - apply HO.
Qed.

Lemma extractDocument_wellExtracted df tab version groupName pagePath d :
  Fetcher.extractDocument df tab version groupName "" pagePath = Some d →
  wellExtracted df tab version d.
Proof.
  unfold Fetcher.extractDocument.
  destruct (Fetcher.os_ReadFile _ _) as [content |] eqn:Hread; [| discriminate].
  destruct (String.length content =? 0)%nat eqn:Hlen; [discriminate |].
  intros [= <-]. unfold wellExtracted. simpl.
  repeat split; try done.
  intros ->. discriminate Hlen.
Qed.

Lemma flat_map_Forall {A B : Type} (P : B → Prop) (f : A → list B) (l : list A) :
  Forall (fun a => Forall P (f a)) l → Forall P (flat_map f l).
Proof.
  induction 1 as [| a l Ha _ IH]; simpl; [constructor |].
  apply Forall_app. by split.
Qed.

Lemma extractPageItem_wellExtracted df tab version page :
  ∀ groupName,
    Forall (wellExtracted df tab version)
           (Fetcher.extractPageItem df tab version groupName "" page).
Proof.
  induction page as [p | group pages IH | p | group pages IH |] using PageItem_nested_ind;
    intros groupName; simpl.
  - destruct (Fetcher.extractDocument df tab version groupName "" p) as [d |] eqn:Hd;
      simpl; [| constructor].
    constructor; [| constructor]. by eapply extractDocument_wellExtracted.
  - destruct group as [nestedGroup |]; [| constructor].
    destruct pages as [nestedPages |]; [| constructor].
    specialize (IH nestedPages eq_refl).
    induction IH as [| a l Ha _ IHl]; [constructor |].
    apply Forall_app. split; [apply Ha | exact IHl].
  - destruct (Fetcher.extractDocument df tab version groupName "" p) as [d |] eqn:Hd;
      simpl; [| constructor].
    constructor; [| constructor]. by eapply extractDocument_wellExtracted.
  - induction IH as [| a l Ha _ IHl]; [constructor |].
    apply Forall_app. split; [apply Ha | exact IHl].
  - constructor.
Qed.

(** X3: every document that [ExtractDocuments] returns comes from a version
    of a tab named "Talos"; its content is the non-empty content of the file
    its page path resolves to; its id is the version, the lower-cased group
    and the lower-cased base name of the path, joined by "-"; its platform
    is never inherited but read off the path; title, tags and the file path
    in the metadata are derived from the same path and content.  Groups
    and pages of other tabs yield nothing. *)
Theorem ExtractDocuments_wellExtracted
    (df : Fetcher.DocumentationFetcher) (nav : DocsNavigation) (d : Document) :
  d ∈ (Fetcher.ExtractDocuments df nav).1 →
  ∃ tab version,
    tab ∈ nav_Tabs (nav_Navigation nav) ∧ tab_Tab tab = "Talos"
    ∧ version ∈ tab_Versions tab
    ∧ wellExtracted df "Talos" (ver_Version version) d.
Proof.
  unfold Fetcher.ExtractDocuments. simpl.
  rewrite list_elem_of_In, in_flat_map. intros (tab & Htab & Hd).
  destruct (decide (tab_Tab tab = "Talos")) as [Htalos | _]; [| destruct Hd].
  apply in_flat_map in Hd as (version & Hversion & Hd).
  exists tab, version.
  split; [by apply list_elem_of_In |]. split; [done |].
  split; [by apply list_elem_of_In |].
  rewrite Htalos in Hd. apply list_elem_of_In in Hd. revert d Hd. apply Forall_forall.
  unfold Fetcher.extractDocumentsFromVersion, Fetcher.extractDocumentsFromGroup.
  apply flat_map_Forall, Forall_forall. intros group _.
  apply flat_map_Forall, Forall_forall. intros page _.
  apply extractPageItem_wellExtracted.
Qed.

Lemma ExtractDocuments_wellExtracted_witness :
  ∃ d tab version,
    (Fetcher.ExtractDocuments Scenario.fetcher Examples.nested).1 = [d]
    ∧ tab ∈ nav_Tabs (nav_Navigation Examples.nested) ∧ tab_Tab tab = "Talos"
    ∧ version ∈ tab_Versions tab
    ∧ wellExtracted Scenario.fetcher "Talos" (ver_Version version) d
    ∧ doc_Section d = "Cloud".
Proof.
  eexists.
  assert (Hin : ?[d] ∈ (Fetcher.ExtractDocuments Scenario.fetcher Examples.nested).1)
    by (vm_compute; apply list_elem_of_here).
  destruct (ExtractDocuments_wellExtracted Scenario.fetcher Examples.nested _ Hin)
    as (tab & version & H1 & H2 & H3 & H4).
  exists tab, version. split; [vm_compute; reflexivity |]. done.
Defined.
(** * search.go: the query path, hit by hit *)

Section QueryExtras.

Variable bleveMatch : gmap string StoredDoc → string → list Hit.

Lemma bleve_Document_state ok id st : (bleve_Document ok id st).2 = st.
Proof.
  unfold bleve_Document.
  destruct (se_activeIndex (engine st)) as [h |]; [| done].
  destruct (index_data h st); [| done]. by destruct ok.
Qed.

Lemma resolveHit_run senv hit st :
  ∃ l, run (resolveHit senv hit) st = (resolved senv st hit, st, l).
Proof.
  unfold resolveHit, resolved. simpl.
  destruct (se_documents (engine st) !! hit_ID hit) as [doc |]; simpl;
    [eexists; reflexivity |].
  pose proof (bleve_Document_state (ok_document senv (hit_ID hit)) (hit_ID hit) st) as Hst.
  destruct (bleve_Document (ok_document senv (hit_ID hit)) (hit_ID hit) st) as [r st'].
  simpl in Hst. subst st'. simpl.
  destruct r as [[[sd |] | e] |]; simpl; eexists; reflexivity.
Qed.

Lemma crashes_answer senv req st hit :
  match resolved senv st hit with
  | Found doc =>
      if passesFilters req doc then
        match extractSnippet (se_snippetLength (engine st)) (doc_Content doc),
              extractContext (doc_Content doc) with
        | Some snippet, Some context =>
            crashes senv req st hit = false
            ∧ answer senv req st hit
              = Some (mkSearchResult doc (hit_Score hit) snippet context)
        | _, _ => crashes senv req st hit = true
        end
      else crashes senv req st hit = false ∧ answer senv req st hit = None
  | Skipped => crashes senv req st hit = false ∧ answer senv req st hit = None
  | Crashed => crashes senv req st hit = true
  end.
Proof.
  unfold crashes, answer.
  destruct (resolved senv st hit) as [doc | |]; [| done | done].
  destruct (passesFilters req doc); [| done].
  destruct (extractSnippet _ _) as [snippet |];
    destruct (extractContext _) as [context |];
    simpl; try case_bool_decide; simpl; done.
Qed.

Lemma hitsLoop_exact senv req hits :
  ∀ acc st,
  ∃ l, run (hitsLoop senv req hits acc) st
       = (if existsb (crashes senv req st) hits then None
          else Some (acc ++ omap (answer senv req st) hits), st, l).
Proof.
  induction hits as [| hit rest IH]; intros acc st.
  - simpl. rewrite app_nil_r. eexists. reflexivity.
  - change (hitsLoop senv req (hit :: rest) acc)
      with (resolveHit senv hit ≫= (fun d =>
              match d with
              | Crashed => Ret None
              | Skipped => hitsLoop senv req rest acc
              | Found doc =>
                  if passesFilters req doc then
                    snippetLength ← get (fun st => se_snippetLength (engine st));
                    match extractSnippet snippetLength (doc_Content doc),
                          extractContext (doc_Content doc) with
                    | Some snippet, Some context =>
                        hitsLoop senv req rest
                          (acc ++ [mkSearchResult doc (hit_Score hit) snippet context])
                    | _, _ => Ret None
                    end
                  else hitsLoop senv req rest acc
              end)).
    rewrite run_mbind.
    destruct (resolveHit_run senv hit st) as (l & ->).
    change (existsb (crashes senv req st) (hit :: rest))
      with (crashes senv req st hit || existsb (crashes senv req st) rest).
    change (omap (answer senv req st) (hit :: rest))
      with (match answer senv req st hit with
            | Some y => y :: omap (answer senv req st) rest
            | None => omap (answer senv req st) rest
            end).
    pose proof (crashes_answer senv req st hit) as Hhit.
    destruct (resolved senv st hit) as [doc | |].
    + destruct (passesFilters req doc) eqn:Hpass.
      * simpl.
        destruct (extractSnippet (se_snippetLength (engine st)) (doc_Content doc))
          as [snippet |]; [| rewrite Hhit; simpl; eexists; reflexivity].
        destruct (extractContext (doc_Content doc)) as [context |];
          [| rewrite Hhit; simpl; eexists; reflexivity].
        destruct Hhit as [-> ->]. simpl.
        destruct (IH (acc ++ [mkSearchResult doc (hit_Score hit) snippet context]) st)
          as (l2 & ->).
        rewrite <- app_assoc. simpl. eexists. reflexivity.
      * destruct Hhit as [-> ->]. simpl.
        destruct (IH acc st) as (l2 & ->). eexists. reflexivity.
    + destruct Hhit as [-> ->]. simpl.
      destruct (IH acc st) as (l2 & ->). eexists. reflexivity.
    + rewrite Hhit. simpl. eexists. reflexivity.
Qed.

(** A call of [Search] that runs alone, in one piece. *)
Lemma Search_run senv req st :
  ∃ l, run (Search bleveMatch senv req) st
       = (match se_activeIndex (engine st) with
          | None => Panic
          | Some h =>
              match index_data h st with
              | Err e => SearchError (Errorf "search failed" e)
              | Ok m =>
                  if ok_search senv then
                    let hits := take (Z.to_nat (effectiveLimit req))
                                     (bleveMatch m (req_Query req)) in
                    if existsb (crashes senv req st) hits then Panic
                    else Response {| resp_Results := omap (answer senv req st) hits;
                                     resp_Total :=
                                       Z.of_nat (length (bleveMatch m (req_Query req)));
                                     resp_Query := req_Query req;
                                     resp_Duration := search_elapsed senv |}
                  else SearchError (Errorf "search failed" (ErrEnv "SearchInContext"))
              end
          end, st, l).
Proof.
  unfold Search, Search_locked. simpl. unfold SearchInContext.
  destruct (se_activeIndex (engine st)) as [h |]; simpl; [| eexists; reflexivity].
  destruct (index_data h st) as [m | e]; simpl; [| eexists; reflexivity].
  destruct (ok_search senv); simpl; [| eexists; reflexivity].
  unfold Prog_bind. rewrite run_bind. unfold mbind, Prog_bind. rewrite run_bind.
  destruct (hitsLoop_exact senv req (take (Z.to_nat (effectiveLimit req))
                                          (bleveMatch m (req_Query req))) [] st)
    as (l & ->).
  destruct (existsb _ _); simpl; eexists; reflexivity.
Qed.

End QueryExtras.

(** X4: a call of [Search] changes nothing: the engine and the index
    directory are after the call what they were before it, whatever the
    outcome. *)
Theorem Search_changes_nothing
    (bleveMatch : gmap string StoredDoc → string → list Hit)
    (senv : SearchEnv) (req : SearchRequest) (st : State) :
  state_of (run (Search bleveMatch senv req) st) = st.
Proof.
  destruct (Search_run bleveMatch senv req st) as (l & ->). reflexivity.
Qed.

(** X5: the results of a response are the answers to the first hits of
    the ranking, up to the effective limit, in the order of the ranking:
    one result per hit that is resolved and passes the filters, nothing
    for the others, nothing added, nothing reordered. *)
Theorem Search_results_in_rank_order
    (bleveMatch : gmap string StoredDoc → string → list Hit)
    (senv : SearchEnv) (req : SearchRequest) (st : State)
    (r : SearchResponse) (matches : list Hit) :
  result_of (run (Search bleveMatch senv req) st) = Response r →
  activeMatches bleveMatch st (req_Query req) = Some matches →
  resp_Results r
  = omap (answer senv req st) (take (Z.to_nat (effectiveLimit req)) matches)
  ∧ res_Score <$> resp_Results r
    `sublist_of` hit_Score <$> take (Z.to_nat (effectiveLimit req)) matches.
Proof.
  destruct (Search_run bleveMatch senv req st) as (l & ->). unfold result_of, activeMatches.
  simpl.
  destruct (se_activeIndex (engine st)) as [h |]; [| discriminate].
  destruct (index_data h st) as [m | e]; [| discriminate].
  destruct (ok_search senv); [| discriminate]. simpl.
  destruct (existsb _ _); [discriminate |].
  intros [= <-] [= <-]. simpl. split; [reflexivity |].
  induction (take _ _) as [| hit hits IH]; simpl; [constructor |].
  destruct (answer senv req st hit) as [res |] eqn:Hres.
  - simpl. replace (res_Score res) with (hit_Score hit); [by apply sublist_skip |].
    unfold answer in Hres. destruct (resolved senv st hit); try discriminate.
    destruct (passesFilters _ _); try discriminate.
    destruct (extractSnippet _ _); try discriminate.
    destruct (extractContext _); try discriminate.
    by injection Hres as <-.
  - by apply sublist_cons.
Qed.

Lemma Search_results_in_rank_order_witness :
  ∃ r matches,
    result_of (run (Search Scenario.substringMatch Scenario.searchOk Scenario.installerQuery)
                 Scenario.servingSeven) = Response r
    ∧ activeMatches Scenario.substringMatch Scenario.servingSeven "installer" = Some matches
    ∧ length matches = 7%nat
    ∧ resp_Results r
      = omap (answer Scenario.searchOk Scenario.installerQuery Scenario.servingSeven)
             (take 5 matches).
Proof.
  eexists _, _.
  assert (H1 : result_of (run (Search Scenario.substringMatch Scenario.searchOk
                                 Scenario.installerQuery) Scenario.servingSeven)
               = Response ?[r]) by (vm_compute; reflexivity).
  assert (H2 : activeMatches Scenario.substringMatch Scenario.servingSeven
                 (req_Query Scenario.installerQuery) = Some ?[matches])
    by (vm_compute; reflexivity).
  split; [exact H1 |]. split; [exact H2 |]. split; [reflexivity |].
  exact (proj1 (Search_results_in_rank_order _ _ _ _ _ _ H1 H2)).
Defined.

(** ** Snippets *)

Lemma len_upto_dots (limit : Z) (line : string) :
  0 ≤ limit → limit < Strings.len line →
  Strings.len (Strings.upto limit line +:+ "...") = limit + 3.
Proof.
  unfold Strings.len, Strings.upto. intros H0 H1.
  rewrite string_length_append, string_length_take by lia. simpl. lia.
Qed.

Lemma firstParagraph_spec (limit : Z) (lines : list string) :
  match List.find paragraphLine lines with
  | None => firstParagraph limit lines = Some ""
  | Some line =>
      firstParagraph limit lines
      = if limit <? Strings.len (Strings.TrimSpace line)
        then if limit <? 0 then None
             else Some (Strings.upto limit (Strings.TrimSpace line) +:+ "...")
        else Some (Strings.TrimSpace line)
  end.
Proof.
  induction lines as [| line rest IH]; [reflexivity |].
  cbn [List.find firstParagraph]. unfold paragraphLine at 1.
  destruct (bool_decide (Strings.TrimSpace line ≠ "")
            && negb (Strings.HasPrefix (Strings.TrimSpace line) "#")
            && (50 <? Strings.len (Strings.TrimSpace line))); [reflexivity | exact IH].
Qed.

Lemma firstParagraph_bound (limit : Z) (lines : list string) :
  0 ≤ limit →
  ∃ s, firstParagraph limit lines = Some s ∧ Strings.len s ≤ limit + 3
       ∧ (limit < 50 → s = "" ∨ Strings.len s = limit + 3).
Proof.
  intros Hlimit. pose proof (firstParagraph_spec limit lines) as H.
  destruct (List.find paragraphLine lines) as [line |] eqn:Hfind.
  - rewrite H. apply find_some in Hfind as [_ Hline].
    unfold paragraphLine in Hline. apply andb_true_iff in Hline as [_ Hlong].
    apply Z.ltb_lt in Hlong.
    destruct (limit <? Strings.len (Strings.TrimSpace line)) eqn:Hcut.
    + apply Z.ltb_lt in Hcut. rewrite (proj2 (Z.ltb_ge limit 0)) by lia.
      eexists. split; [reflexivity |]. rewrite len_upto_dots by lia. split; [lia | auto].
    + apply Z.ltb_ge in Hcut. eexists. split; [reflexivity |]. split; lia.
  - rewrite H. exists "". split; [reflexivity |]. unfold Strings.len. simpl. split; [lia | auto].
Qed.

(** X6: with a snippet length that is not negative, [extractSnippet]
    returns a snippet of at most that many bytes plus the three of "...",
    and with a length under 50 every snippet that is not empty is cut; the
    context is at most 203 bytes long; with a negative snippet length
    [extractSnippet] panics exactly when the content has a line that, once
    trimmed, is no heading and is longer than 50 bytes. *)
Theorem extractSnippet_bounds (snippetLength : Z) (content : string) :
  (0 ≤ snippetLength →
   ∃ snippet, extractSnippet snippetLength content = Some snippet
              ∧ Strings.len snippet ≤ snippetLength + 3
              ∧ (snippetLength < 50 → snippet = "" ∨ Strings.len snippet = snippetLength + 3))
  ∧ (∃ context, extractContext content = Some context ∧ Strings.len context ≤ 203)
  ∧ (snippetLength < 0 →
     extractSnippet snippetLength content
     = if existsb paragraphLine (Strings.Split content Fetcher.newline)
       then None else Some "").
Proof.
  split; [| split].
  - apply firstParagraph_bound.
  - destruct (firstParagraph_bound 200 (Strings.Split content Fetcher.newline))
      as (s & Hs & Hlen & _); [lia |].
    exists s. split; [exact Hs | lia].
  - intros Hneg. unfold extractSnippet.
    pose proof (firstParagraph_spec snippetLength (Strings.Split content Fetcher.newline)) as H.
    destruct (List.find paragraphLine _) as [line |] eqn:Hfind.
    + rewrite H. pose proof Hfind as Hex. apply find_some in Hex as [Hin Hline].
      rewrite (proj2 (existsb_exists _ _)) by eauto.
      unfold paragraphLine in Hline. apply andb_true_iff in Hline as [_ Hlong].
      apply Z.ltb_lt in Hlong.
      rewrite (proj2 (Z.ltb_lt snippetLength _)) by lia.
      by rewrite (proj2 (Z.ltb_lt snippetLength 0)) by lia.
    + rewrite H. destruct (existsb _ _) eqn:Hex; [| reflexivity].
      apply existsb_exists in Hex as (line & Hin & Hline).
      by rewrite (find_none _ _ Hfind line Hin) in Hline.
Qed.

Lemma extractSnippet_bounds_witness :
  (∃ snippet, extractSnippet 20 (doc_Content Scenario.longPage) = Some snippet
              ∧ Strings.len snippet ≤ 23)
  ∧ extractSnippet (-1) (doc_Content Scenario.longPage) = None.
Proof.
  destruct (extractSnippet_bounds 20 (doc_Content Scenario.longPage)) as (H & _).
  destruct (extractSnippet_bounds (-1) (doc_Content Scenario.longPage)) as (_ & _ & H').
  split.
  - destruct (H ltac:(lia)) as (s & Hs & Hlen & _).
    exists s. split; [exact Hs | exact Hlen].
  - rewrite H' by lia. vm_compute. reflexivity.
Defined.

(** ** No panic *)






(** ** What the index gives back *)

Lemma Split_cons_nonempty (s : string) (sep : ascii) : Strings.Split s sep ≠ [].
Proof.
  destruct s as [| c s]; simpl; [done |].
  destruct (Ascii.eqb c sep); [done |]. by destruct (Strings.Split s sep).
Qed.





(** * search.go: a rebuild, whatever its outcome *)

(** The swap never touches the cache or the taxonomy. *)
Lemma atomicSwap_keeps_cache env st :
  se_documents (engine (state_of (run (atomicSwap env) st))) = se_documents (engine st)
  ∧ se_taxonomy (engine (state_of (run (atomicSwap env) st))) = se_taxonomy (engine st).
Proof.
  unfold atomicSwap, state_of. unbind.
  destruct (swap_retire_run env st) as (st1 & l1 & -> & _ & _ & He).
  assert (Hst1 : se_documents (engine st1) = se_documents (engine st)
                 ∧ se_taxonomy (engine st1) = se_taxonomy (engine st))
    by (rewrite He; by destruct (engine st)).
  destruct Hst1 as [<- <-]. clear He.
  destruct st1 as [se [a s b]].
  unfold swap_promote. simpl.
  unfold os_Rename. destruct (ok_renameStaging env); simpl; [| done].
  destruct s; simpl; [done | |].
  all: destruct a; simpl; try done.
  all: unfold bleve_Open; destruct (ok_reopenActive env); simpl; try done.
  all: unfold bleve_New; destruct (ok_newStagingAfter env); simpl; try done.
Qed.


Opaque atomicSwap indexLoop.


Transparent atomicSwap indexLoop.


(** X10: a rebuild that fails before its loop, because the staging
    directory or the staging index cannot be made, leaves the engine
    serving what it served: the active handle, the active and the backup
    location, the cache and the taxonomy are what they were; only the
    staging handle was closed. *)
Theorem IndexDocuments_fails_before_swap
    (env : Env) (docs : list Document) (st : State) (msg : string) (e : error) :
  result_of (run (IndexDocuments env docs) st) = Err (Errorf msg e) →
  msg ≠ "failed to atomic swap indices" →
  engine (state_of (run (IndexDocuments env docs) st))
  = set_stagingIndex (Close <$> se_stagingIndex (engine st)) (engine st)
  ∧ at_active (files (state_of (run (IndexDocuments env docs) st))) = at_active (files st)
  ∧ at_backup (files (state_of (run (IndexDocuments env docs) st))) = at_backup (files st)
  ∧ (msg = "failed to create staging directory"
     ∨ msg = "failed to create new staging index").
Proof.
  intros Hres Hmsg.
  destruct (IndexDocuments_cases env docs st)
    as [(msg' & e' & Hres' & Hmsg' & He & Ha & Hb & _) | (_ & Hres')].
  - rewrite Hres in Hres'. injection Hres' as -> ->. done.
  - rewrite Hres in Hres'.
    destruct (result_of (run (atomicSwap env) (atSwap env docs st))); [discriminate |].
    injection Hres' as -> ->. done.
Qed.

Lemma IndexDocuments_fails_before_swap_witness :
  result_of (run (IndexDocuments Examples.noMkdir Scenario.seven) Scenario.serving)
  = Err (Errorf "failed to create staging directory" (ErrEnv "MkdirAll"))
  ∧ se_documents (engine (state_of (run (IndexDocuments Examples.noMkdir Scenario.seven)
                                      Scenario.serving)))
    = se_documents (engine Scenario.serving)
  ∧ at_active (files (state_of (run (IndexDocuments Examples.noMkdir Scenario.seven)
                                  Scenario.serving)))
    = at_active (files Scenario.serving).
Proof.
  assert (Hres : result_of (run (IndexDocuments Examples.noMkdir Scenario.seven)
                              Scenario.serving)
                 = Err (Errorf "failed to create staging directory" (ErrEnv "MkdirAll")))
    by (vm_compute; reflexivity).
  destruct (IndexDocuments_fails_before_swap _ _ _ _ _ Hres) as (He & Ha & _);
    [discriminate |].
  split; [exact Hres |]. split; [| exact Ha].
  rewrite He. by destruct (engine Scenario.serving).
Defined.

(** X11: a rebuild whose swap fails does not take back what its loop did:
    the cache and the taxonomy hold every document that was accepted, while
    the error is returned. *)
Theorem failed_swap_keeps_new_documents
    (env : Env) (docs : list Document) (st : State) (e : error) :
  result_of (run (IndexDocuments env docs) st)
  = Err (Errorf "failed to atomic swap indices" e) →
  se_documents (engine (state_of (run (IndexDocuments env docs) st)))
  = cacheWith (se_documents (engine st)) (indexed env docs)
  ∧ se_taxonomy (engine (state_of (run (IndexDocuments env docs) st)))
    = taxonomyWith (se_taxonomy (engine st)) (indexed env docs).
Proof.
  intros Hres.
  destruct (IndexDocuments_cases env docs st)
    as [(msg' & e' & Hres' & Hmsg' & _) | (-> & _)].
  - rewrite Hres in Hres'. injection Hres' as <- <-.
    destruct Hmsg' as [[=] | [=]].
  - destruct (atomicSwap_keeps_cache env (atSwap env docs st)) as [-> ->].
    unfold atSwap, afterIndexing. simpl. done.
Qed.

Lemma failed_swap_keeps_new_documents_witness :
  se_documents (engine (state_of (run (IndexDocuments Scenario.noMove Scenario.seven)
                                    Scenario.serving)))
  = cacheWith (se_documents (engine Scenario.serving)) Scenario.seven.
Proof.
  refine (proj1 (failed_swap_keeps_new_documents Scenario.noMove Scenario.seven
                   Scenario.serving _ _)).
  vm_compute. reflexivity.
Defined.

(** ** Documents that share an id *)

Lemma lastWithID_snoc id docs doc :
  lastWithID id (docs ++ [doc])
  = if bool_decide (doc_ID doc = id) then Some doc else lastWithID id docs.
Proof.
  unfold lastWithID. rewrite List.filter_app. simpl.
  destruct (bool_decide (doc_ID doc = id)); [apply last_snoc | by rewrite app_nil_r].
Qed.

Lemma lastWithID_Some id docs d :
  lastWithID id docs = Some d → doc_ID d = id ∧ d ∈ docs.
Proof.
  unfold lastWithID. intros H. apply last_Some_elem_of in H.
  apply list_elem_of_In, filter_In in H as [Hin Hid].
  apply bool_decide_eq_true in Hid. by apply list_elem_of_In in Hin.
Qed.

Lemma cacheWith_lookup m docs id :
  cacheWith m docs !! id
  = match lastWithID id docs with Some d => Some d | None => m !! id end.
Proof.
  induction docs as [| doc docs IH] using rev_ind; [reflexivity |].
  unfold cacheWith in *. rewrite foldl_app, lastWithID_snoc. simpl.
  case_bool_decide as Hid.
  - subst id. apply lookup_insert_eq.
  - rewrite lookup_insert_ne by done. exact IH.
Qed.

Lemma indexWith_lookup m docs id :
  indexWith m docs !! id
  = match lastWithID id docs with Some d => Some (stored d) | None => m !! id end.
Proof.
  induction docs as [| doc docs IH] using rev_ind; [reflexivity |].
  unfold indexWith in *. rewrite foldl_app, lastWithID_snoc. simpl.
  case_bool_decide as Hid.
  - subst id. apply lookup_insert_eq.
  - rewrite lookup_insert_ne by done. exact IH.
Qed.

Lemma run_GetDocument id st :
  run (GetDocument id) st = (se_documents (engine st) !! id, st, []).
Proof. reflexivity. Qed.

(** X12: after a successful rebuild [GetDocument] returns, for an id, the
    last document of the list that carries it and was accepted, whatever
    came before it under that id; for an id no accepted document carries,
    it returns what the cache held before the rebuild. *)
Theorem GetDocument_after_rebuild
    (env : Env) (docs : list Document) (st : State) (id : string) :
  result_of (run (IndexDocuments env docs) st) = Ok tt →
  result_of (run (GetDocument id) (state_of (run (IndexDocuments env docs) st)))
  = match lastWithID id (indexed env docs) with
    | Some doc => Some doc
    | None => se_documents (engine st) !! id
    end.
Proof.
  intros Hok. pose proof (IndexDocuments_success env docs st Hok) as Hre.
  rewrite run_GetDocument. unfold result_of. cbn [fst].
  rewrite (rebuilt_documents _ _ _ _ Hre). apply cacheWith_lookup.
Qed.

Lemma GetDocument_after_rebuild_witness :
  result_of (run (GetDocument "v1.8-guides-install")
               (state_of (run (IndexDocuments Scenario.allOk [Examples.older; Examples.newer])
                            Scenario.serving)))
  = Some Examples.newer.
Proof.
  rewrite (GetDocument_after_rebuild Scenario.allOk [Examples.older; Examples.newer]
             Scenario.serving "v1.8-guides-install"); [reflexivity |].
  vm_compute. reflexivity.
Defined.

(** X13: after a successful rebuild every document of the active index is
    in the cache under its id, with the fields the index stores, so that
    [Search] resolves every hit of that index from the cache. *)
Theorem rebuilt_index_within_cache
    (env : Env) (docs : list Document) (st : State) :
  result_of (run (IndexDocuments env docs) st) = Ok tt →
  ∃ m, activeData (state_of (run (IndexDocuments env docs) st)) = Some m
       ∧ ∀ senv hit sd,
           m !! hit_ID hit = Some sd →
           ∃ doc, se_documents (engine (state_of (run (IndexDocuments env docs) st)))
                    !! hit_ID hit = Some doc
                  ∧ doc_ID doc = hit_ID hit ∧ sd = stored doc
                  ∧ resolved senv (state_of (run (IndexDocuments env docs) st)) hit
                    = Found (fromMemory doc).
Proof.
  intros Hok. pose proof (IndexDocuments_success env docs st Hok) as Hre.
  exists (indexWith ∅ (indexed env docs)). split.
  - unfold activeData, index_data.
    rewrite (rebuilt_activeIndex _ _ _ _ Hre). simpl.
    pose proof (rebuilt_active _ _ _ _ Hre) as Ha. simpl in Ha. by rewrite Ha.
  - intros senv hit sd Hsd. rewrite indexWith_lookup in Hsd.
    destruct (lastWithID (hit_ID hit) (indexed env docs)) as [doc |] eqn:Hlast;
      [| by rewrite lookup_empty in Hsd].
    injection Hsd as <-. exists doc.
    assert (Hdoc : se_documents (engine (state_of (run (IndexDocuments env docs) st)))
                     !! hit_ID hit = Some doc).
    { rewrite (rebuilt_documents _ _ _ _ Hre), cacheWith_lookup. by rewrite Hlast. }
    split; [exact Hdoc |]. split; [by apply lastWithID_Some in Hlast as [? _] |].
    split; [reflexivity |]. unfold resolved. by rewrite Hdoc.
Qed.

Lemma rebuilt_index_within_cache_witness :
  ∃ m, activeData Scenario.serving = Some m
       ∧ ∀ senv hit sd,
           m !! hit_ID hit = Some sd →
           ∃ doc, se_documents (engine Scenario.serving) !! hit_ID hit = Some doc
                  ∧ doc_ID doc = hit_ID hit ∧ sd = stored doc
                  ∧ resolved senv Scenario.serving hit = Found (fromMemory doc).
Proof.
  apply (rebuilt_index_within_cache Scenario.allOk Scenario.three Scenario.fresh).
  vm_compute. reflexivity.
Defined.

(** ** The statistics *)

Lemma indexWith_fmap_cacheWith docs :
  indexWith ∅ docs = stored <$> cacheWith ∅ docs.
Proof.
  apply map_eq. intros id.
  rewrite lookup_fmap, indexWith_lookup, cacheWith_lookup.
  destruct (lastWithID id docs); [reflexivity | by rewrite !lookup_empty].
Qed.

Lemma cacheWith_union m docs : cacheWith m docs = cacheWith ∅ docs ∪ m.
Proof.
  apply map_eq. intros id. rewrite lookup_union, !cacheWith_lookup.
  destruct (lastWithID id docs); [| rewrite lookup_empty]; simpl.
  - by destruct (m !! id).
  - by destruct (m !! id).
Qed.

Lemma run_GetStats st h :
  se_activeIndex (engine st) = Some h →
  run GetStats st
  = (Some {| total_documents := Z.of_nat (size (se_documents (engine st)));
             stat_versions := Z.of_nat (size (tax_Versions (se_taxonomy (engine st))));
             stat_sections := Z.of_nat (size (tax_Sections (se_taxonomy (engine st))));
             stat_platforms := Z.of_nat (size (tax_Platforms (se_taxonomy (engine st))));
             stat_tags := Z.of_nat (size (tax_Tags (se_taxonomy (engine st)))) |}, st, []).
Proof. intros Hh. unfold GetStats. simpl. rewrite Hh. reflexivity. Qed.

(** X14: after a successful rebuild [GetStats] returns its counts, and
    the number of documents it reports is that of the cache: at least the
    number of documents in the active index, and equal to it when the
    cache was empty before the rebuild, the cache keeping the documents of
    earlier rebuilds. *)
Theorem GetStats_counts_the_cache
    (env : Env) (docs : list Document) (st : State) :
  result_of (run (IndexDocuments env docs) st) = Ok tt →
  ∃ n stats,
    activeDocCount (state_of (run (IndexDocuments env docs) st)) = Some n
    ∧ result_of (run GetStats (state_of (run (IndexDocuments env docs) st))) = Some stats
    ∧ total_documents stats
      = Z.of_nat (size (se_documents (engine (state_of (run (IndexDocuments env docs) st)))))
    ∧ n ≤ total_documents stats
    ∧ (se_documents (engine st) = ∅ → n = total_documents stats).
Proof.
  intros Hok. pose proof (IndexDocuments_success env docs st Hok) as Hre.
  eexists _, _. split; [exact (Rebuilt_docCount _ _ _ _ Hre) |].
  rewrite (run_GetStats _ _ (rebuilt_activeIndex _ _ _ _ Hre)).
  unfold result_of. cbn [fst total_documents].
  split; [reflexivity |]. split; [reflexivity |].
  rewrite (rebuilt_documents _ _ _ _ Hre), indexWith_fmap_cacheWith, map_size_fmap.
  split.
  - apply inj_le. rewrite (cacheWith_union (se_documents (engine st))).
    apply map_subseteq_size, map_union_subseteq_l.
  - by intros ->.
Qed.

Lemma GetStats_counts_the_cache_witness :
  ∃ stats,
    activeDocCount (state_of (run (IndexDocuments Scenario.allOk Scenario.seven)
                                Scenario.serving)) = Some 7
    ∧ result_of (run GetStats (state_of (run (IndexDocuments Scenario.allOk Scenario.seven)
                                           Scenario.serving))) = Some stats
    ∧ total_documents stats = 10.
Proof.
  destruct (GetStats_counts_the_cache Scenario.allOk Scenario.seven Scenario.serving)
    as (n & stats & Hn & Hstats & Htotal & _); [vm_compute; reflexivity |].
  exists stats. split; [vm_compute; reflexivity |]. split; [exact Hstats |].
  rewrite Htotal. vm_compute. reflexivity.
Defined.

(** ** The backup step on a serving engine *)



(** * The engine from start to restart *)

(** [NewSearchEngine] on a directory whose active location holds an
    index. *)
Lemma NewSearchEngine_on_index ienv indexPath maxResults snippetLength d st m :
  at_active d = IndexDir m →
  NewSearchEngine ienv indexPath maxResults snippetLength d = Ok st →
  st = mkState (mkSearchEngine (Some (mkHandle Active true)) (Some (mkHandle Staging true))
                  indexPath ∅ emptyTaxonomy maxResults snippetLength)
         (mkDisk (IndexDir m) (IndexDir ∅) (at_backup d)).
Proof.
  destruct d as [a s b]. simpl. intros ->.
  unfold NewSearchEngine, NewSearchEngine_prog, finishNewSearchEngine.
  destruct (ok_mkdirRoot ienv); simpl; [| discriminate].
  unfold bleve_Open.
  destruct (ok_openReadOnly ienv); simpl;
    [| destruct (ok_openRegular ienv); simpl; [| discriminate]].
  all: unfold DocCount, index_data, os_RemoveAll, bleve_New; simpl.
  all: destruct (ok_removeOldStaging ienv); simpl;
         destruct (ok_createStaging ienv); simpl; try discriminate;
         try destruct s; simpl; try discriminate; by intros [= <-].
Qed.

(** X15: the engine [NewSearchEngine] returns has both handles open, an
    empty cache and an empty taxonomy; the staging location holds a new
    empty index whatever it held; the active location holds the index that
    was found there, or a new empty one when there was nothing; the backup
    location is not read and not written.  An active location that is a
    directory without an index makes the call fail. *)
Theorem NewSearchEngine_success
    (ienv : InitEnv) (indexPath : string) (maxResults snippetLength : Z)
    (d : Disk) (st : State) :
  NewSearchEngine ienv indexPath maxResults snippetLength d = Ok st →
  engine st = mkSearchEngine (Some (mkHandle Active true)) (Some (mkHandle Staging true))
                indexPath ∅ emptyTaxonomy maxResults snippetLength
  ∧ files st = mkDisk (match at_active d with
                       | IndexDir m => IndexDir m
                       | _ => IndexDir ∅
                       end)
                 (IndexDir ∅) (at_backup d)
  ∧ at_active d ≠ EmptyDir.
Proof.
  unfold NewSearchEngine, NewSearchEngine_prog, finishNewSearchEngine.
  destruct d as [a s b].
  destruct (ok_mkdirRoot ienv); simpl; [| discriminate].
  unfold bleve_Open.
  destruct (ok_openReadOnly ienv); simpl.
  - destruct a; simpl.
    + unfold bleve_New. destruct (ok_createActive ienv); simpl; [| discriminate].
      unfold DocCount, index_data, os_RemoveAll. simpl.
      destruct (ok_removeOldStaging ienv); simpl;
        destruct (ok_createStaging ienv); simpl; try discriminate;
        try destruct s; simpl; try discriminate; by intros [= <-].
    + destruct (ok_openRegular ienv); simpl; discriminate.
    + unfold DocCount, index_data, os_RemoveAll, bleve_New. simpl.
      destruct (ok_removeOldStaging ienv); simpl;
        destruct (ok_createStaging ienv); simpl; try discriminate;
        try destruct s; simpl; try discriminate; by intros [= <-].
  - destruct (ok_openRegular ienv); simpl; [| discriminate].
    destruct a; simpl; try discriminate.
    unfold DocCount, index_data, os_RemoveAll, bleve_New. simpl.
    destruct (ok_removeOldStaging ienv); simpl;
      destruct (ok_createStaging ienv); simpl; try discriminate;
      try destruct s; simpl; try discriminate; by intros [= <-].
Qed.

Lemma NewSearchEngine_success_witness :
  ∃ st, NewSearchEngine Scenario.initOk "/idx" 20 300 (files Examples.broken) = Ok st
        ∧ at_active (files st) = IndexDir ∅
        ∧ at_backup (files st) = at_backup (files Examples.broken).
Proof.
  eexists.
  assert (H : NewSearchEngine Scenario.initOk "/idx" 20 300 (files Examples.broken)
              = Ok ?[st]) by (vm_compute; reflexivity).
  destruct (NewSearchEngine_success _ _ _ _ _ _ H) as (_ & Hfiles & _).
  split; [exact H |]. rewrite Hfiles. split; reflexivity.
Defined.

Lemma answer_from_index senv req st hit res h m :
  se_documents (engine st) = ∅ →
  se_activeIndex (engine st) = Some h → index_data h st = Ok m →
  answer senv req st hit = Some res →
  ∃ sd, m !! hit_ID hit = Some sd ∧ res_Document res = fromIndex (hit_ID hit) sd.
Proof.
  intros Hcache Hh Hm. unfold answer, resolved, bleve_Document.
  rewrite Hcache, lookup_empty, Hh, Hm.
  destruct (ok_document senv (hit_ID hit)); simpl; [| discriminate].
  destruct (m !! hit_ID hit) as [sd |]; [| discriminate].
  destruct (passesFilters _ _); [| discriminate].
  destruct (extractSnippet _ _); [| discriminate].
  destruct (extractContext _); [| discriminate].
  intros [= <-]. by exists sd.
Qed.

(** X16: an engine started on an index directory that holds documents
    skips the rebuild in [initializeDocuments] and is left with an empty
    cache and an empty taxonomy.  [GetDocument] then finds no document,
    [getLatestVersion] answers "latest" for the taxonomy of the engine, and
    every document in a response of [Search] is rebuilt from the fields
    the index stores, with an empty path and no metadata. *)
Theorem restart_serves_from_index
    (ienv : InitEnv) (indexPath : string) (maxResults snippetLength : Z)
    (d : Disk) (st : State) (m : gmap string StoredDoc)
    (df : Fetcher.DocumentationFetcher) (nav : Result DocsNavigation) (env : Env) :
  NewSearchEngine ienv indexPath maxResults snippetLength d = Ok st →
  at_active d = IndexDir m → m ≠ ∅ →
  run (initializeDocuments df nav env) st
  = (Initialized, st,
     [Logf "Using existing index with %d documents (skipping rebuild)"
        [ArgInt (Z.of_nat (size m))]])
  ∧ (∀ id, result_of (run (GetDocument id) st) = None)
  ∧ (∀ order, getLatestVersion (tax_Versions (result_of (run GetTaxonomy st))) order
              = "latest")
  ∧ ∀ bleveMatch senv req r res,
      result_of (run (Search bleveMatch senv req) st) = Response r →
      res ∈ resp_Results r →
      doc_Path (res_Document res) = "" ∧ doc_Metadata (res_Document res) = ∅
      ∧ ∃ hit sd, m !! hit_ID hit = Some sd
                  ∧ res_Document res = fromIndex (hit_ID hit) sd.
Proof.
  intros Hnew Ha Hm.
  pose proof (NewSearchEngine_on_index _ _ _ _ _ _ _ Ha Hnew) as ->.
  assert (Hsize : (0 <? Z.of_nat (size m)) = true).
  { apply Z.ltb_lt. apply map_size_non_empty_iff in Hm. lia. }
  split; [| split; [| split]].
  - unfold initializeDocuments. simpl. unfold DocCount, index_data. simpl.
    rewrite Hsize. reflexivity.
  - intros id. rewrite run_GetDocument. unfold result_of. simpl. apply lookup_empty.
  - intros order. unfold GetTaxonomy, result_of. simpl. rewrite copyMap_id.
    unfold getLatestVersion. rewrite decide_True; [done | apply map_size_empty].
  - intros bleveMatch senv req r res Hr Hres.
    destruct (Search_run bleveMatch senv req
                (mkState (mkSearchEngine (Some (mkHandle Active true))
                            (Some (mkHandle Staging true)) indexPath ∅ emptyTaxonomy
                            maxResults snippetLength)
                   (mkDisk (IndexDir m) (IndexDir ∅) (at_backup d)))) as (l & Hrun).
    rewrite Hrun in Hr. unfold result_of in Hr. simpl in Hr.
    destruct (ok_search senv); [| discriminate]. simpl in Hr.
    destruct (existsb _ _); [discriminate |].
    injection Hr as <-. simpl in Hres.
    apply list_elem_of_omap in Hres as (hit & _ & Hhit).
    eapply answer_from_index in Hhit as (sd & Hsd & Hdoc); [| reflexivity ..].
    rewrite Hdoc. split; [reflexivity |]. split; [reflexivity |]. eauto.
Qed.

Lemma restart_serves_from_index_witness :
  result_of (run (initializeDocuments Scenario.fetcher (Ok Scenario.manifest) Scenario.allOk)
               Examples.restarted) = Initialized
  ∧ result_of (run (GetDocument "v1.8-guides-install") Examples.restarted) = None
  ∧ result_of (run (GetDocument "v1.8-guides-install") Scenario.serving)
    = Some Scenario.guide18.
Proof.
  assert (Hnew : NewSearchEngine Scenario.initOk "/idx" 20 300 (files Scenario.serving)
                 = Ok Examples.restarted) by (vm_compute; reflexivity).
  destruct (restart_serves_from_index Scenario.initOk "/idx" 20 300 (files Scenario.serving)
              Examples.restarted _ Scenario.fetcher (Ok Scenario.manifest) Scenario.allOk
              Hnew eq_refl) as (Hinit & Hget & _).
  - intros Hempty. pose proof (f_equal size Hempty) as Hsize.
    vm_compute in Hsize. discriminate Hsize.
  - rewrite Hinit. split; [reflexivity |]. split; [apply Hget | vm_compute; reflexivity].
Defined.

(** ** EnsureIndicesOpen *)

Lemma run_EnsureIndicesOpen_ready eenv st :
  bothOpen st = true → run (EnsureIndicesOpen eenv) st = (Ok tt, st, []).
Proof.
  intros Hready. unfold EnsureIndicesOpen. simpl. rewrite Hready. reflexivity.
Qed.

(** X18: [EnsureIndicesOpen] looks at the handles being nil, not at their
    being open: after a rebuild that returned the error of a failed move,
    on an engine that had an active handle, both handles are closed and not
    nil, and [EnsureIndicesOpen] returns nil without reopening anything. *)
Theorem EnsureIndicesOpen_after_failed_swap
    (env : Env) (docs : list Document) (st : State) (e : error) (h : Handle)
    (eenv : EnsureEnv) :
  result_of (run (IndexDocuments env docs) st)
  = Err (Errorf "failed to atomic swap indices"
           (Errorf "failed to move staging index to active" e)) →
  se_activeIndex (engine st) = Some h →
  run (EnsureIndicesOpen eenv) (state_of (run (IndexDocuments env docs) st))
  = (Ok tt, state_of (run (IndexDocuments env docs) st), [])
  ∧ se_activeIndex (engine (state_of (run (IndexDocuments env docs) st)))
    = Some (Close h)
  ∧ se_stagingIndex (engine (state_of (run (IndexDocuments env docs) st)))
    = Some (mkHandle Staging false).
Proof.
  intros Hres Hh.
  assert (He : engine (state_of (run (IndexDocuments env docs) st))
               = set_stagingIndex (Some (mkHandle Staging false))
                   (set_activeIndex (Some (Close h)) (engine (atSwap env docs st)))).
  { destruct (IndexDocuments_cases env docs st)
      as [(msg & e' & Hres' & Hmsg & _) | (-> & Hres')].
    - rewrite Hres in Hres'. injection Hres' as <- <-. destruct Hmsg as [[=] | [=]].
    - rewrite Hres in Hres'.
      destruct (result_of (run (atomicSwap env) (atSwap env docs st)))
        as [[] | e'] eqn:Hswap; [discriminate |].
      injection Hres' as <-.
      rewrite (atomicSwap_move_failed env (atSwap env docs st) e Hswap).
      unfold atSwap, afterIndexing. simpl. by rewrite Hh. }
  split; [| by rewrite He].
  apply run_EnsureIndicesOpen_ready. unfold bothOpen. by rewrite He.
Qed.

Lemma EnsureIndicesOpen_after_failed_swap_witness :
  run (EnsureIndicesOpen Examples.ensureOk) Examples.broken = (Ok tt, Examples.broken, [])
  ∧ se_activeIndex (engine Examples.broken) = Some (mkHandle Active false).
Proof.
  destruct (EnsureIndicesOpen_after_failed_swap Scenario.noMove Scenario.three
              Scenario.serving (ErrEnv "Rename") (mkHandle Active true) Examples.ensureOk)
    as (Hrun & Hactive & _).
  - vm_compute. reflexivity.
  - vm_compute. reflexivity.
  - split; [exact Hrun | exact Hactive].
Defined.

(** X19: on an engine without an active handle, a successful
    [EnsureIndicesOpen] leaves an open active handle and a staging handle;
    the active location holds the index that was there when it could be
    opened, and a new empty index otherwise: an index that cannot be
    opened, for whatever reason, is removed and replaced.  The cache and
    the taxonomy are not touched. *)
Theorem EnsureIndicesOpen_opens (eenv : EnsureEnv) (st : State) :
  se_activeIndex (engine st) = None →
  result_of (run (EnsureIndicesOpen eenv) st) = Ok tt →
  se_activeIndex (engine (state_of (run (EnsureIndicesOpen eenv) st)))
  = Some (mkHandle Active true)
  ∧ se_stagingIndex (engine (state_of (run (EnsureIndicesOpen eenv) st))) ≠ None
  ∧ at_active (files (state_of (run (EnsureIndicesOpen eenv) st)))
    = (if ok_ensureOpen eenv
       then match at_active (files st) with
            | IndexDir m => IndexDir m
            | _ => IndexDir ∅
            end
       else IndexDir ∅)
  ∧ se_documents (engine (state_of (run (EnsureIndicesOpen eenv) st)))
    = se_documents (engine st)
  ∧ se_taxonomy (engine (state_of (run (EnsureIndicesOpen eenv) st)))
    = se_taxonomy (engine st).
Proof.
  destruct st as [[ai si indexPath docs tax maxResults snippetLength] [a s b]].
  simpl. intros ->.
  unfold EnsureIndicesOpen, EnsureIndicesOpen_locked, ensureActive, ensureStaging,
    result_of, state_of, bothOpen.
  simpl.
  unfold bleve_Open. destruct (ok_ensureOpen eenv); simpl.
  - destruct a; simpl.
    + unfold bleve_New. destruct (ok_ensureCreate eenv); simpl; [| discriminate].
      destruct si; simpl; [done |].
      unfold os_RemoveAll. destruct (ok_ensureRemoveStaging eenv); simpl;
        destruct (ok_ensureNewStaging eenv); simpl; try discriminate;
        try destruct s; simpl; try discriminate; done.
    + unfold os_RemoveAll. destruct (ok_removeCorrupted eenv); simpl; [| discriminate].
      unfold bleve_New. destruct (ok_ensureRecreate eenv); simpl; [| discriminate].
      destruct si; simpl; [done |].
      destruct (ok_ensureRemoveStaging eenv); simpl;
        destruct (ok_ensureNewStaging eenv); simpl; try discriminate;
        try destruct s; simpl; try discriminate; done.
    + unfold DocCount, index_data. simpl.
      destruct (0 <? Z.of_nat (size data)); simpl.
      all: destruct si; simpl; [done |].
      all: unfold os_RemoveAll, bleve_New; destruct (ok_ensureRemoveStaging eenv); simpl;
             destruct (ok_ensureNewStaging eenv); simpl; try discriminate;
             try destruct s; simpl; try discriminate; done.
  - unfold os_RemoveAll. destruct (ok_removeCorrupted eenv); simpl; [| discriminate].
    unfold bleve_New. destruct (ok_ensureRecreate eenv); simpl; [| discriminate].
    destruct si; simpl; [done |].
    destruct (ok_ensureRemoveStaging eenv); simpl;
      destruct (ok_ensureNewStaging eenv); simpl; try discriminate;
      try destruct s; simpl; try discriminate; done.
Qed.

Lemma EnsureIndicesOpen_opens_witness :
  at_active (files (state_of (run (EnsureIndicesOpen Examples.cannotOpen)
                                Examples.unopened)))
  = IndexDir ∅
  ∧ at_active (files Examples.unopened) = at_active (files Scenario.serving).
Proof.
  destruct (EnsureIndicesOpen_opens Examples.cannotOpen Examples.unopened)
    as (_ & _ & Hactive & _).
  - reflexivity.
  - vm_compute. reflexivity.
  - split; [| vm_compute; reflexivity].
    rewrite Hactive. vm_compute. reflexivity.
Defined.

(** ** initializeDocuments *)

Opaque IndexDocuments.


Transparent IndexDocuments.


(** * main.go: the helpers of the handlers *)

(** ** The order of Go strings *)

Lemma string_compare_lt_trans (a : string) :
  ∀ b c, String.compare a b = Lt → String.compare b c = Lt → String.compare a c = Lt.
Proof.
  induction a as [| x a IH]; intros [| y b] [| z c]; simpl; try done.
  unfold Ascii.compare.
  destruct (N.compare_spec (N_of_ascii x) (N_of_ascii y)) as [Hxy | Hxy | Hxy]; try done;
    destruct (N.compare_spec (N_of_ascii y) (N_of_ascii z)) as [Hyz | Hyz | Hyz]; try done;
    intros H1 H2.
  - rewrite Hxy, Hyz, N.compare_refl. eauto.
  - by rewrite Hxy, (proj2 (N.compare_lt_iff _ _) Hyz).
  - by rewrite <- Hyz, (proj2 (N.compare_lt_iff _ _) Hxy).
  - assert (H : (N_of_ascii x ?= N_of_ascii z)%N = Lt) by (apply N.compare_lt_iff; lia).
    by rewrite H.
Qed.

Lemma ltb_trans (a b c : string) :
  String.ltb a b = true → String.ltb b c = true → String.ltb a c = true.
Proof.
  unfold String.ltb. intros Hab Hbc.
  destruct (String.compare a b) eqn:H1; try discriminate.
  destruct (String.compare b c) eqn:H2; try discriminate.
  by rewrite (string_compare_lt_trans a b c H1 H2).
Qed.

Lemma ltb_false (a b : string) :
  String.ltb a b = false → b = a ∨ String.ltb b a = true.
Proof.
  unfold String.ltb. rewrite (String.compare_antisym b a).
  destruct (String.compare a b) eqn:H; simpl; [| discriminate |].
  - intros _. left. symmetry. by apply String.compare_eq_iff.
  - intros _. by right.
Qed.

Lemma ltb_irrefl (a : string) : String.ltb a a = false.
Proof.
  unfold String.ltb. pose proof (String.compare_antisym a a) as H.
  destruct (String.compare a a); simpl in H; try done.
Qed.

Lemma ltb_antisym (a b : string) :
  String.ltb a b = false → String.ltb b a = false → a = b.
Proof.
  intros Hab Hba. destruct (ltb_false a b Hab) as [-> | H]; [done | congruence].
Qed.

Lemma ltb_empty (v : string) : v ≠ "" → String.ltb "" v = true.
Proof. by destruct v. Qed.

(** The loop of [getLatestVersion]: the result is the start value or one
    of the keys, and nothing it has seen is above it. *)
Lemma foldl_latest (order : list string) :
  ∀ init,
    (foldl (fun latest version => if String.ltb latest version then version else latest)
           init order = init
     ∨ foldl (fun latest version => if String.ltb latest version then version else latest)
             init order ∈ order)
    ∧ String.ltb (foldl (fun latest version =>
                           if String.ltb latest version then version else latest)
                        init order) init = false
    ∧ ∀ v, v ∈ order →
           String.ltb (foldl (fun latest version =>
                                if String.ltb latest version then version else latest)
                             init order) v = false.
Proof.
  induction order as [| a rest IH]; intros init; simpl.
  - split; [by left |]. split; [apply ltb_irrefl |].
    intros v Hv. by apply not_elem_of_nil in Hv.
  - destruct (IH (if String.ltb init a then a else init)) as (Hmem & Hinit & Hall).
    set (r := foldl _ _ rest) in *.
    destruct (String.ltb init a) eqn:Hia.
    + split; [| split].
      * right. destruct Hmem as [-> | Hmem]; [apply list_elem_of_here |].
        by apply list_elem_of_further.
      * destruct (String.ltb r init) eqn:Hri; [| done].
        by rewrite (ltb_trans r init a Hri Hia) in Hinit.
      * intros v [-> | Hv]%elem_of_cons; [exact Hinit | by apply Hall].
    + split; [| split].
      * destruct Hmem as [-> | Hmem]; [by left |]. right. by apply list_elem_of_further.
      * exact Hinit.
      * intros v [-> | Hv]%elem_of_cons; [| by apply Hall].
        destruct (String.ltb r a) eqn:Hra; [| done].
        destruct (ltb_false init a Hia) as [-> | Hai]; [congruence |].
        by rewrite (ltb_trans r a init Hra Hai) in Hinit.
Qed.

Lemma rangeOf_elem {V : Type} (m : gmap string V) (order : list string) (k : string) :
  rangeOf m order → (k ∈ order ↔ is_Some (m !! k)).
Proof.
  unfold rangeOf. intros ->. rewrite list_elem_of_fmap. split.
  - intros ([k' v] & -> & Hin). apply elem_of_map_to_list in Hin. simpl. eauto.
  - intros [v Hv]. exists (k, v). split; [done |]. by apply elem_of_map_to_list.
Qed.

(** X21: [getLatestVersion] answers "latest" for an empty map; for any
    other map, and whatever the order in which the map is ranged over, it
    answers the key that no key is above in the order of Go strings, byte
    by byte, so that "v1.9" is later than "v1.10". *)
Theorem getLatestVersion_greatest (versions : gmap string bool) (order : list string) :
  rangeOf versions order →
  (versions = ∅ → getLatestVersion versions order = "latest")
  ∧ (versions ≠ ∅ →
     is_Some (versions !! getLatestVersion versions order)
     ∧ ∀ v, is_Some (versions !! v) →
            String.ltb (getLatestVersion versions order) v = false)
  ∧ ∀ order', rangeOf versions order' →
              getLatestVersion versions order' = getLatestVersion versions order.
Proof.
  intros Horder.
  assert (Hmax : ∀ o, rangeOf versions o → versions ≠ ∅ →
                      is_Some (versions !! getLatestVersion versions o)
                      ∧ ∀ v, is_Some (versions !! v) →
                             String.ltb (getLatestVersion versions o) v = false).
  { intros o Ho Hne. unfold getLatestVersion.
    rewrite decide_False by (by apply map_size_non_empty_iff).
    destruct (foldl_latest o "") as (Hmem & _ & Hall).
    set (r := foldl _ _ o) in *.
    assert (Hgreatest : ∀ v, is_Some (versions !! v) → String.ltb r v = false).
    { intros v Hv. apply Hall. by apply (rangeOf_elem versions o v Ho). }
    split; [| exact Hgreatest].
    destruct Hmem as [Hr | Hr]; [| by apply (rangeOf_elem versions o r Ho)].
    apply map_choose in Hne as (k & x & Hk).
    assert (Hk' : is_Some (versions !! k)) by eauto.
    pose proof (Hgreatest k Hk') as Hlt. rewrite Hr in Hlt |- *.
    destruct (decide (k = "")) as [-> | Hnonempty]; [done |].
    by rewrite (ltb_empty k Hnonempty) in Hlt. }
  split; [| split].
  - intros ->. unfold getLatestVersion. by rewrite decide_True by apply map_size_empty.
  - by apply Hmax.
  - intros order' Horder'.
    destruct (decide (versions = ∅)) as [-> | Hne].
    + unfold getLatestVersion. by rewrite !decide_True by apply map_size_empty.
    + destruct (Hmax order Horder Hne) as [Hin Hall].
      destruct (Hmax order' Horder' Hne) as [Hin' Hall'].
      apply ltb_antisym; [by apply Hall' | by apply Hall].
Qed.

Lemma getLatestVersion_greatest_witness :
  getLatestVersion Examples.versions (map_to_list Examples.versions).*1 = "v1.9"
  ∧ is_Some (Examples.versions !! "v1.10")
  ∧ ∀ order', rangeOf Examples.versions order' →
              getLatestVersion Examples.versions order' = "v1.9".
Proof.
  destruct (getLatestVersion_greatest Examples.versions (map_to_list Examples.versions).*1)
    as (_ & _ & Hany); [unfold rangeOf; reflexivity |].
  assert (H : getLatestVersion Examples.versions (map_to_list Examples.versions).*1 = "v1.9")
    by (vm_compute; reflexivity).
  split; [exact H |]. split; [vm_compute; eauto |].
  intros order' Horder'. rewrite (Hany order' Horder'). exact H.
Defined.

(** ** compareDocuments *)

Lemma titleSet_lookup (results : list SearchResult) (title : string) :
  default false (titleSet results !! title)
  = bool_decide (title ∈ (fun result => doc_Title (res_Document result)) <$> results).
Proof.
  unfold titleSet.
  induction results as [| result results IH] using rev_ind.
  - simpl. rewrite lookup_empty. simpl.
    first [done | symmetry; apply bool_decide_eq_false, not_elem_of_nil].
  - rewrite foldl_app, fmap_app. simpl.
    destruct (decide (doc_Title (res_Document result) = title)) as [<- | Hne].
    + rewrite lookup_insert_eq. simpl. symmetry. apply bool_decide_eq_true.
      apply elem_of_app. right. apply list_elem_of_here.
    + rewrite lookup_insert_ne by done. rewrite IH.
      apply bool_decide_ext. rewrite elem_of_app, list_elem_of_singleton.
      split; [by left | intros [H | H]; [done | by destruct Hne]].
Qed.

Lemma titleSet_keys (results : list SearchResult) (title : string) :
  is_Some (titleSet results !! title)
  ↔ title ∈ (fun result => doc_Title (res_Document result)) <$> results.
Proof.
  unfold titleSet.
  induction results as [| result results IH] using rev_ind.
  - simpl. rewrite lookup_empty. split; [by intros [? [=]] |].
    intros H. by apply not_elem_of_nil in H.
  - rewrite foldl_app, fmap_app. simpl.
    destruct (decide (doc_Title (res_Document result) = title)) as [<- | Hne].
    + rewrite lookup_insert_eq. split; [| eauto].
      intros _. apply elem_of_app. right. apply list_elem_of_here.
    + rewrite lookup_insert_ne by done. rewrite IH.
      rewrite elem_of_app, list_elem_of_singleton.
      split; [by left | intros [H | H]; [done | by destruct Hne]].
Qed.

Lemma foldl_changes (label : string) (known : gmap string bool) (order : list string) :
  ∀ changes,
    foldl (fun changes title =>
             if negb (default false (known !! title))
             then changes ++ [label +:+ title] else changes)
          changes order
    = changes ++ ((fun title => label +:+ title)
                    <$> List.filter (fun title => negb (default false (known !! title)))
                                    order).
Proof.
  induction order as [| title rest IH]; intros changes; simpl.
  - by rewrite app_nil_r.
  - rewrite IH. destruct (negb (default false (known !! title))); [| done].
    simpl. by rewrite <- app_assoc.
Qed.

(** X22: [compareDocuments] reports "NEW: t" exactly for the titles t of
    the results of the newer version that no result of the older version
    has, and "REMOVED: t" exactly for the titles of the older version that
    no result of the newer one has, whatever the order in which the two
    title maps are ranged over; two result lists with the same titles give
    no change, whatever their documents contain. *)
Theorem compareDocuments_by_title
    (fromResults toResults : list SearchResult) (orderTo orderFrom : list string) :
  rangeOf (titleSet toResults) orderTo →
  rangeOf (titleSet fromResults) orderFrom →
  (∀ change,
      change ∈ compareDocuments fromResults toResults orderTo orderFrom
      ↔ (∃ title, change = "NEW: " +:+ title
                  ∧ title ∈ (fun result => doc_Title (res_Document result)) <$> toResults
                  ∧ title ∉ (fun result => doc_Title (res_Document result)) <$> fromResults)
        ∨ (∃ title, change = "REMOVED: " +:+ title
                    ∧ title ∈ (fun result => doc_Title (res_Document result)) <$> fromResults
                    ∧ title ∉ (fun result => doc_Title (res_Document result)) <$> toResults))
  ∧ ((∀ title,
         title ∈ (fun result => doc_Title (res_Document result)) <$> fromResults
         ↔ title ∈ (fun result => doc_Title (res_Document result)) <$> toResults) →
     compareDocuments fromResults toResults orderTo orderFrom = []).
Proof.
  intros Hto Hfrom.
  assert (Hspec : ∀ change,
      change ∈ compareDocuments fromResults toResults orderTo orderFrom
      ↔ (∃ title, change = "NEW: " +:+ title
                  ∧ title ∈ (fun result => doc_Title (res_Document result)) <$> toResults
                  ∧ title ∉ (fun result => doc_Title (res_Document result)) <$> fromResults)
        ∨ (∃ title, change = "REMOVED: " +:+ title
                    ∧ title ∈ (fun result => doc_Title (res_Document result)) <$> fromResults
                    ∧ title ∉ (fun result => doc_Title (res_Document result)) <$> toResults)).
  { intros change. unfold compareDocuments. rewrite !foldl_changes. simpl.
    rewrite elem_of_app, !list_elem_of_fmap.
    assert (Hside : ∀ (known other : list SearchResult) (order : list string) (title : string),
               rangeOf (titleSet other) order →
               title ∈ List.filter
                         (fun title => negb (default false (titleSet known !! title))) order
               ↔ title ∈ (fun result => doc_Title (res_Document result)) <$> other
                 ∧ title ∉ (fun result => doc_Title (res_Document result)) <$> known).
    { intros known other order title Horder.
      rewrite list_elem_of_In, filter_In, <- list_elem_of_In.
      rewrite (rangeOf_elem _ _ title Horder), titleSet_keys, titleSet_lookup.
      rewrite negb_true_iff, bool_decide_eq_false. done. }
    split.
    - intros [(title & -> & Hin) | (title & -> & Hin)].
      + left. exists title. split; [done |]. by apply (Hside fromResults toResults orderTo).
      + right. exists title. split; [done |]. by apply (Hside toResults fromResults orderFrom).
    - intros [(title & -> & Hin) | (title & -> & Hin)].
      + left. exists title. split; [done |]. by apply (Hside fromResults toResults orderTo).
      + right. exists title. split; [done |].
        by apply (Hside toResults fromResults orderFrom). }
  split; [exact Hspec |].
  intros Hsame.
  destruct (compareDocuments fromResults toResults orderTo orderFrom) as [| change rest] eqn:Hc;
    [done |].
  exfalso.
  destruct (proj1 (Hspec change) (list_elem_of_here _ _))
    as [(title & _ & Hin & Hout) | (title & _ & Hin & Hout)].
  - apply Hout. by apply Hsame.
  - apply Hout. by apply Hsame.
Qed.

Lemma compareDocuments_by_title_witness :
  compareDocuments [Examples.result "A"; Examples.result "B"]
    [Examples.result "B"; Examples.result "C"]
    (map_to_list (titleSet [Examples.result "B"; Examples.result "C"])).*1
    (map_to_list (titleSet [Examples.result "A"; Examples.result "B"])).*1
  = ["NEW: C"; "REMOVED: A"]
  ∧ compareDocuments [Examples.firstHit Scenario.guide17] [Examples.firstHit Scenario.guide18]
      (map_to_list (titleSet [Examples.firstHit Scenario.guide18])).*1
      (map_to_list (titleSet [Examples.firstHit Scenario.guide17])).*1
    = [].
Proof.
  split; [vm_compute; reflexivity |].
  apply (compareDocuments_by_title [Examples.firstHit Scenario.guide17]
           [Examples.firstHit Scenario.guide18]);
    [unfold rangeOf; reflexivity | unfold rangeOf; reflexivity |].
  intros title. vm_compute. done.
Defined.

(** ** getSortedVersions *)

Lemma foldl_snoc_all (order : list string) :
  ∀ sorted, foldl (fun sorted version => sorted ++ [version]) sorted order = sorted ++ order.
Proof.
  induction order as [| version rest IH]; intros sorted; simpl.
  - by rewrite app_nil_r.
  - by rewrite IH, <- app_assoc.
Qed.

(** X23: [getSortedVersions] sorts nothing: it returns the keys of the map,
    each once, in the order in which the map is ranged over, an order the
    language does not fix. *)
Theorem getSortedVersions_unsorted (versions : gmap string bool) (order : list string) :
  rangeOf versions order →
  getSortedVersions versions order = order
  ∧ NoDup (getSortedVersions versions order)
  ∧ ∀ v, v ∈ getSortedVersions versions order ↔ is_Some (versions !! v).
Proof.
  intros Horder. unfold getSortedVersions. rewrite foldl_snoc_all. simpl.
  split; [reflexivity |]. split.
  - unfold rangeOf in Horder. rewrite Horder. apply NoDup_fst_map_to_list.
  - intros v. by apply rangeOf_elem.
Qed.

Lemma getSortedVersions_unsorted_witness :
  getSortedVersions Examples.versions (reverse (map_to_list Examples.versions).*1)
  = reverse (getSortedVersions Examples.versions (map_to_list Examples.versions).*1)
  ∧ getSortedVersions Examples.versions (map_to_list Examples.versions).*1
    ≠ getSortedVersions Examples.versions (reverse (map_to_list Examples.versions).*1).
Proof.
  destruct (getSortedVersions_unsorted Examples.versions
              (reverse (map_to_list Examples.versions).*1)) as (Hrev & _).
  { unfold rangeOf. apply reverse_Permutation. }
  destruct (getSortedVersions_unsorted Examples.versions
              (map_to_list Examples.versions).*1) as (Hfwd & _).
  { unfold rangeOf. reflexivity. }
  rewrite Hrev, Hfwd. split; [reflexivity |]. vm_compute. discriminate.
Defined.
